(** * bambi decode: the index decoder of src/decode.c

    A shallow embedding of the decoding engine (barcode table, matcher,
    record processor, header rewriter, metrics reporter) and the
    properties its specification states about it. *)

From Stdlib Require Import ZArith Ascii String Lia.
From stdpp Require Import base option list strings relations.

Local Open Scope Z_scope.

(** ** C data *)

(** A C string is the list of its characters before the terminating NUL. *)
Abbreviation cstring := (list ascii).

Definition cstr (s : string) : cstring := list_ascii_of_string s.

Definition NUL : ascii := Ascii.zero.

(** [int] is a 32-bit two's-complement integer; arithmetic wraps. *)
Definition INT_MAX : Z := 2147483647.
Definition INT_MIN : Z := -2147483648.

Definition int_wrap (x : Z) : Z := (x + 2147483648) mod 4294967296 - 2147483648.
Definition int_add (x y : Z) : Z := int_wrap (x + y).
Definition int_sub (x y : Z) : Z := int_wrap (x - y).
Definition int_mul (x y : Z) : Z := int_wrap (x * y).

Definition in_int (x : Z) : Prop := INT_MIN <= x <= INT_MAX.

(** [strlen] yields a [size_t]; stored in an [int] it is converted. *)
Definition strlen (s : cstring) : Z := Z.of_nat (length s).

(** The value of a [char] in an arithmetic expression ([char] is signed
    on the target ABI; for the ASCII range the signedness is irrelevant). *)
Definition char_val (c : ascii) : Z :=
  let n := Z.of_N (N_of_ascii c) in if n <? 128 then n else n - 256.

(** A [char*] walking over a string: [Some s] points at the first
    character of the suffix [s] (at the terminator when [s] is empty),
    [None] points past the terminator, where a read is undefined. *)
Definition char_ptr := option cstring.

Definition deref (p : char_ptr) : option ascii :=
  match p with
  | Some (c :: _) => Some c
  | Some [] => Some NUL
  | None => None
  end.

Definition advance (p : char_ptr) : char_ptr :=
  match p with
  | Some (_ :: s) => Some s
  | _ => None
  end.

(** ** Matcher: no-calls and mismatches (decode.c, lines 465-503) *)

(** [isNoCall]: return true if base is a noCall. *)
Definition isNoCall (b : ascii) : bool :=
  (b =? "N")%char || (b =? "n")%char || (b =? ".")%char.

(** [noCalls]: count the number of noCalls in a sequence. *)
Fixpoint noCalls_loop (s : cstring) (n : Z) : Z :=
  match s with
  | [] => n
  | c :: s' => noCalls_loop s' (if isNoCall c then int_add n 1 else n)
  end.

Definition noCalls (s : cstring) : Z := noCalls_loop s 0.

(** [countMismatches]: the loop runs over [tag]; [*b] is read only when
    [*t] is not a no-call. The result is [None] when the loop reads
    [barcode] past its terminator. *)
Fixpoint countMismatches_loop (t : cstring) (b : char_ptr) (n : Z) : option Z :=
  match t with
  | [] => Some n
  | tc :: t' =>
      if isNoCall tc then countMismatches_loop t' (advance b) n
      else
        bc ← deref b;
        countMismatches_loop t' (advance b)
          (if isNoCall bc then n
           else if (tc =? bc)%char then n else int_add n 1)
  end.

Definition countMismatches (tag barcode : cstring) : option Z :=
  countMismatches_loop tag (Some barcode) 0.

(** *** What the specification says the two counts are *)

Definition mismatch_at (p : ascii * ascii) : bool :=
  negb (isNoCall p.1) && negb (isNoCall p.2) && negb (p.1 =? p.2)%char.

Definition differ_at (p : ascii * ascii) : bool := negb (p.1 =? p.2)%char.

Definition count_mismatches_spec (a b : cstring) : nat :=
  length (List.filter mismatch_at (List.combine a b)).

Definition hamming (a b : cstring) : nat :=
  length (List.filter differ_at (List.combine a b)).

Definition count_no_calls_spec (s : cstring) : nat :=
  length (List.filter isNoCall s).

Definition no_nocall (s : cstring) : Prop := Forall (fun c => isNoCall c = false) s.

(** ** Options and the barcode table (decode.c, lines 35-147) *)

Definition DEFAULT_MAX_LOW_QUALITY_TO_CONVERT : Z := 15.
Definition DEFAULT_MAX_NO_CALLS : Z := 2.
Definition DEFAULT_MAX_MISMATCHES : Z := 1.
Definition DEFAULT_MIN_MISMATCH_DELTA : Z := 1.

Record opts_t := {
  barcode_tag_name : cstring;
  quality_tag_name : cstring;
  max_low_quality_to_convert : Z;
  convert_low_quality : bool;
  max_no_calls : Z;
  max_mismatches : Z;
  min_mismatch_delta : Z;
  change_read_name : bool
}.

(** The options [parse_args] starts from. *)
Definition default_opts : opts_t := {|
  barcode_tag_name := cstr "BC";
  quality_tag_name := cstr "QT";
  max_low_quality_to_convert := DEFAULT_MAX_LOW_QUALITY_TO_CONVERT;
  convert_low_quality := false;
  max_no_calls := DEFAULT_MAX_NO_CALLS;
  max_mismatches := DEFAULT_MAX_MISMATCHES;
  min_mismatch_delta := DEFAULT_MIN_MISMATCH_DELTA;
  change_read_name := false
|}.

(** [bc_details_t]: details read from the barcode file, plus the metrics
    of each barcode. *)
Record bc_details_t := {
  seq : cstring;
  name : cstring;
  lib : cstring;
  sample : cstring;
  desc : cstring;
  reads : Z;
  pf_reads : Z;
  perfect : Z;
  pf_perfect : Z;
  one_mismatch : Z;
  pf_one_mismatch : Z
}.

(** [bc_array_t]: [end] is the length of [entries]; the capacity [max]
    only drives reallocation. Entry 0 is the entry for null metrics. *)
Record bc_array_t := {
  tag_len : Z;
  entries : list bc_details_t
}.

Definition bc_push (bc : bc_array_t) (bcd : bc_details_t) : bc_array_t :=
  {| tag_len := tag_len bc; entries := entries bc ++ [bcd] |}.

(** [calloc]ed entry holding the five strings. *)
Definition new_details (s n l sa d : cstring) : bc_details_t :=
  {| seq := s; name := n; lib := l; sample := sa; desc := d;
     reads := 0; pf_reads := 0; perfect := 0; pf_perfect := 0;
     one_mismatch := 0; pf_one_mismatch := 0 |}.

(** [bc_init]: the first entry's [seq] stays unset (written here as the
    empty string) until the tag length is known; nothing reads it before
    [loadBarcodeFile] assigns it. *)
Definition bc_init : bc_array_t :=
  bc_push {| tag_len := 0; entries := [] |}
          (new_details [] (cstr "0") [] [] []).

Definition set_seq (bcd : bc_details_t) (s : cstring) : bc_details_t :=
  {| seq := s; name := name bcd; lib := lib bcd; sample := sample bcd;
     desc := desc bcd; reads := reads bcd; pf_reads := pf_reads bcd;
     perfect := perfect bcd; pf_perfect := pf_perfect bcd;
     one_mismatch := one_mismatch bcd; pf_one_mismatch := pf_one_mismatch bcd |}.

Definition set_counters (bcd : bc_details_t) (r pr p pp o po : Z) : bc_details_t :=
  {| seq := seq bcd; name := name bcd; lib := lib bcd; sample := sample bcd;
     desc := desc bcd; reads := r; pf_reads := pr; perfect := p;
     pf_perfect := pp; one_mismatch := o; pf_one_mismatch := po |}.

Definition set_entries (bc : bc_array_t) (es : list bc_details_t) : bc_array_t :=
  {| tag_len := tag_len bc; entries := es |}.

(** ** Matcher: quality conversion (decode.c, lines 284-312) *)

Fixpoint checkBarcodeQuality_loop (barcode quality : cstring) (mlq : Z) : cstring :=
  match quality, barcode with
  | q :: quality', b :: barcode' =>
      let qual := char_val q - 33 in
      (if qual <=? mlq then "N"%char else b)
        :: checkBarcodeQuality_loop barcode' quality' mlq
  | _, _ => barcode
  end.

(** [checkBarcodeQuality]: [None] is the NULL returned (after a message on
    stderr) when barcode and quality are different lengths. *)
Definition checkBarcodeQuality (barcode : cstring) (quality : option cstring)
    (max_low_quality_to_convert : Z) : option cstring :=
  match quality with
  | None => Some barcode
  | Some quality =>
      if bool_decide (strlen barcode <> strlen quality) then None
      else
        let mlq := if max_low_quality_to_convert =? 0
                   then DEFAULT_MAX_LOW_QUALITY_TO_CONVERT
                   else max_low_quality_to_convert in
        Some (checkBarcodeQuality_loop barcode quality mlq)
  end.

(** *** What the specification says the conversion is *)

Definition phred (q : ascii) : Z := char_val q - 33.

Definition convert_at (threshold : Z) (b q : ascii) : ascii :=
  if phred q <=? threshold then "N"%char else b.

(** The threshold the conversion works with. *)
Definition effective_threshold (threshold : Z) : Z :=
  if threshold =? 0 then DEFAULT_MAX_LOW_QUALITY_TO_CONVERT else threshold.

(** The conversion as the specification words it, for every configured
    threshold. *)
Definition converts_at_threshold : Prop :=
  forall (barcode quality : cstring) (threshold : Z),
    length barcode = length quality ->
    exists out,
      checkBarcodeQuality barcode (Some quality) threshold = Some out
      /\ forall i b q, barcode !! i = Some b -> quality !! i = Some q ->
           out !! i = Some (convert_at threshold b q).

(** ** Matcher: best match (decode.c, lines 505-539) *)

(** The three locals the scan carries; [best_match] is the index of the
    entry the pointer refers to. *)
Record scan_t := {
  best_match : option nat;
  nmBest : Z;
  nm2Best : Z
}.

Definition scan_step (st : scan_t) (n : nat) (nMismatches : Z) : scan_t :=
  if nMismatches <? nmBest st then
    {| best_match := Some n;
       nmBest := nMismatches;
       nm2Best := match best_match st with
                  | Some _ => nmBest st
                  | None => nm2Best st
                  end |}
  else
    {| best_match := best_match st;
       nmBest := nmBest st;
       nm2Best := if nMismatches <? nm2Best st then nMismatches else nm2Best st |}.

Fixpoint findBestMatch_loop (barcode : cstring) (es : list bc_details_t)
    (n : nat) (st : scan_t) : option scan_t :=
  match es with
  | [] => Some st
  | bcd :: es' =>
      nMismatches ← countMismatches (seq bcd) barcode;
      findBestMatch_loop barcode es' (S n) (scan_step st n nMismatches)
  end.

Definition matched (st : scan_t) (nCalls : Z) (opts : opts_t) : bool :=
  bool_decide (is_Some (best_match st))
  && (nCalls <=? max_no_calls opts)
  && (nmBest st <=? max_mismatches opts)
  && (min_mismatch_delta opts <=? int_sub (nm2Best st) (nmBest st)).

(** [findBestMatch] returns the index of the entry it points to; index 0
    is the entry for the unmatched reads. A NULL [barcode] is dereferenced
    by [noCalls]. *)
Definition findBestMatch (barcode : option cstring) (barcodeArray : bc_array_t)
    (opts : opts_t) : option nat :=
  barcode ← barcode;
  let bcLen := tag_len barcodeArray in
  let nCalls := noCalls barcode in
  st ← findBestMatch_loop barcode (drop 1 (entries barcodeArray)) 1
         {| best_match := None; nmBest := bcLen; nm2Best := bcLen |};
  if matched st nCalls opts then best_match st else Some 0%nat.

(** ** Metrics update (decode.c, lines 541-573) *)

Definition updateMetrics (bcd : bc_details_t) (sq : option cstring) (isPf : bool)
    : option bc_details_t :=
  n ← match sq with
      | Some s => countMismatches (seq bcd) s
      | None => Some 99
      end;
  let r := int_add (reads bcd) 1 in
  let pr := if isPf then int_add (pf_reads bcd) 1 else pf_reads bcd in
  let p := if n =? 0 then int_add (perfect bcd) 1 else perfect bcd in
  let pp := if (n =? 0) && isPf then int_add (pf_perfect bcd) 1 else pf_perfect bcd in
  let o := if n =? 1 then int_add (one_mismatch bcd) 1 else one_mismatch bcd in
  let po := if (n =? 1) && isPf then int_add (pf_one_mismatch bcd) 1
            else pf_one_mismatch bcd in
  Some (set_counters bcd r pr p pp o po).

(** The update [updateMetrics] makes through its pointer, when the
    pointer is [entries[i]]. *)
Definition updateMetrics_at (barcodeArray : bc_array_t) (i : nat)
    (sq : option cstring) (isPf : bool) : option bc_array_t :=
  bcd ← entries barcodeArray !! i;
  bcd' ← updateMetrics bcd sq isPf;
  Some (set_entries barcodeArray (<[i := bcd']> (entries barcodeArray))).

(** [findBarcodeName] returns the name of the matched entry, whose
    metrics it updates. *)
Definition findBarcodeName (barcode : option cstring) (barcodeArray : bc_array_t)
    (opts : opts_t) (isPf : bool) : option (cstring * bc_array_t) :=
  i ← findBestMatch barcode barcodeArray opts;
  barcodeArray ← updateMetrics_at barcodeArray i barcode isPf;
  bcd ← entries barcodeArray !! i;
  Some (name bcd, barcodeArray).

(** ** The C library's tokeniser and line reader *)

Definition is_delim (delim : cstring) (c : ascii) : bool :=
  existsb (Ascii.eqb c) delim.

(** Skip the leading delimiters ([s += strspn(s, delim)]). *)
Fixpoint skip_delims (delim s : cstring) : cstring :=
  match s with
  | c :: s' => if is_delim delim c then skip_delims delim s' else s
  | [] => []
  end.

(** The token up to the next delimiter and what follows that delimiter. *)
Fixpoint split_token (delim s : cstring) : cstring * cstring :=
  match s with
  | [] => ([], [])
  | c :: s' =>
      if is_delim delim c then ([], s')
      else let '(t, r) := split_token delim s' in (c :: t, r)
  end.

(** [strtok_r] on the string the save pointer refers to: the token (or
    NULL) and the new save pointer. [strtok] keeps the pointer itself. *)
Definition strtok_r (s delim : cstring) : option cstring * cstring :=
  match skip_delims delim s with
  | [] => (None, [])
  | s' => let '(t, r) := split_token delim s' in (Some t, r)
  end.

Definition TAB : ascii := "009"%char.
Definition LF : ascii := "010"%char.

(** The lines [getline] returns one after the other, each with its
    terminating newline when the text has one there. *)
Fixpoint file_lines (text : cstring) : list cstring :=
  match text with
  | [] => []
  | c :: text' =>
      if (c =? LF)%char then [c] :: file_lines text'
      else match file_lines text' with
           | [] => [[c]]
           | l :: ls => (c :: l) :: ls
           end
  end.

(** [if (buf[strlen(buf)-1] == '\n') buf[strlen(buf)-1] = 0] *)
Definition chomp (buf : cstring) : cstring :=
  match last buf with
  | Some c => if (c =? LF)%char then removelast buf else buf
  | None => buf
  end.

(** A string that ends, or whose first character is a delimiter. *)
Definition at_delim (d rest : cstring) : Prop :=
  match rest with
  | [] => True
  | c :: _ => is_delim d c = true
  end.

Definition no_delim (d f : cstring) : Prop := Forall (fun c => is_delim d c = false) f.

(** ** Loading the barcode file (decode.c, lines 414-463) *)

(** One row: five [strtok] calls, each result duplicated with [strdup],
    which dereferences a NULL token ([None]: undefined). *)
Definition parse_row (buf : cstring) : option bc_details_t :=
  let '(s1, p1) := strtok_r buf [TAB] in
  sq ← s1;
  let '(s2, p2) := strtok_r p1 [TAB] in
  nm ← s2;
  let '(s3, p3) := strtok_r p2 [TAB] in
  lb ← s3;
  let '(s4, p4) := strtok_r p3 [TAB] in
  sm ← s4;
  let '(s5, p5) := strtok_r p4 [TAB] in
  ds ← s5;
  Some (new_details sq nm lb sm ds).

(** The result of a load: the table, the NULL of an error return, or
    undefined behaviour. *)
Inductive load_result :=
| Loaded (barcodeArray : bc_array_t)
| LoadError
| LoadUndefined.

(** The [while (getline(...) > 0)] loop. The comparison of the [int]
    [tag_length] with [strlen] is made at type [size_t]. *)
Fixpoint load_rows (rows : list cstring) (barcodeArray : bc_array_t)
    (tag_length : Z) : load_result + (bc_array_t * Z) :=
  match rows with
  | [] => inr (barcodeArray, tag_length)
  | buf :: rows' =>
      match parse_row (chomp buf) with
      | None => inl LoadUndefined
      | Some bcd =>
          let barcodeArray := bc_push barcodeArray bcd in
          if tag_length =? 0 then
            load_rows rows' barcodeArray (int_wrap (strlen (seq bcd)))
          else if bool_decide (tag_length mod 2 ^ 64 <> strlen (seq bcd))
               then inl LoadError
               else load_rows rows' barcodeArray tag_length
      end
  end.

(** [loadBarcodeFile]: [fh] is the text of the file, [None] when it
    cannot be opened. *)
Definition loadBarcodeFile (fh : option cstring) : load_result :=
  let barcodeArray := bc_init in
  match fh with
  | None => LoadError
  | Some text =>
      match file_lines text with
      | [] => LoadError
      | _ :: rows =>
          match load_rows rows barcodeArray 0 with
          | inl r => r
          | inr (barcodeArray, tag_length) =>
              match entries barcodeArray with
              | [] => LoadUndefined
              | e0 :: es =>
                  Loaded {| tag_len := tag_length;
                            entries := set_seq e0 (replicate (Z.to_nat tag_length) "N"%char) :: es |}
              end
          end
      end
  end.

(** ** Metrics report (decode.c, lines 314-412) *)

(** A [double] printed by ["%f"]: either the [int] constant 0 of the
    conditional's else branch, or the quotient of an [int] by the
    (non-converted) [int] denominator. *)
Inductive double :=
| DZero
| DQuot (num den : Z).

Definition ratio (num den : Z) : double :=
  if den =? 0 then DZero else DQuot num den.

Record metrics_line := {
  m_seq : cstring;
  m_name : cstring;
  m_lib : cstring;
  m_sample : cstring;
  m_desc : cstring;
  m_reads : Z;
  m_pf_reads : Z;
  m_perfect : Z;
  m_pf_perfect : Z;
  m_one_mismatch : Z;
  m_pf_one_mismatch : Z;
  m_pct_matches : double;
  m_ratio_to_best : double;
  m_pf_pct_matches : double;
  m_pf_ratio_to_best : double;
  m_pf_normalized_matches : double
}.

Definition writeMetricsLine (bcd : bc_details_t)
    (total_reads max_reads total_pf_reads max_pf_reads
     total_pf_reads_assigned nReads : Z) : metrics_line :=
  {| m_seq := seq bcd;
     m_name := name bcd;
     m_lib := lib bcd;
     m_sample := sample bcd;
     m_desc := desc bcd;
     m_reads := reads bcd;
     m_pf_reads := pf_reads bcd;
     m_perfect := perfect bcd;
     m_pf_perfect := pf_perfect bcd;
     m_one_mismatch := one_mismatch bcd;
     m_pf_one_mismatch := pf_one_mismatch bcd;
     m_pct_matches := ratio (reads bcd) total_reads;
     m_ratio_to_best := ratio (reads bcd) max_reads;
     m_pf_pct_matches := ratio (pf_reads bcd) total_pf_reads;
     m_pf_ratio_to_best := ratio (pf_reads bcd) max_pf_reads;
     m_pf_normalized_matches :=
       ratio (int_mul (pf_reads bcd) nReads) total_pf_reads_assigned |}.

(** The locals of [writeMetrics] that the first loop fills. *)
Record totals_t := {
  total_reads : Z;
  total_pf_reads : Z;
  total_pf_reads_assigned : Z;
  max_reads : Z;
  max_pf_reads : Z;
  nReads : Z
}.

Definition count_step (t : totals_t) (bcd : bc_details_t) : totals_t :=
  {| total_reads := int_add (total_reads t) (reads bcd);
     total_pf_reads := int_add (total_pf_reads t) (pf_reads bcd);
     total_pf_reads_assigned := int_add (total_pf_reads_assigned t) (pf_reads bcd);
     max_reads := if max_reads t <? reads bcd then reads bcd else max_reads t;
     max_pf_reads := if max_pf_reads t <? pf_reads bcd then pf_reads bcd
                     else max_pf_reads t;
     nReads := int_add (nReads t) 1 |}.

(** First loop: count things. *)
Definition count_things (e0 : bc_details_t) (es : list bc_details_t) : totals_t :=
  foldl count_step
    {| total_reads := reads e0; total_pf_reads := pf_reads e0;
       total_pf_reads_assigned := 0; max_reads := 0; max_pf_reads := 0;
       nReads := 0 |} es.

(** Tag 0 as a special case, before its line is written. *)
Definition blank_tag0 (e0 : bc_details_t) : bc_details_t :=
  {| seq := seq e0; name := []; lib := lib e0; sample := sample e0;
     desc := desc e0; reads := reads e0; pf_reads := pf_reads e0;
     perfect := 0; pf_perfect := 0;
     one_mismatch := one_mismatch e0; pf_one_mismatch := pf_one_mismatch e0 |}.

(** The first line of the parameter comment block. *)
Record metrics_params := {
  p_barcode_tag_name : cstring;
  p_max_mismatches : Z;
  p_min_mismatch_delta : Z;
  p_max_no_calls : Z
}.

Record metrics_file := {
  mf_params : metrics_params;
  mf_lines : list metrics_line
}.

(** [writeMetrics]: the return code, the file written (when it could be
    opened) and the table, whose entry 0 the function overwrites. An
    array without entry 0 is read out of bounds ([None]). *)
Definition writeMetrics (barcodeArray : bc_array_t) (opts : opts_t) (can_open : bool)
    : option (Z * option metrics_file * bc_array_t) :=
  match entries barcodeArray with
  | [] => None
  | e0 :: es =>
      if negb can_open then Some (1, None, barcodeArray)
      else
        let t := count_things e0 es in
        let line bcd total_pf_reads_assigned :=
          writeMetricsLine bcd (total_reads t) (max_reads t) (total_pf_reads t)
            (max_pf_reads t) total_pf_reads_assigned (nReads t) in
        let e0' := blank_tag0 e0 in
        Some (0,
              Some {| mf_params :=
                        {| p_barcode_tag_name := barcode_tag_name opts;
                           p_max_mismatches := max_mismatches opts;
                           p_min_mismatch_delta := min_mismatch_delta opts;
                           p_max_no_calls := max_no_calls opts |};
                      mf_lines :=
                        map (fun bcd => line bcd (total_pf_reads_assigned t)) es
                        ++ [line e0' 0] |},
              set_entries barcodeArray (e0' :: es))
  end.

(** ** The header of the record-stream library *)

(** Modelled from the spec: the header structure of the external
    record-stream library ([SAM_hdr] of cram/sam_header.h), of which the
    decoder uses the read-group lines and the program line it adds. A
    read-group line is its [ID] (the [name] of [sh->rg[n]]) and its tags,
    each the text [KK:value] (the [str] of a [SAM_hdr_tag]); the [ID] tag
    is among them. *)
Record rg_t := {
  rg_name : cstring;
  rg_tag : list cstring
}.

Record SAM_hdr := {
  rg : list rg_t;
  pg : list (list cstring)
}.

(** Modelled from the spec: [sam_hdr_add(sh, "RG", "ID", id, NULL)] adds a
    read-group line that has the [ID] tag only. *)
Definition sam_hdr_add_RG (sh : SAM_hdr) (id : cstring) : SAM_hdr :=
  {| rg := rg sh ++ [ {| rg_name := id; rg_tag := [cstr "ID:" ++ id] |} ];
     pg := pg sh |}.

Fixpoint find_last_RG (id : cstring) (l : list rg_t) (n : nat) (found : option nat)
    : option nat :=
  match l with
  | [] => found
  | r :: l' =>
      find_last_RG id l' (S n) (if bool_decide (rg_name r = id) then Some n else found)
  end.

(** Modelled from the spec: [sam_hdr_find(sh, "RG", "ID", id)] is the line
    the library's hash of read-group names holds for [id], the one added
    last under that name. *)
Definition sam_hdr_find_RG (sh : SAM_hdr) (id : cstring) : option nat :=
  find_last_RG id (rg sh) 0 None.

(** A tag is found by the two characters of its key. *)
Definition tag_has_key (k str : cstring) : bool :=
  bool_decide (take 2 str = take 2 k).

Fixpoint update_tag (k v : cstring) (tags : list cstring) : list cstring :=
  match tags with
  | [] => [take 2 k ++ ":"%char :: v]
  | str :: tags' =>
      if tag_has_key k str then (take 2 k ++ ":"%char :: v) :: tags'
      else str :: update_tag k v tags'
  end.

(** Modelled from the spec: [sam_hdr_update(sh, hdr, k, v, NULL)] replaces
    the value of the tag [k] of the line [hdr], or appends the tag when the
    line has none. *)
Definition sam_hdr_update (sh : SAM_hdr) (hdr : nat) (k v : cstring) : SAM_hdr :=
  {| rg := alter (fun r => {| rg_name := rg_name r;
                              rg_tag := update_tag k v (rg_tag r) |}) hdr (rg sh);
     pg := pg sh |}.

(** Modelled from the spec: [sam_hdr_del(sh, "RG", NULL, NULL)] deletes
    every read-group line. *)
Definition sam_hdr_del_RG (sh : SAM_hdr) : SAM_hdr :=
  {| rg := []; pg := pg sh |}.

(** Modelled from the spec: [sam_hdr_add_PG] appends a program line for
    the tool; [version] is what [bambi_version()] returns. *)
Definition sam_hdr_add_PG (sh : SAM_hdr) (version argv_list : cstring) : SAM_hdr :=
  {| rg := rg sh;
     pg := pg sh ++ [[cstr "ID:bambi"; cstr "PN:bambi";
                      cstr "VN:" ++ version; cstr "CL:" ++ argv_list]] |}.

(** ** Header rewriting (decode.c, lines 614-730) *)

(** The [while (1)] loop of [addNewRG] over the save pointer of
    [strtok_r]. Every round consumes at least one character, so the
    length of the entry bounds the number of rounds; [None] is a loop
    cut short by [fuel]. *)
Fixpoint addNewRG_loop (fuel : nat) (saveptr : cstring) (sh : SAM_hdr) (hdr : nat)
    (bcname : cstring) (lib sample desc : option cstring) : option SAM_hdr :=
  match fuel with
  | O => None
  | S fuel' =>
      match strtok_r saveptr [":"%char] with
      | (None, _) => Some sh
      | (Some t, saveptr) =>
          match strtok_r saveptr [TAB] with
          | (None, _) => Some sh
          | (Some v, saveptr) =>
              let v := if bool_decide (t = cstr "PU")
                       then v ++ "#"%char :: bcname else v in
              let v := if bool_decide (t = cstr "LB") then default v lib else v in
              let v := if bool_decide (t = cstr "DS") then default v desc else v in
              let v := if bool_decide (t = cstr "SM") then default v sample else v in
              addNewRG_loop fuel' saveptr (sam_hdr_update sh hdr t v) hdr
                bcname lib sample desc
          end
      end
  end.

(** [addNewRG]: add a new @RG line to the header. A NULL first token is
    passed to [strlen] ([None]). *)
Definition addNewRG (sh : SAM_hdr) (entry bcname : cstring)
    (lib sample desc : option cstring) : option SAM_hdr :=
  let '(p, saveptr) := strtok_r entry [TAB] in
  p ← p;
  let newtag := p ++ "#"%char :: bcname in
  let sh := sam_hdr_add_RG sh newtag in
  hdr ← sam_hdr_find_RG sh newtag;
  addNewRG_loop (S (length saveptr)) saveptr sh hdr bcname lib sample desc.

(** [strncmp(rgtag->str, "ID:", 3) == 0] *)
Definition is_ID_tag (str : cstring) : bool := bool_decide (take 3 str = cstr "ID:").

(** The string [<name>\t<tag>:<val>\t<tag>:<val>...] stored for a
    read group, the [ID] tag left out. *)
Definition rg_entry (r : rg_t) : cstring :=
  rg_name r ++
  concat (map (fun str => TAB :: str)
              (List.filter (fun str => negb (is_ID_tag str)) (rg_tag r))).

(** The inner loop over the barcodes, for one stored entry. *)
Fixpoint add_barcode_RGs (sh : SAM_hdr) (entry : cstring) (es : list bc_details_t)
    : option SAM_hdr :=
  match es with
  | [] => Some sh
  | bcd :: es' =>
      sh ← addNewRG sh entry (name bcd) (Some (lib bcd)) (Some (sample bcd))
              (Some (desc bcd));
      add_barcode_RGs sh entry es'
  end.

(** The outer loop that adds the new lines. *)
Fixpoint add_new_RGs (sh : SAM_hdr) (rgArray : list cstring) (es : list bc_details_t)
    : option SAM_hdr :=
  match rgArray with
  | [] => Some sh
  | entry :: rgArray' =>
      sh ← addNewRG sh entry (cstr "0") None None None;
      sh ← add_barcode_RGs sh entry es;
      add_new_RGs sh rgArray' es
  end.

(** [changeHeader]: [sh] is the parsed text of the header; the result is
    the structure the new text is rebuilt from. *)
Definition changeHeader (barcodeArray : bc_array_t) (sh : SAM_hdr)
    (version argv_list : cstring) : option SAM_hdr :=
  let sh := sam_hdr_add_PG sh version argv_list in
  let rgArray := map rg_entry (rg sh) in
  let sh := sam_hdr_del_RG sh in
  add_new_RGs sh rgArray (drop 1 (entries barcodeArray)).

(** ** Records and streams of the record-stream library *)

(** Modelled from the spec: a record of the external record-stream
    library ([bam1_t]): its name, its flag bits and its named string
    attributes. *)
Record bam1_t := {
  qname : cstring;
  flag : Z;
  aux : list (cstring * cstring)
}.

Definition BAM_FPAIRED : Z := 1.
Definition BAM_FQCFAIL : Z := 512.

(** Modelled from the spec: get a named string attribute
    ([bam_aux_get] followed by [bam_aux2Z]); [None] is the NULL of an
    absent attribute. *)
Definition bam_aux_get (b : bam1_t) (tag : cstring) : option cstring :=
  snd <$> List.find (fun kv => bool_decide (kv.1 = tag)) (aux b).

(** Modelled from the spec: set a named string attribute
    ([bam_aux_update_str]), replacing the value the record has. *)
Definition bam_aux_update_str (b : bam1_t) (tag v : cstring) : bam1_t :=
  {| qname := qname b; flag := flag b;
     aux := List.filter (fun kv => negb (bool_decide (kv.1 = tag))) (aux b)
            ++ [(tag, v)] |}.

(** Modelled from the spec: the output stream, the records written to it
    and whether a write succeeds. *)
Record out_file := {
  written : list bam1_t;
  writable : bool
}.

Definition sam_write1 (f : out_file) (b : bam1_t) : Z * out_file :=
  if writable f then (0, {| written := written f ++ [b]; writable := true |})
  else (-1, f).

(** ** Record processing (decode.c, lines 575-612 and 732-796) *)

(** [makeNewTag]: make a new tag by appending #<name> to the old tag. *)
Definition makeNewTag (rec : bam1_t) (tag name : cstring) : cstring :=
  let rg := default [] (bam_aux_get rec tag) in
  rg ++ "#"%char :: name.

(** [add_suffix]: change the read name by adding #<suffix>; a NULL
    suffix is passed to [strlen] ([None]). The name's length [l_qname]
    is that of [qname]. *)
Definition add_suffix (rec : bam1_t) (suffix : option cstring) : option bam1_t :=
  suffix ← suffix;
  Some {| qname := qname rec ++ "#"%char :: suffix; flag := flag rec; aux := aux rec |}.

(** What a call of [processRecord] works on. *)
Record state_t := {
  input_file : list bam1_t;
  output_file : out_file;
  barcodeArray : bc_array_t
}.

(** The block under [if (p)] for the first read: the tagged record, the
    name and the table. [findBarcodeName] returns the name of an entry,
    never NULL, so the replacement of a NULL name by ["0"] has no case. *)
Definition tag_record (opts : opts_t) (file_read : bam1_t) (sq : cstring)
    (arr : bc_array_t) : option (bam1_t * cstring * bc_array_t) :=
  let newseq :=
    if convert_low_quality opts then
      match bam_aux_get file_read (quality_tag_name opts) with
      | Some qual => checkBarcodeQuality sq (Some qual) (max_low_quality_to_convert opts)
      | None => Some sq
      end
    else Some sq in
  newseq ← (if tag_len arr mod 2 ^ 64 <? strlen sq
            then ns ← newseq; Some (Some (take (Z.to_nat (tag_len arr)) ns))
            else Some newseq);
  '(name, arr) ← findBarcodeName newseq arr opts
                   (Z.land (flag file_read) BAM_FQCFAIL =? 0);
  let newtag := makeNewTag file_read (cstr "RG") name in
  let file_read := bam_aux_update_str file_read (cstr "RG") newtag in
  file_read ← (if change_read_name opts then add_suffix file_read (Some name)
               else Some file_read);
  Some (file_read, name, arr).

(** The block for the mate, up to its write. *)
Definition tag_mate (opts : opts_t) (p : bool) (name : option cstring)
    (paired_read : bam1_t) : option bam1_t :=
  paired_read ← (if p then
                   name ← name;
                   Some (bam_aux_update_str paired_read (cstr "RG")
                           (makeNewTag paired_read (cstr "RG") name))
                 else Some paired_read);
  if change_read_name opts then add_suffix paired_read name else Some paired_read.

(** [processRecord]: process one BAM record. The result is the return
    value and the state left behind; [None] is undefined behaviour. When
    the read of the mate fails the source goes on with the blank record of
    [bam_init1], which the model leaves undefined. *)
Definition processRecord (opts : opts_t) (st : state_t) : option (Z * state_t) :=
  match input_file st with
  | [] => Some (1, st)
  | file_read :: input =>
      let p := bam_aux_get file_read (barcode_tag_name opts) in
      '(file_read, name, arr) ←
        match p with
        | Some sq =>
            '(file_read, name, arr) ← tag_record opts file_read sq (barcodeArray st);
            Some (file_read, Some name, arr)
        | None => Some (file_read, None, barcodeArray st)
        end;
      let '(r, output) := sam_write1 (output_file st) file_read in
      if r <? 0 then
        Some (-1, {| input_file := input; output_file := output; barcodeArray := arr |})
      else if negb (Z.land (flag file_read) BAM_FPAIRED =? 0) then
        match input with
        | [] => None
        | paired_read :: input =>
            paired_read ← tag_mate opts (bool_decide (is_Some p)) name paired_read;
            let '(r, output) := sam_write1 output paired_read in
            Some (if r <? 0 then -1 else 0,
                  {| input_file := input; output_file := output; barcodeArray := arr |})
        end
      else
        Some (0, {| input_file := input; output_file := output; barcodeArray := arr |})
  end.

(** One round of the loop [while (0 == processRecord(...))] of [decode]. *)
Definition step (opts : opts_t) (st st' : state_t) : Prop :=
  processRecord opts st = Some (0, st').

(** ** What the specification says about the table and the matcher *)

Definition b2z (b : bool) : Z := if b then 1 else 0.

(** The counters of an entry are below [INT_MAX], so that an increment
    does not leave the range of [int]. *)
Definition counters_below_max (bcd : bc_details_t) : Prop :=
  0 <= reads bcd < INT_MAX /\ 0 <= pf_reads bcd < INT_MAX
  /\ 0 <= perfect bcd < INT_MAX /\ 0 <= pf_perfect bcd < INT_MAX
  /\ 0 <= one_mismatch bcd < INT_MAX /\ 0 <= pf_one_mismatch bcd < INT_MAX.

(** A loaded table: entry 0 is there, the tag length fits an [int], and
    every other entry has a sequence of that length. *)
Definition table_ok (arr : bc_array_t) : Prop :=
  0 <= tag_len arr <= INT_MAX
  /\ entries arr <> []
  /\ Forall (fun e => strlen (seq e) = tag_len arr) (drop 1 (entries arr)).

(** The mismatch counts of the entries after entry 0, in table order. *)
Definition mismatch_counts (observed : cstring) (arr : bc_array_t) : list Z :=
  map (fun e => Z.of_nat (count_mismatches_spec (seq e) observed))
      (drop 1 (entries arr)).

(** The minimum of [l] and [d]. *)
Fixpoint list_min (d : Z) (l : list Z) : Z :=
  match l with
  | [] => d
  | x :: l' => Z.min x (list_min d l')
  end.

(** The first position of [l] that holds [x]. *)
Fixpoint first_index_of (x : Z) (l : list Z) : option nat :=
  match l with
  | [] => None
  | y :: l' => if y =? x then Some 0%nat else S <$> first_index_of x l'
  end.

(** [best]: the minimum mismatch count; [second_best]: the minimum among
    all other entries, the first entry that attains [best] left out. No
    count is above the tag length [L], which stands in where there is no
    entry to take the minimum of. *)
Definition best (L : Z) (cs : list Z) : Z := list_min L cs.

Definition second_best (L : Z) (cs : list Z) : Z :=
  match first_index_of (best L cs) cs with
  | Some i => list_min L (delete i cs)
  | None => L
  end.

(** Step 3 of the specification: accept the best entry iff ... *)
Definition accepted (opts : opts_t) (L : Z) (observed : cstring) (cs : list Z) : bool :=
  (Z.of_nat (count_no_calls_spec observed) <=? max_no_calls opts)
  && (best L cs <=? max_mismatches opts)
  && (min_mismatch_delta opts <=? second_best L cs - best L cs).

(** The entry the specification returns: the first entry with the
    minimum count (its table index is one more than its position among
    the entries after entry 0) when accepted, entry 0 otherwise. *)
Definition stated_match (opts : opts_t) (L : Z) (observed : cstring) (cs : list Z) : nat :=
  match first_index_of (best L cs) cs with
  | Some i => if accepted opts L observed cs then S i else 0%nat
  | None => 0%nat
  end.

Definition find_best_match_stated : Prop :=
  forall (observed : cstring) (arr : bc_array_t) (opts : opts_t),
    table_ok arr -> strlen observed = tag_len arr ->
    findBestMatch (Some observed) arr opts =
    Some (stated_match opts (tag_len arr) observed (mismatch_counts observed arr)).

(** The entry the code returns: as above, and only when the minimum
    count is below the tag length. *)
Definition code_match (opts : opts_t) (L : Z) (observed : cstring) (cs : list Z) : nat :=
  match first_index_of (best L cs) cs with
  | Some i =>
      if (best L cs <? L) && accepted opts L observed cs then S i else 0%nat
  | None => 0%nat
  end.

(** The locals of the scan after the counts [cs], for entries numbered
    from [n]. *)
Definition scan_summary (L : Z) (n : nat) (cs : list Z) : scan_t :=
  {| best_match := if best L cs <? L
                   then (fun i => (n + i)%nat) <$> first_index_of (best L cs) cs
                   else None;
     nmBest := best L cs;
     nm2Best := second_best L cs |}.

Fixpoint scan_counts (cs : list Z) (n : nat) (st : scan_t) : scan_t :=
  match cs with
  | [] => st
  | c :: cs' => scan_counts cs' (S n) (scan_step st n c)
  end.

(** A table of two barcodes, and a header with one read group. *)
Definition two_barcodes : bc_array_t :=
  {| tag_len := 4;
     entries := [ new_details (cstr "NNNN") (cstr "0") [] [] [];
                  new_details (cstr "AAAA") (cstr "1") (cstr "libA") (cstr "sampleA") (cstr "descA");
                  new_details (cstr "CCCC") (cstr "2") (cstr "libC") (cstr "sampleC") (cstr "descC") ] |}.

(** ** What the specification says about the metrics *)

Definition sum_of (f : bc_details_t -> Z) (l : list bc_details_t) : Z :=
  foldr (fun e acc => f e + acc) 0 l.

(** The maximum of a non-negative counter over a list, 0 for no entry. *)
Definition max_of (f : bc_details_t -> Z) (l : list bc_details_t) : Z :=
  foldr (fun e acc => Z.max (f e) acc) 0 l.

Definition reads_nonneg (e : bc_details_t) : Prop := 0 <= reads e /\ 0 <= pf_reads e.

(** A value that is 0 or a quotient by a non-zero denominator. *)
Definition no_zero_division (d : double) : Prop :=
  match d with
  | DZero => True
  | DQuot _ den => den <> 0
  end.

(** The derived values of a line, each 0 when its denominator is 0 and
    none a division by 0. *)
Definition ratios_guarded (t : totals_t) (assigned : Z) (l : metrics_line) : Prop :=
  (total_reads t = 0 -> m_pct_matches l = DZero)
  /\ (max_reads t = 0 -> m_ratio_to_best l = DZero)
  /\ (total_pf_reads t = 0 -> m_pf_pct_matches l = DZero)
  /\ (max_pf_reads t = 0 -> m_pf_ratio_to_best l = DZero)
  /\ (assigned = 0 -> m_pf_normalized_matches l = DZero)
  /\ no_zero_division (m_pct_matches l)
  /\ no_zero_division (m_ratio_to_best l)
  /\ no_zero_division (m_pf_pct_matches l)
  /\ no_zero_division (m_pf_ratio_to_best l)
  /\ no_zero_division (m_pf_normalized_matches l).

(** The table of two barcodes after five pass-filter reads that matched
    no barcode. *)
Definition five_unmatched : bc_array_t :=
  {| tag_len := 4;
     entries := [ set_counters (new_details (cstr "NNNN") (cstr "0") [] [] []) 5 5 5 5 0 0;
                  new_details (cstr "AAAA") (cstr "1") (cstr "libA") (cstr "sampleA") (cstr "descA");
                  new_details (cstr "CCCC") (cstr "2") (cstr "libC") (cstr "sampleC") (cstr "descC") ] |}.

(** ** What the specification says about loading *)

(** The number of tab-separated fields of a row. *)
Definition field_count (row : cstring) : nat :=
  S (length (List.filter (Ascii.eqb TAB) row)).

(** Loading as the specification words it: a data row with a wrong field
    count makes the load return an error. *)
Definition load_rejects_field_count : Prop :=
  forall (text header : cstring) (rows : list cstring),
    file_lines text = header :: rows ->
    Exists (fun row => field_count (chomp row) <> 5%nat) rows ->
    loadBarcodeFile (Some text) = LoadError.

(** Every row yields an entry. *)
Definition rows_parse (rows : list cstring) (bcds : list bc_details_t) : Prop :=
  Forall2 (fun row bcd => parse_row (chomp row) = Some bcd) rows bcds.

(** The table [loadBarcodeFile] builds from the parsed rows. *)
Definition loaded_table (bcds : list bc_details_t) : bc_array_t :=
  let L := match bcds with
           | [] => 0
           | b0 :: _ => strlen (seq b0)
           end in
  {| tag_len := L;
     entries := new_details (replicate (Z.to_nat L) "N"%char) (cstr "0") [] [] []
                :: bcds |}.

Definition same_length_as_first (bcds : list bc_details_t) : bool :=
  match bcds with
  | [] => true
  | b0 :: _ => forallb (fun bcd => strlen (seq bcd) =? strlen (seq b0)) bcds
  end.

(** A line of text: the fields joined by tabs, and the newline. *)
Definition tsv_line (fields : list string) : cstring :=
  match fields with
  | [] => [LF]
  | f :: fs => cstr f ++ concat (map (fun g => TAB :: cstr g) fs) ++ [LF]
  end.

(** The definition text of the two barcodes, and one with a row of six
    fields. *)
Definition two_barcodes_text : cstring :=
  (tsv_line ["seq"; "name"; "lib"; "sample"; "desc"]%string
   ++ tsv_line ["AAAA"; "1"; "libA"; "sampleA"; "descA"]%string
   ++ tsv_line ["CCCC"; "2"; "libC"; "sampleC"; "descC"]%string).

Definition six_fields_text : cstring :=
  (tsv_line ["seq"; "name"; "lib"; "sample"; "desc"]%string
   ++ tsv_line ["AAAA"; "1"; "libA"; "sampleA"; "descA"; "more"]%string).

(** ** What the specification says about tagging *)

(** The name with [#<name>] appended, when name-suffixing is configured. *)
Definition with_suffix (opts : opts_t) (rec : bam1_t) (nm : cstring) : bam1_t :=
  if change_read_name opts
  then {| qname := qname rec ++ "#"%char :: nm; flag := flag rec; aux := aux rec |}
  else rec.

(** The record with its read-group attribute overwritten by
    [<existing read-group value or empty>#<name>], and its name suffixed
    when configured. *)
Definition tagged (opts : opts_t) (rec : bam1_t) (nm : cstring) : bam1_t :=
  with_suffix opts
    (bam_aux_update_str rec (cstr "RG")
       (default [] (bam_aux_get rec (cstr "RG")) ++ "#"%char :: nm))
    nm.

Definition is_paired (rec : bam1_t) : Prop := Z.land (flag rec) BAM_FPAIRED <> 0.

Definition is_pass_filter (rec : bam1_t) : bool := Z.land (flag rec) BAM_FQCFAIL =? 0.

(** Entry 0 has a sequence of no-calls only, and counts every read as a
    perfect match. *)
Definition tag0_invariant (arr : bc_array_t) : Prop :=
  exists e0, entries arr !! 0%nat = Some e0
    /\ Forall (fun c => isNoCall c = true) (seq e0)
    /\ perfect e0 = reads e0
    /\ pf_perfect e0 = pf_reads e0.

(** A pair of reads, the first with the barcode [AAAC], and a pair
    without barcode attribute. *)
Definition read1 : bam1_t :=
  {| qname := cstr "r1"; flag := 77;
     aux := [(cstr "BC", cstr "AAAC"); (cstr "RG", cstr "lane1")] |}.

Definition read2 : bam1_t :=
  {| qname := cstr "r1"; flag := 141; aux := [(cstr "RG", cstr "lane1")] |}.

Definition plain1 : bam1_t :=
  {| qname := cstr "p1"; flag := 77; aux := [(cstr "RG", cstr "lane1")] |}.

Definition plain2 : bam1_t :=
  {| qname := cstr "p1"; flag := 141; aux := [(cstr "RG", cstr "lane1")] |}.

Definition start_state (input : list bam1_t) : state_t :=
  {| input_file := input;
     output_file := {| written := []; writable := true |};
     barcodeArray := two_barcodes |}.

Definition suffix_opts : opts_t :=
  {| barcode_tag_name := cstr "BC";
     quality_tag_name := cstr "QT";
     max_low_quality_to_convert := DEFAULT_MAX_LOW_QUALITY_TO_CONVERT;
     convert_low_quality := false;
     max_no_calls := DEFAULT_MAX_NO_CALLS;
     max_mismatches := DEFAULT_MAX_MISMATCHES;
     min_mismatch_delta := DEFAULT_MIN_MISMATCH_DELTA;
     change_read_name := true |}.

(** ** What the specification says about the header *)

(** The key and the value of a tag [KK:value]. *)
Definition tag_key (str : cstring) : cstring := take 2 str.
Definition tag_value (str : cstring) : cstring := drop 3 str.

(** A tag of a read-group line: a key of two characters, a colon and a
    non-empty value without tab. *)
Definition tag_ok (str : cstring) : Prop :=
  str = tag_key str ++ ":"%char :: tag_value str
  /\ length (tag_key str) = 2%nat
  /\ no_delim [":"%char] (tag_key str)
  /\ no_delim [TAB] (tag_key str)
  /\ tag_value str <> []
  /\ no_delim [TAB] (tag_value str).

(** A read-group line: a non-empty [ID] without tab, and tags with
    distinct keys. *)
Definition rg_ok (r : rg_t) : Prop :=
  rg_name r <> []
  /\ no_delim [TAB] (rg_name r)
  /\ Forall tag_ok (rg_tag r)
  /\ NoDup (map tag_key (rg_tag r)).

(** The field substitution rule for the barcode [bcname]; [lib],
    [sample] and [desc] are absent for the declaration of the unmatched
    reads. *)
Definition new_value (bcname : cstring) (lib sample desc : option cstring)
    (k v : cstring) : cstring :=
  if bool_decide (k = cstr "PU") then v ++ "#"%char :: bcname
  else if bool_decide (k = cstr "LB") then default v lib
  else if bool_decide (k = cstr "SM") then default v sample
  else if bool_decide (k = cstr "DS") then default v desc
  else v.

Definition new_tag (bcname : cstring) (lib sample desc : option cstring)
    (str : cstring) : cstring :=
  tag_key str ++ ":"%char :: new_value bcname lib sample desc (tag_key str) (tag_value str).

(** The declaration emitted for the original declaration [r] and the
    barcode [bcname]. *)
Definition new_rg (r : rg_t) (bcname : cstring) (lib sample desc : option cstring) : rg_t :=
  let id := rg_name r ++ "#"%char :: bcname in
  {| rg_name := id;
     rg_tag := (cstr "ID:" ++ id)
               :: map (new_tag bcname lib sample desc)
                      (List.filter (fun str => negb (is_ID_tag str)) (rg_tag r)) |}.

(** The [1 + N] declarations emitted for [r]. *)
Definition new_rgs (es : list bc_details_t) (r : rg_t) : list rg_t :=
  new_rg r (cstr "0") None None None
  :: map (fun e => new_rg r (name e) (Some (lib e)) (Some (sample e)) (Some (desc e))) es.

(** The tags of an entry string behind its name, joined by tabs. *)
Definition join_tags (strs : list cstring) : cstring :=
  match strs with
  | [] => []
  | str :: strs' => str ++ concat (map (fun s => TAB :: s) strs')
  end.

(** The value [addNewRG] passes to [sam_hdr_update] for a token pair. *)
Definition loop_value (bcname : cstring) (lib sample desc : option cstring)
    (t v : cstring) : cstring :=
  let v := if bool_decide (t = cstr "PU") then v ++ "#"%char :: bcname else v in
  let v := if bool_decide (t = cstr "LB") then default v lib else v in
  let v := if bool_decide (t = cstr "DS") then default v desc else v in
  if bool_decide (t = cstr "SM") then default v sample else v.

(** A header with one read group. *)
Definition one_read_group : SAM_hdr :=
  {| rg := [ {| rg_name := cstr "1";
                rg_tag := [cstr "ID:1"; cstr "PL:Illumina"; cstr "PU:run7_1";
                           cstr "LB:pool"; cstr "SM:mix"] |} ];
     pg := [] |}.

(** * Further definitions *)

(** ** The no-call set of the specification *)

(** The no-call symbols the specification names: [N], [n] and [.]. *)
Definition no_call_set : list ascii := ["N"%char; "n"%char; "."%char].

Definition in_no_call_set (c : ascii) : bool := bool_decide (c ∈ no_call_set).

(** A position counts when both characters lie outside the no-call set
    and differ. *)
Definition stated_mismatch_at (p : ascii * ascii) : bool :=
  negb (in_no_call_set p.1) && negb (in_no_call_set p.2) && negb (p.1 =? p.2)%char.

Definition stated_mismatches (a b : cstring) : nat :=
  length (List.filter stated_mismatch_at (List.combine a b)).

(** A string with no symbol of the no-call set. *)
Definition without_no_call (s : cstring) : Prop := Forall (fun c => c ∉ no_call_set) s.

(** ** The read-group declarations of the specification *)

(** The tags of a declaration other than its [ID]. *)
Definition other_tags (r : rg_t) : list cstring :=
  List.filter (fun str => negb (bool_decide (tag_key str = cstr "ID"))) (rg_tag r).

(** The declaration the specification has emitted for the original
    declaration [r] and the barcode [bcname]: the new [ID], and every
    other tag with its value by the substitution rule. *)
Definition stated_rg (r : rg_t) (bcname : cstring) (lib sample desc : option cstring)
    : rg_t :=
  let id := rg_name r ++ "#"%char :: bcname in
  {| rg_name := id;
     rg_tag := (cstr "ID:" ++ id) :: map (new_tag bcname lib sample desc) (other_tags r) |}.

(** The [1 + N] declarations for [r]: the one for the unmatched reads,
    then one per barcode. *)
Definition stated_rgs (es : list bc_details_t) (r : rg_t) : list rg_t :=
  stated_rg r (cstr "0") None None None
  :: map (fun e => stated_rg r (name e) (Some (lib e)) (Some (sample e)) (Some (desc e))) es.

(** The header [@RG ID:1 DS: PL:Illumina]: a description with an empty
    value, then the platform. *)
Definition empty_value_header : SAM_hdr :=
  {| rg := [ {| rg_name := cstr "1";
                rg_tag := [cstr "ID:1"; cstr "DS:"; cstr "PL:Illumina"] |} ];
     pg := [] |}.

(** A header with one read group that has every tag of the substitution
    rule and two more. *)
Definition full_read_group : SAM_hdr :=
  {| rg := [ {| rg_name := cstr "1";
                rg_tag := [cstr "PL:Illumina"; cstr "ID:1"; cstr "PU:run7_1";
                           cstr "LB:pool"; cstr "DS:all"; cstr "SM:mix";
                           cstr "CN:SC"] |} ];
     pg := [] |}.

(** ** Record processing on streams that can fail (decode.c, lines 732-796 and 877) *)

(** [processRecord] and the loop of [decode] over it, on an output
    stream of which any write can fail and an input stream that can end
    between a record and its mate. *)
Module Stream.

(** Modelled from the spec: the output stream, the records written to it
    and the results of the writes to come, [false] for a write that
    fails; behind the end of [results] every write succeeds. *)
Record out_file := {
  written : list bam1_t;
  results : list bool
}.

(** Modelled from the spec: [sam_write1] appends the record to the
    stream, or fails with a negative value and appends nothing. *)
Definition sam_write1 (f : out_file) (b : bam1_t) : Z * out_file :=
  match results f with
  | false :: rs => (-1, {| written := written f; results := rs |})
  | true :: rs => (0, {| written := written f ++ [b]; results := rs |})
  | [] => (0, {| written := written f ++ [b]; results := [] |})
  end.

(** Modelled from the spec: [bam_init1] gives a record with no name, no
    flag bit and no attribute. *)
Definition bam_init1 : bam1_t := {| qname := []; flag := 0; aux := [] |}.

(** Modelled from the spec: [sam_read1] fills [b] with the next record of
    the input; at the end of the input it returns a negative value and
    leaves [b] as it is. *)
Definition sam_read1 (input : list bam1_t) (b : bam1_t) : Z * bam1_t * list bam1_t :=
  match input with
  | [] => (-1, b, [])
  | rec :: input => (0, rec, input)
  end.

Record state_t := {
  input_file : list bam1_t;
  output_file : out_file;
  barcodeArray : bc_array_t
}.

(** [processRecord]: process one BAM record. The result is the return
    value and the state left behind. The source does not test the result
    of the read of the mate: at the end of the input the mate is the
    record of [bam_init1], tagged and written like a mate. [None] is
    undefined behaviour, and also the one call whose result a [bam1_t]
    cannot hold, [add_suffix] on the record of [bam_init1]: that record
    has no name, and [add_suffix] takes [strlen] of its data, which is
    NULL when no attribute was set and the bytes of the new read-group
    attribute when one was, so that the name lies over the attribute.
    The test of [r] together with [change_read_name] marks that call. *)
Definition processRecord (opts : opts_t) (st : state_t) : option (Z * state_t) :=
  let file_read := bam_init1 in
  let paired_read := bam_init1 in
  let '(r, file_read, input) := sam_read1 (input_file st) file_read in
  if r <? 0 then Some (1, st)
  else
    let p := bam_aux_get file_read (barcode_tag_name opts) in
    '(file_read, name, arr) ←
      match p with
      | Some sq =>
          '(file_read, name, arr) ← tag_record opts file_read sq (barcodeArray st);
          Some (file_read, Some name, arr)
      | None => Some (file_read, None, barcodeArray st)
      end;
    let '(r, output) := sam_write1 (output_file st) file_read in
    if r <? 0 then
      Some (-1, {| input_file := input; output_file := output; barcodeArray := arr |})
    else if negb (Z.land (flag file_read) BAM_FPAIRED =? 0) then
      let '(r, paired_read, input) := sam_read1 input paired_read in
      paired_read ← (if (r <? 0) && change_read_name opts then None
                     else tag_mate opts (bool_decide (is_Some p)) name paired_read);
      let '(r, output) := sam_write1 output paired_read in
      Some (if r <? 0 then -1 else 0,
            {| input_file := input; output_file := output; barcodeArray := arr |})
    else
      Some (0, {| input_file := input; output_file := output; barcodeArray := arr |}).

(** One round of the loop [while (0 == processRecord(...))] of [decode]. *)
Definition step (opts : opts_t) (st st' : state_t) : Prop :=
  processRecord opts st = Some (0, st').

(** The loop [while (0 == processRecord(...));]: the return value that
    ends it and the state it leaves. A round that returns 0 takes a
    record from the input, so the length of the input bounds the number
    of rounds; [OutOfFuel] is a loop cut short by [fuel], [RunUndefined]
    a loop with an undefined call. *)
Inductive run_result :=
| Finished (r : Z) (st : state_t)
| RunUndefined
| OutOfFuel.

Fixpoint process_records (fuel : nat) (opts : opts_t) (st : state_t) : run_result :=
  match fuel with
  | O => OutOfFuel
  | S fuel' =>
      match processRecord opts st with
      | None => RunUndefined
      | Some (r, st') =>
          if r =? 0 then process_records fuel' opts st' else Finished r st'
      end
  end.

(** The state before the first record, with the results of the writes to
    come. *)
Definition start_state (input : list bam1_t) (results : list bool) : state_t :=
  {| input_file := input;
     output_file := {| written := []; results := results |};
     barcodeArray := two_barcodes |}.

End Stream.

(** The state of a stream on which every write succeeds. *)
Definition on_stream (st : state_t) : Stream.state_t :=
  {| Stream.input_file := input_file st;
     Stream.output_file := {| Stream.written := written (output_file st);
                              Stream.results := [] |};
     Stream.barcodeArray := barcodeArray st |}.

(** The result of the write [k] writes from now: [true] when it
    succeeds. *)
Definition write_ok (f : Stream.out_file) (k : nat) : bool :=
  default true (Stream.results f !! k).

(** ** Further notions the properties are stated with *)

(** The counters of an entry as the updates leave them: none negative,
    each pass-filter counter at most its counter, and the perfect and
    one-mismatch matches together at most the reads. *)
Definition counters_consistent (e : bc_details_t) : Prop :=
  0 <= pf_reads e <= reads e
  /\ 0 <= pf_perfect e <= perfect e
  /\ 0 <= pf_one_mismatch e <= one_mismatch e
  /\ perfect e + one_mismatch e <= reads e
  /\ pf_perfect e + pf_one_mismatch e <= pf_reads e.

(** An entry as [loadBarcodeFile] creates it: all counters 0. *)
Definition counters_zero (e : bc_details_t) : Prop :=
  reads e = 0 /\ pf_reads e = 0 /\ perfect e = 0 /\ pf_perfect e = 0
  /\ one_mismatch e = 0 /\ pf_one_mismatch e = 0.

(** A field of a row: not empty and without tab. *)
Definition field_ok (f : cstring) : Prop := f <> [] /\ no_delim [TAB] f.

(** An output record is the input record with, at most, a new read-group
    attribute and a suffix on its name. *)
Definition passed_through (i o : bam1_t) : Prop :=
  flag o = flag i
  /\ (forall tag, tag <> cstr "RG" -> bam_aux_get o tag = bam_aux_get i tag)
  /\ (o = i
      \/ exists nm, bam_aux_get o (cstr "RG")
                    = Some (default [] (bam_aux_get i (cstr "RG")) ++ "#"%char :: nm)
                    /\ (qname o = qname i \/ qname o = qname i ++ "#"%char :: nm)).

(** What the loop over the records, started in [st], has done when it
    ends with [res]. It is never cut short. An undefined run has reached
    a state in which the call of [processRecord] is undefined. A run that
    ends has written the records [outs], every write before the last
    call succeeding. With the return value 1 the input is used up, and
    [outs] are the records of the input, each passed through, followed,
    when the last record has its paired flag set and no mate behind it,
    by the record of [bam_init1] passed through. With the return value -1
    the write behind [outs] has failed: [outs] are the records of the
    input before the one whose write failed, and that one is taken from
    the input as well. *)
Definition run_ends (opts : opts_t) (st : Stream.state_t) (res : Stream.run_result)
    : Prop :=
  match res with
  | Stream.OutOfFuel => False
  | Stream.RunUndefined =>
      exists st1, rtc (Stream.step opts) st st1 /\ Stream.processRecord opts st1 = None
  | Stream.Finished r st' =>
      exists outs,
        Stream.written (Stream.output_file st')
        = Stream.written (Stream.output_file st) ++ outs
        /\ (forall k, (k < length outs)%nat -> write_ok (Stream.output_file st) k = true)
        /\ ((r = 1 /\ Stream.input_file st' = []
             /\ Stream.results (Stream.output_file st')
                = drop (length outs) (Stream.results (Stream.output_file st))
             /\ exists extra,
                  (extra = []
                   \/ (extra = [Stream.bam_init1] /\ change_read_name opts = false
                       /\ exists rec, last (Stream.input_file st) = Some rec
                                      /\ is_paired rec))
                  /\ Forall2 passed_through (Stream.input_file st ++ extra) outs)
            \/ (r = -1 /\ write_ok (Stream.output_file st) (length outs) = false
                /\ Stream.input_file st'
                   = drop (S (length outs)) (Stream.input_file st)
                /\ Stream.results (Stream.output_file st')
                   = drop (S (length outs)) (Stream.results (Stream.output_file st))
                /\ (length outs <= length (Stream.input_file st))%nat
                /\ Forall2 passed_through
                     (take (length outs) (Stream.input_file st)) outs))
  end.

(** A single read of the read group [1] with the barcode [CCCC]. *)
Definition single_read : bam1_t :=
  {| qname := cstr "s1"; flag := 0;
     aux := [(cstr "BC", cstr "CCCC"); (cstr "RG", cstr "1")] |}.

(** A row with a leading tab and an empty field between two tabs. *)
Definition gappy_row : cstring :=
  TAB :: cstr "AAAA" ++ TAB :: TAB :: cstr "1" ++ TAB :: cstr "l"
  ++ TAB :: cstr "s" ++ TAB :: cstr "d".
(** * Properties *)

(** ** Facts about [int] *)

Lemma int_wrap_small x : in_int x -> int_wrap x = x.
Proof.
  unfold in_int, INT_MIN, INT_MAX, int_wrap. intros H.
  rewrite Z.mod_small; lia.
Qed.

Lemma int_wrap_range x : in_int (int_wrap x).
Proof.
  unfold in_int, INT_MIN, INT_MAX, int_wrap.
  pose proof (Z.mod_pos_bound (x + 2147483648) 4294967296). lia.
Qed.

Lemma int_add_small x y : in_int (x + y) -> int_add x y = x + y.
Proof. apply int_wrap_small. Qed.

Lemma int_sub_small x y : in_int (x - y) -> int_sub x y = x - y.
Proof. apply int_wrap_small. Qed.

(** ** Facts about the matcher's counts *)

Lemma spec_count_le a b : (count_mismatches_spec a b <= length a)%nat.
Proof.
  unfold count_mismatches_spec.
  etrans; [apply List.filter_length_le|].
  rewrite List.length_combine. lia.
Qed.

Lemma spec_count_cons x y a b :
  count_mismatches_spec (x :: a) (y :: b) =
  ((if mismatch_at (x, y) then 1 else 0) + count_mismatches_spec a b)%nat.
Proof.
  unfold count_mismatches_spec. simpl.
  destruct (mismatch_at (x, y)); reflexivity.
Qed.

Lemma countMismatches_loop_spec a : forall b n,
  length a = length b -> 0 <= n -> n + strlen a <= INT_MAX ->
  countMismatches_loop a (Some b) n = Some (n + Z.of_nat (count_mismatches_spec a b)).
Proof.
  unfold strlen. induction a as [|x a IH]; intros [|y b] n Hlen Hn Hmax;
    simpl in Hlen; try discriminate.
  - simpl. f_equal. unfold count_mismatches_spec. simpl. lia.
  - injection Hlen as Hlen. rewrite spec_count_cons.
    pose proof (spec_count_le a b) as Hle.
    simpl length in Hmax.
    cbn [countMismatches_loop advance deref]. unfold mismatch_at. cbn [fst snd].
    destruct (isNoCall x) eqn:Hx; cbn [negb andb].
    + rewrite IH by lia; f_equal; lia.
    + cbn [mbind option_bind]. destruct (isNoCall y) eqn:Hy; cbn [negb andb].
      * rewrite IH by lia; f_equal; lia.
      * destruct (x =? y)%char eqn:Hxy; cbn [negb].
        -- rewrite IH by lia; f_equal; lia.
        -- rewrite int_add_small by (unfold in_int, INT_MIN; lia).
           rewrite IH by lia; f_equal; lia.
Qed.

Lemma countMismatches_spec a b :
  length a = length b -> strlen a <= INT_MAX ->
  countMismatches a b = Some (Z.of_nat (count_mismatches_spec a b)).
Proof.
  intros Hlen Hmax. unfold countMismatches.
  rewrite countMismatches_loop_spec by (auto; lia). reflexivity.
Qed.

Lemma combine_app_eq {A B} (a1 a2 : list A) (b1 b2 : list B) :
  length a1 = length b1 ->
  List.combine (a1 ++ a2) (b1 ++ b2) = List.combine a1 b1 ++ List.combine a2 b2.
Proof.
  revert b1. induction a1 as [|x a1 IH]; intros [|y b1] Hlen; simpl in *;
    try discriminate; [reflexivity|].
  rewrite IH by congruence. reflexivity.
Qed.

Lemma in_combine_no_nocall a b p :
  no_nocall a -> no_nocall b -> In p (List.combine a b) ->
  isNoCall p.1 = false /\ isNoCall p.2 = false.
Proof.
  unfold no_nocall. rewrite !Forall_forall. intros Ha Hb Hin. destruct p as [x y].
  split; [apply Ha | apply Hb]; apply list_elem_of_In.
  - eapply List.in_combine_l; eauto.
  - eapply List.in_combine_r; eauto.
Qed.

Lemma spec_count_hamming a b :
  no_nocall a -> no_nocall b -> count_mismatches_spec a b = hamming a b.
Proof.
  intros Ha Hb. unfold count_mismatches_spec, hamming. f_equal.
  apply List.filter_ext_in. intros p Hin.
  destruct (in_combine_no_nocall a b p Ha Hb Hin) as [H1 H2].
  unfold mismatch_at, differ_at. rewrite H1, H2. reflexivity.
Qed.

Lemma spec_count_skip a1 x a2 b1 y b2 :
  length a1 = length b1 -> isNoCall x || isNoCall y = true ->
  count_mismatches_spec (a1 ++ x :: a2) (b1 ++ y :: b2) =
  count_mismatches_spec (a1 ++ a2) (b1 ++ b2).
Proof.
  intros Hlen Hnc. unfold count_mismatches_spec.
  rewrite !combine_app_eq by assumption. simpl.
  rewrite !List.filter_app. simpl.
  replace (mismatch_at (x, y)) with false; [reflexivity|].
  unfold mismatch_at. simpl.
  destruct (isNoCall x), (isNoCall y); simpl in *; congruence.
Qed.

(** The code's test [isNoCall] is membership in the no-call set
    {N, n, .} of the specification. *)
Lemma isNoCall_set c : isNoCall c = in_no_call_set c.
Proof.
  unfold isNoCall, in_no_call_set, no_call_set.
  destruct (Ascii.eqb_spec c "N") as [->|HN]; [reflexivity|].
  destruct (Ascii.eqb_spec c "n") as [->|Hn]; [reflexivity|].
  destruct (Ascii.eqb_spec c ".") as [->|Hd]; [reflexivity|].
  cbn [orb]. symmetry. apply bool_decide_eq_false_2.
  rewrite !elem_of_cons, elem_of_nil. intuition.
Qed.

Lemma isNoCall_in_set c : isNoCall c = true <-> c ∈ no_call_set.
Proof. rewrite isNoCall_set. unfold in_no_call_set. apply bool_decide_eq_true. Qed.

Lemma isNoCall_not_in_set c : isNoCall c = false <-> c ∉ no_call_set.
Proof. rewrite isNoCall_set. unfold in_no_call_set. apply bool_decide_eq_false. Qed.

Lemma stated_mismatches_spec a b :
  stated_mismatches a b = count_mismatches_spec a b.
Proof.
  unfold stated_mismatches, count_mismatches_spec. f_equal.
  apply List.filter_ext. intros [x y].
  unfold stated_mismatch_at, mismatch_at. rewrite !isNoCall_set. reflexivity.
Qed.

Lemma without_no_call_spec s : without_no_call s <-> no_nocall s.
Proof.
  unfold without_no_call, no_nocall. rewrite !Forall_forall.
  split; intros H c Hc; apply isNoCall_not_in_set, H, Hc.
Qed.

(** C2. For equal-length strings [countMismatches] counts exactly the
    positions where both characters lie outside the no-call set
    {N, n, .} and differ; consequently it is the Hamming distance whenever
    neither string contains a symbol of that set; and a position where
    either side is a no-call never contributes: leaving that position out
    of both strings gives the same count. *)
Theorem countMismatches_counts (a b : cstring) :
  length a = length b -> strlen a <= INT_MAX ->
  countMismatches a b = Some (Z.of_nat (stated_mismatches a b))
  /\ (without_no_call a -> without_no_call b ->
      countMismatches a b = Some (Z.of_nat (hamming a b)))
  /\ (forall a1 x a2 b1 y b2,
        a = a1 ++ x :: a2 -> b = b1 ++ y :: b2 -> length a1 = length b1 ->
        x ∈ no_call_set \/ y ∈ no_call_set ->
        countMismatches a b = countMismatches (a1 ++ a2) (b1 ++ b2)).
Proof.
  intros Hlen Hmax. split; [|split].
  - rewrite stated_mismatches_spec. apply countMismatches_spec; assumption.
  - intros Ha%without_no_call_spec Hb%without_no_call_spec.
    rewrite countMismatches_spec by assumption.
    rewrite spec_count_hamming by assumption. reflexivity.
  - intros a1 x a2 b1 y b2 -> -> Hl Hnc.
    assert (isNoCall x || isNoCall y = true) as Hnc'.
    { destruct Hnc as [H%isNoCall_in_set|H%isNoCall_in_set]; rewrite H;
        [reflexivity | apply orb_true_r]. }
    assert (length a2 = length b2) as Hl2.
    { rewrite !length_app in Hlen. simpl in Hlen. lia. }
    unfold strlen in Hmax. rewrite length_app in Hmax. simpl in Hmax.
    rewrite !countMismatches_spec;
      rewrite ?length_app; unfold strlen; rewrite ?length_app; simpl; try lia.
    rewrite spec_count_skip by assumption. reflexivity.
Qed.

Lemma countMismatches_counts_witness :
  length (cstr "NnC.GAT") = length (cstr "CCTTCAn")
  /\ strlen (cstr "NnC.GAT") <= INT_MAX
  /\ countMismatches (cstr "NnC.GAT") (cstr "CCTTCAn") = Some 2
  /\ countMismatches (cstr "ACGT") (cstr "AGGA") = Some (Z.of_nat (hamming (cstr "ACGT") (cstr "AGGA")))
  /\ countMismatches (cstr "ACGT") (cstr "AGGA") = Some 2
  /\ countMismatches (cstr "AC" ++ "T"%char :: cstr "G") (cstr "AG" ++ "."%char :: cstr "T")
     = countMismatches (cstr "AC" ++ cstr "G") (cstr "AG" ++ cstr "T").
Proof.
  assert (strlen (cstr "NnC.GAT") <= INT_MAX) as H by (vm_compute; discriminate).
  assert (strlen (cstr "ACGT") <= INT_MAX) as H' by (vm_compute; discriminate).
  split; [reflexivity | split; [exact H |]].
  split; [exact (proj1 (countMismatches_counts (cstr "NnC.GAT") (cstr "CCTTCAn") eq_refl H))|].
  assert (without_no_call (cstr "ACGT")) as Ha.
  { unfold without_no_call, no_call_set; simpl.
    repeat (apply Forall_cons_2;
      [rewrite !elem_of_cons, elem_of_nil; intuition discriminate|]).
    apply Forall_nil_2. }
  assert (without_no_call (cstr "AGGA")) as Hb.
  { unfold without_no_call, no_call_set; simpl.
    repeat (apply Forall_cons_2;
      [rewrite !elem_of_cons, elem_of_nil; intuition discriminate|]).
    apply Forall_nil_2. }
  split; [exact (proj1 (proj2 (countMismatches_counts (cstr "ACGT") (cstr "AGGA") eq_refl H'))
                   Ha Hb)|].
  split; [exact (proj1 (proj2 (countMismatches_counts (cstr "ACGT") (cstr "AGGA") eq_refl H'))
                   Ha Hb)|].
  refine (proj2 (proj2 (countMismatches_counts (cstr "ACTG") (cstr "AG.T") eq_refl H'))
            (cstr "AC") "T"%char (cstr "G") (cstr "AG") "."%char (cstr "T")
            eq_refl eq_refl eq_refl _).
  right. right. right. left.
Defined.

(** ** Quality conversion *)

Lemma checkBarcodeQuality_loop_length quality : forall barcode mlq,
  length (checkBarcodeQuality_loop barcode quality mlq) = length barcode.
Proof.
  induction quality as [|q quality IH]; intros [|b barcode] mlq; simpl; auto.
Qed.

Lemma checkBarcodeQuality_loop_lookup quality : forall barcode mlq i b q,
  barcode !! i = Some b -> quality !! i = Some q ->
  checkBarcodeQuality_loop barcode quality mlq !! i = Some (convert_at mlq b q).
Proof.
  induction quality as [|q0 quality IH]; intros [|b0 barcode] mlq i b q Hb Hq;
    try discriminate.
  destruct i as [|i]; simpl in *.
  - injection Hb as ->. injection Hq as ->. reflexivity.
  - apply IH; assumption.
Qed.

(** C3, as the code has it. The conversion works with the effective
    threshold: the configured one when it is not 0, and 15 when it is 0.
    For a barcode and a quality string of the same length the result has
    ['N'] at position [i] exactly when the Phred value of [quality[i]]
    is at most the effective threshold, and the original base otherwise;
    when the lengths differ the return value (NULL) signals the failure. *)
Theorem checkBarcodeQuality_effective (barcode quality : cstring) (threshold : Z) :
  if bool_decide (length barcode = length quality) then
    exists out,
      checkBarcodeQuality barcode (Some quality) threshold = Some out
      /\ length out = length barcode
      /\ forall i b q, barcode !! i = Some b -> quality !! i = Some q ->
           out !! i = Some (convert_at (effective_threshold threshold) b q)
  else checkBarcodeQuality barcode (Some quality) threshold = None.
Proof.
  unfold checkBarcodeQuality, strlen, effective_threshold.
  case_bool_decide as Hlen.
  - rewrite bool_decide_eq_false_2 by lia.
    eexists. split; [reflexivity|]. split.
    + apply checkBarcodeQuality_loop_length.
    + intros i b q Hb Hq. apply checkBarcodeQuality_loop_lookup; assumption.
  - rewrite bool_decide_eq_true_2 by lia. reflexivity.
Qed.

(** The conversion as worded fails for the threshold 0: a base of Phred
    quality 10 is converted although 10 is above 0. *)
Lemma checkBarcodeQuality_threshold_zero : ~ converts_at_threshold.
Proof.
  intros H.
  destruct (H (cstr "A") (cstr "+") 0 eq_refl) as (out & Hout & Hpos).
  vm_compute in Hout. injection Hout as <-.
  specialize (Hpos 0%nat "A"%char "+"%char eq_refl eq_refl).
  vm_compute in Hpos. discriminate.
Qed.

(** In [processRecord] the NULL of a length mismatch reaches [noCalls]
    (or the truncation) and is dereferenced there. *)
Lemma tag_record_length_mismatch opts file_read sq qual arr :
  convert_low_quality opts = true ->
  bam_aux_get file_read (quality_tag_name opts) = Some qual ->
  length sq <> length qual ->
  tag_record opts file_read sq arr = None.
Proof.
  intros Hc Hq Hlen. unfold tag_record. rewrite Hc, Hq.
  unfold checkBarcodeQuality, strlen.
  rewrite bool_decide_eq_true_2 by lia.
  destruct (tag_len arr mod 2 ^ 64 <? Z.of_nat (length sq)); reflexivity.
Qed.

(** ** Metrics update *)

Lemma int_incr x : 0 <= x < INT_MAX -> int_add x 1 = x + 1.
Proof. intros H. apply int_add_small. unfold in_int, INT_MIN. lia. Qed.

Lemma updateMetrics_fields bcd sq isPf bcd' :
  updateMetrics bcd sq isPf = Some bcd' ->
  seq bcd' = seq bcd /\ name bcd' = name bcd /\ lib bcd' = lib bcd
  /\ sample bcd' = sample bcd /\ desc bcd' = desc bcd.
Proof.
  unfold updateMetrics. intros H.
  destruct (match sq with Some s => _ | None => _ end) as [n|]; [|discriminate].
  simpl in H. injection H as <-. simpl. auto.
Qed.

Lemma updateMetrics_counters bcd observed isPf n :
  countMismatches (seq bcd) observed = Some n ->
  counters_below_max bcd ->
  exists bcd',
    updateMetrics bcd (Some observed) isPf = Some bcd'
    /\ reads bcd' = reads bcd + 1
    /\ pf_reads bcd' = pf_reads bcd + b2z isPf
    /\ perfect bcd' = perfect bcd + b2z (n =? 0)
    /\ pf_perfect bcd' = pf_perfect bcd + b2z ((n =? 0) && isPf)
    /\ one_mismatch bcd' = one_mismatch bcd + b2z (n =? 1)
    /\ pf_one_mismatch bcd' = pf_one_mismatch bcd + b2z ((n =? 1) && isPf).
Proof.
  intros Hn (Hr & Hpr & Hp & Hpp & Ho & Hpo).
  unfold updateMetrics. rewrite Hn. simpl. eexists. split; [reflexivity|].
  simpl. rewrite !int_incr by assumption.
  destruct isPf, (n =? 0), (n =? 1); simpl; repeat split; lia.
Qed.

(** C4. [updateMetrics] on the entry [i] of the table, with an observed
    sequence whose mismatch count against the entry is [n]: [reads] grows
    by exactly 1 and [pf_reads] by 1 iff the read is pass-filter;
    [perfect] (and [pf_perfect] iff pass-filter) grows by 1 exactly when
    [n] is 0, [one_mismatch] (and its pf variant iff pass-filter) exactly
    when [n] is 1; the strings of the entry stay, and no other entry of
    the table changes. *)
Theorem updateMetrics_increments (arr : bc_array_t) (i : nat) (bcd : bc_details_t)
    (observed : cstring) (isPf : bool) (n : Z) :
  entries arr !! i = Some bcd ->
  countMismatches (seq bcd) observed = Some n ->
  counters_below_max bcd ->
  exists arr' bcd',
    updateMetrics_at arr i (Some observed) isPf = Some arr'
    /\ entries arr' !! i = Some bcd'
    /\ reads bcd' = reads bcd + 1
    /\ pf_reads bcd' = pf_reads bcd + b2z isPf
    /\ perfect bcd' = perfect bcd + b2z (n =? 0)
    /\ pf_perfect bcd' = pf_perfect bcd + b2z ((n =? 0) && isPf)
    /\ one_mismatch bcd' = one_mismatch bcd + b2z (n =? 1)
    /\ pf_one_mismatch bcd' = pf_one_mismatch bcd + b2z ((n =? 1) && isPf)
    /\ (seq bcd' = seq bcd /\ name bcd' = name bcd /\ lib bcd' = lib bcd
        /\ sample bcd' = sample bcd /\ desc bcd' = desc bcd)
    /\ (forall j, j <> i -> entries arr' !! j = entries arr !! j)
    /\ length (entries arr') = length (entries arr)
    /\ tag_len arr' = tag_len arr.
Proof.
  intros Hi Hn Hc.
  destruct (updateMetrics_counters bcd observed isPf n Hn Hc) as (bcd' & Hu & Hcs).
  unfold updateMetrics_at. rewrite Hi. simpl. rewrite Hu. simpl.
  exists (set_entries arr (<[i:=bcd']> (entries arr))), bcd'.
  split; [reflexivity|]. simpl.
  split; [apply list_lookup_insert_eq; eapply lookup_lt_Some; eauto|].
  destruct Hcs as (? & ? & ? & ? & ? & ?).
  repeat (split; [assumption|]).
  split; [eapply updateMetrics_fields; eauto|].
  split; [intros j Hj; apply list_lookup_insert_ne; congruence|].
  split; [apply length_insert | reflexivity].
Qed.

Lemma updateMetrics_increments_witness :
  entries two_barcodes !! 1%nat = Some (new_details (cstr "AAAA") (cstr "1") (cstr "libA") (cstr "sampleA") (cstr "descA"))
  /\ exists arr' bcd',
       updateMetrics_at two_barcodes 1 (Some (cstr "AAAC")) true = Some arr'
       /\ entries arr' !! 1%nat = Some bcd'
       /\ reads bcd' = 1 /\ pf_reads bcd' = 1 /\ perfect bcd' = 0
       /\ one_mismatch bcd' = 1 /\ pf_one_mismatch bcd' = 1.
Proof.
  split; [reflexivity|].
  destruct (updateMetrics_increments two_barcodes 1
              (new_details (cstr "AAAA") (cstr "1") (cstr "libA") (cstr "sampleA") (cstr "descA"))
              (cstr "AAAC") true 1 eq_refl eq_refl)
    as (arr' & bcd' & H1 & H2 & H3 & H4 & H5 & _ & H7 & H8 & _).
  { unfold counters_below_max, INT_MAX. simpl. lia. }
  exists arr', bcd'. simpl in *. repeat split; assumption.
Defined.

(** ** Best match *)

Lemma list_min_le_default d l : list_min d l <= d.
Proof. induction l as [|x l IH]; simpl; lia. Qed.

Lemma list_min_snoc d l c : list_min d (l ++ [c]) = Z.min (list_min d l) c.
Proof. induction l as [|x l IH]; simpl; lia. Qed.

Lemma list_min_delete d l : forall i, list_min d l <= list_min d (delete i l).
Proof.
  induction l as [|x l IH]; intros [|i]; simpl; try lia.
  specialize (IH i). lia.
Qed.

Lemma first_index_of_snoc x l c :
  first_index_of x (l ++ [c]) =
  match first_index_of x l with
  | Some i => Some i
  | None => if c =? x then Some (length l) else None
  end.
Proof.
  induction l as [|y l IH]; simpl.
  - destruct (c =? x); reflexivity.
  - destruct (y =? x); [reflexivity|]. rewrite IH.
    destruct (first_index_of x l); simpl; [reflexivity|].
    destruct (c =? x); reflexivity.
Qed.

Lemma first_index_of_lt x l : forall i,
  first_index_of x l = Some i -> (i < length l)%nat.
Proof.
  induction l as [|y l IH]; intros i; simpl; [discriminate|].
  destruct (y =? x).
  - intros [= <-]. lia.
  - destruct (first_index_of x l) as [j|]; simpl; [|discriminate].
    intros [= <-]. specialize (IH j eq_refl). lia.
Qed.

Lemma first_index_of_lookup x l : forall i,
  first_index_of x l = Some i <->
  l !! i = Some x /\ forall j, (j < i)%nat -> l !! j <> Some x.
Proof.
  induction l as [|y l IH]; intros i; simpl.
  - split; [discriminate | intros [H _]; destruct i; discriminate].
  - destruct (Z.eqb_spec y x) as [->|Hne].
    + split.
      * intros [= <-]. split; [reflexivity | intros j Hj; lia].
      * intros [Hi Hj]. destruct i as [|i]; [reflexivity|].
        exfalso. apply (Hj 0%nat); [lia | reflexivity].
    + split.
      * destruct (first_index_of x l) as [k|] eqn:Hk; simpl; [|discriminate].
        intros [= <-]. destruct (proj1 (IH k) eq_refl) as [H1 H2].
        split; [exact H1|]. intros [|j] Hj; simpl; [congruence|].
        apply H2. lia.
      * intros [Hi Hj]. destruct i as [|i]; simpl in Hi; [congruence|].
        rewrite (proj2 (IH i)); [reflexivity|].
        split; [exact Hi|]. intros j Hlt. apply (Hj (S j)). lia.
Qed.

Lemma first_index_of_below x d l : x < list_min d l -> first_index_of x l = None.
Proof.
  induction l as [|y l IH]; simpl; [reflexivity|]. intros H.
  destruct (Z.eqb_spec y x); [lia|]. rewrite IH by lia. reflexivity.
Qed.

Lemma first_index_of_min_None d l :
  first_index_of (list_min d l) l = None -> list_min d l = d.
Proof.
  induction l as [|y l IH]; simpl; [reflexivity|].
  destruct (Z.eqb_spec y (Z.min y (list_min d l))) as [_|Hne]; [discriminate|].
  replace (Z.min y (list_min d l)) with (list_min d l) in * by lia.
  destruct (first_index_of (list_min d l) l); simpl; [discriminate|].
  intros _. apply IH. reflexivity.
Qed.

Lemma delete_snoc_lt {A} (l : list A) c : forall i,
  (i < length l)%nat -> delete i (l ++ [c]) = delete i l ++ [c].
Proof.
  induction l as [|y l IH]; intros [|i] Hi; simpl in *; try lia; [reflexivity|].
  f_equal. apply IH. lia.
Qed.

Lemma delete_snoc_last {A} (l : list A) c : delete (length l) (l ++ [c]) = l.
Proof. induction l as [|y l IH]; simpl; [reflexivity | f_equal; exact IH]. Qed.

Lemma second_best_default L cs : best L cs = L -> second_best L cs = L.
Proof.
  unfold second_best, best. intros Hb.
  destruct (first_index_of (list_min L cs) cs) as [i|]; [|reflexivity].
  pose proof (list_min_delete L cs i). pose proof (list_min_le_default L (delete i cs)).
  lia.
Qed.

Lemma second_best_ge L cs : best L cs <= second_best L cs <= L.
Proof.
  unfold second_best, best.
  destruct (first_index_of (list_min L cs) cs) as [i|].
  - split; [apply list_min_delete | apply list_min_le_default].
  - split; [apply list_min_le_default | lia].
Qed.

(** One round of the scan takes the summary of the counts seen so far to
    the summary with the new count. *)
Lemma scan_summary_snoc L n cs c :
  scan_step (scan_summary L n cs) (n + length cs) c = scan_summary L n (cs ++ [c]).
Proof.
  unfold scan_step, scan_summary, second_best, best. cbn [nmBest nm2Best best_match].
  rewrite list_min_snoc, first_index_of_snoc.
  pose proof (list_min_le_default L cs) as HmL.
  pose proof (first_index_of_min_None L cs) as Hnone.
  pose proof (second_best_default L cs) as Hsd. unfold second_best, best in Hsd.
  set (m := list_min L cs) in *.
  destruct (Z.ltb_spec c m) as [Hlt|Hge].
  - rewrite Z.min_r by lia.
    rewrite (first_index_of_below c L cs) by (fold m; lia).
    rewrite Z.eqb_refl, delete_snoc_last. fold m.
    destruct (Z.ltb_spec c L); [|lia]. simpl. f_equal.
    destruct (Z.ltb_spec m L) as [HmltL|HmgeL].
    + destruct (first_index_of m cs); [reflexivity|].
      specialize (Hnone eq_refl). lia.
    + rewrite Hsd by lia. lia.
  - rewrite Z.min_l by lia.
    destruct (first_index_of m cs) as [i|] eqn:Hi.
    + rewrite delete_snoc_lt by (eapply first_index_of_lt; eauto).
      rewrite list_min_snoc. f_equal.
      destruct (Z.ltb_spec c (list_min L (delete i cs))); lia.
    + specialize (Hnone eq_refl). specialize (Hsd Hnone).
      destruct (Z.ltb_spec m L); [lia|].
      destruct (Z.eqb_spec c m).
      * rewrite delete_snoc_last. fold m. f_equal.
        destruct (Z.ltb_spec c L); lia.
      * f_equal. destruct (Z.ltb_spec c L); lia.
Qed.

Lemma scan_counts_snoc cs : forall c n st,
  scan_counts (cs ++ [c]) n st = scan_step (scan_counts cs n st) (n + length cs) c.
Proof.
  induction cs as [|x cs IH]; intros c n st; simpl.
  - rewrite Nat.add_0_r. reflexivity.
  - rewrite IH. f_equal. lia.
Qed.

Lemma scan_counts_summary L n cs :
  scan_counts cs n {| best_match := None; nmBest := L; nm2Best := L |}
  = scan_summary L n cs.
Proof.
  induction cs as [|c cs IH] using rev_ind.
  - unfold scan_summary, second_best, best. simpl. rewrite Z.ltb_irrefl. reflexivity.
  - rewrite scan_counts_snoc, IH. apply scan_summary_snoc.
Qed.

Lemma findBestMatch_loop_counts observed es : forall n st,
  Forall (fun e => strlen (seq e) = strlen observed) es ->
  strlen observed <= INT_MAX ->
  findBestMatch_loop observed es n st =
  Some (scan_counts (map (fun e => Z.of_nat (count_mismatches_spec (seq e) observed)) es) n st).
Proof.
  induction es as [|e es IH]; intros n st Hall Hmax; simpl; [reflexivity|].
  inversion Hall as [|? ? He Hes]; subst.
  rewrite countMismatches_spec by (unfold strlen in *; lia). simpl.
  apply IH; assumption.
Qed.

Lemma noCalls_loop_spec s : forall n,
  0 <= n -> n + strlen s <= INT_MAX ->
  noCalls_loop s n = n + Z.of_nat (count_no_calls_spec s).
Proof.
  unfold strlen, count_no_calls_spec.
  induction s as [|c s IH]; intros n Hn Hmax; simpl in *; [lia|].
  pose proof (List.filter_length_le isNoCall s).
  destruct (isNoCall c); simpl.
  - rewrite int_add_small by (unfold in_int, INT_MIN; lia). rewrite IH; lia.
  - rewrite IH; lia.
Qed.

Lemma noCalls_spec s :
  strlen s <= INT_MAX -> noCalls s = Z.of_nat (count_no_calls_spec s).
Proof. intros H. unfold noCalls. rewrite noCalls_loop_spec; lia. Qed.

Lemma list_min_nonneg d l : 0 <= d -> Forall (fun x => 0 <= x) l -> 0 <= list_min d l.
Proof. intros Hd Hl. induction Hl; simpl; lia. Qed.

Lemma mismatch_counts_nonneg observed arr :
  Forall (fun x => 0 <= x) (mismatch_counts observed arr).
Proof. unfold mismatch_counts. apply Forall_map, Forall_true. intros e. simpl. lia. Qed.

(** C1, as the code has it. For a loaded table and an observed string of
    the tag length, [findBestMatch] returns the first entry that attains
    the minimum mismatch count if and only if that minimum is below the
    tag length, the number of no-calls in the observed string is at most
    [max_no_calls], the minimum is at most [max_mismatches], and
    [second_best - best] is at least [min_mismatch_delta]; in every other
    case, a table without barcodes included, it returns entry 0. *)
Theorem findBestMatch_code_match (observed : cstring) (arr : bc_array_t) (opts : opts_t) :
  table_ok arr -> strlen observed = tag_len arr ->
  findBestMatch (Some observed) arr opts =
  Some (code_match opts (tag_len arr) observed (mismatch_counts observed arr)).
Proof.
  intros (HL & _ & Hall) Hlen.
  unfold findBestMatch. cbn [mbind option_bind].
  rewrite findBestMatch_loop_counts;
    [| eapply Forall_impl; [exact Hall | simpl; intros; congruence] | lia].
  cbn [mbind option_bind]. rewrite scan_counts_summary.
  fold (mismatch_counts observed arr).
  set (cs := mismatch_counts observed arr). set (L := tag_len arr) in *.
  unfold matched, scan_summary, code_match, accepted.
  cbn [best_match nmBest nm2Best].
  rewrite noCalls_spec by lia.
  pose proof (second_best_ge L cs) as Hsb.
  assert (0 <= best L cs) as Hb0.
  { apply list_min_nonneg; [lia | apply mismatch_counts_nonneg]. }
  rewrite int_sub_small by (unfold in_int, INT_MIN; lia).
  destruct (best L cs <? L); cbn [andb].
  - destruct (first_index_of (best L cs) cs) as [i|]; cbn [fmap option_fmap option_map].
    + rewrite bool_decide_eq_true_2 by eauto. cbn [andb].
      destruct (_ && _ && _); reflexivity.
    + rewrite bool_decide_eq_false_2 by (intros [? ?]; discriminate). reflexivity.
  - rewrite bool_decide_eq_false_2 by (intros [? ?]; discriminate). cbn [andb].
    destruct (first_index_of (best L cs) cs); reflexivity.
Qed.

Lemma two_barcodes_ok : table_ok two_barcodes.
Proof.
  unfold table_ok, INT_MAX. simpl. split; [lia|]. split; [discriminate|].
  repeat constructor.
Qed.

Lemma findBestMatch_code_match_witness :
  table_ok two_barcodes
  /\ strlen (cstr "AAAC") = tag_len two_barcodes
  /\ findBestMatch (Some (cstr "AAAC")) two_barcodes default_opts = Some 1%nat.
Proof.
  split; [exact two_barcodes_ok|]. split; [reflexivity|].
  exact (findBestMatch_code_match (cstr "AAAC") two_barcodes default_opts
           two_barcodes_ok eq_refl).
Defined.

(** With [max_mismatches] at the tag length and [min_mismatch_delta] at 0
    the specification accepts the first of two barcodes that both differ
    from the observed string at all four positions; the code returns
    entry 0. *)
Lemma findBestMatch_all_positions_differ : ~ find_best_match_stated.
Proof.
  intros H.
  specialize (H (cstr "GGGG") two_barcodes
                {| barcode_tag_name := cstr "BC"; quality_tag_name := cstr "QT";
                   max_low_quality_to_convert := 15; convert_low_quality := false;
                   max_no_calls := 2; max_mismatches := 4; min_mismatch_delta := 0;
                   change_read_name := false |}
                two_barcodes_ok eq_refl).
  vm_compute in H. discriminate.
Qed.

(** ** Metrics report *)

Lemma ratio_zero num : ratio num 0 = DZero.
Proof. reflexivity. Qed.

Lemma ratio_guarded num den :
  (den = 0 -> ratio num den = DZero) /\ no_zero_division (ratio num den).
Proof.
  unfold ratio. destruct (Z.eqb_spec den 0) as [->|Hne]; simpl; auto.
  split; [intros; contradiction | assumption].
Qed.

Lemma writeMetricsLine_guarded bcd t assigned :
  ratios_guarded t assigned
    (writeMetricsLine bcd (total_reads t) (max_reads t) (total_pf_reads t)
       (max_pf_reads t) assigned (nReads t)).
Proof.
  unfold ratios_guarded, writeMetricsLine. simpl.
  repeat split; apply ratio_guarded.
Qed.

Lemma sum_of_nonneg f l : Forall (fun e => 0 <= f e) l -> 0 <= sum_of f l.
Proof. intros H. induction H; simpl; lia. Qed.

Lemma max_of_nonneg f l : 0 <= max_of f l.
Proof. induction l; simpl; lia. Qed.

(** [max_of] is the maximum: an upper bound of the counter over the list,
    and the counter of one of its entries, or 0 over no entry. *)
Lemma max_of_maximum f l :
  Forall (fun e => 0 <= f e) l ->
  Forall (fun e => f e <= max_of f l) l
  /\ (l = [] /\ max_of f l = 0 \/ exists e, e ∈ l /\ max_of f l = f e).
Proof.
  intros H. induction H as [|e l He Hl [IH1 IH2]]; simpl.
  - split; [constructor | left; auto].
  - split.
    + constructor; [lia|]. eapply Forall_impl; [exact IH1|]. simpl. intros; lia.
    + right. destruct (Z.max_spec (f e) (max_of f l)) as [[Hlt ->]|[Hge ->]].
      * destruct IH2 as [[-> Hz]|(e' & He' & Hm)].
        -- simpl in Hlt. lia.
        -- exists e'. split; [right; exact He' | exact Hm].
      * exists e. split; [left | reflexivity].
Qed.

Lemma count_things_loop es : forall t,
  Forall reads_nonneg es ->
  0 <= total_reads t -> total_reads t + sum_of reads es <= INT_MAX ->
  0 <= total_pf_reads t -> total_pf_reads t + sum_of pf_reads es <= INT_MAX ->
  0 <= total_pf_reads_assigned t ->
  total_pf_reads_assigned t + sum_of pf_reads es <= INT_MAX ->
  0 <= nReads t -> nReads t + Z.of_nat (length es) <= INT_MAX ->
  0 <= max_reads t -> 0 <= max_pf_reads t ->
  let t' := foldl count_step t es in
  total_reads t' = total_reads t + sum_of reads es
  /\ total_pf_reads t' = total_pf_reads t + sum_of pf_reads es
  /\ total_pf_reads_assigned t' = total_pf_reads_assigned t + sum_of pf_reads es
  /\ max_reads t' = Z.max (max_reads t) (max_of reads es)
  /\ max_pf_reads t' = Z.max (max_pf_reads t) (max_of pf_reads es)
  /\ nReads t' = nReads t + Z.of_nat (length es).
Proof.
  induction es as [|e es IH]; intros t Hall Hr0 Hr Hp0 Hp Ha0 Ha Hn0 Hn Hm Hpm; simpl.
  - repeat split; lia.
  - inversion Hall as [|? ? [He1 He2] Hes]; subst. simpl in *.
    pose proof (sum_of_nonneg reads es) as S1.
    pose proof (sum_of_nonneg pf_reads es) as S2.
    assert (0 <= sum_of reads es) by (apply S1; eapply Forall_impl; [exact Hes|]; intros ? [? ?]; assumption).
    assert (0 <= sum_of pf_reads es) by (apply S2; eapply Forall_impl; [exact Hes|]; intros ? [? ?]; assumption).
    assert (forall x y, 0 <= x -> 0 <= y -> x + y <= INT_MAX -> int_add x y = x + y) as Hadd.
    { intros x y ? ? ?. apply int_add_small. unfold in_int, INT_MIN. lia. }
    specialize (IH (count_step t e) Hes). simpl in IH.
    rewrite !Hadd in IH by lia.
    destruct IH as (I1 & I2 & I3 & I4 & I5 & I6);
      try (destruct (max_reads t <? reads e); lia);
      try (destruct (max_pf_reads t <? pf_reads e); lia).
    rewrite I1, I2, I3, I4, I5, I6.
    destruct (Z.ltb_spec (max_reads t) (reads e)), (Z.ltb_spec (max_pf_reads t) (pf_reads e));
      repeat split; lia.
Qed.

(** C6. The report sums [reads] and [pf_reads] over all entries, entry 0
    included, for [total_reads] and [total_pf_reads]; [max_reads],
    [max_pf_reads] and [total_pf_reads_assigned] are taken over the
    entries after entry 0 only; every derived value of every line is 0
    when its denominator is 0 and none divides by 0; the last line, that
    of entry 0, has [pf_normalized_matches] computed with the denominator
    0, hence 0. *)
Theorem writeMetrics_report (arr : bc_array_t) (opts : opts_t)
    (e0 : bc_details_t) (es : list bc_details_t) :
  entries arr = e0 :: es ->
  Forall reads_nonneg (e0 :: es) ->
  sum_of reads (e0 :: es) <= INT_MAX ->
  sum_of pf_reads (e0 :: es) <= INT_MAX ->
  Z.of_nat (length es) <= INT_MAX ->
  let t := count_things e0 es in
  total_reads t = sum_of reads (e0 :: es)
  /\ total_pf_reads t = sum_of pf_reads (e0 :: es)
  /\ total_pf_reads_assigned t = sum_of pf_reads es
  /\ max_reads t = max_of reads es
  /\ max_pf_reads t = max_of pf_reads es
  /\ exists mf last arr',
       writeMetrics arr opts true = Some (0, Some mf, arr')
       /\ mf_lines mf =
            map (fun bcd => writeMetricsLine bcd (total_reads t) (max_reads t)
                              (total_pf_reads t) (max_pf_reads t)
                              (total_pf_reads_assigned t) (nReads t)) es
            ++ [last]
       /\ Forall (ratios_guarded t (total_pf_reads_assigned t)) (removelast (mf_lines mf))
       /\ ratios_guarded t 0 last
       /\ m_pf_normalized_matches last = DZero
       /\ m_reads last = reads e0 /\ m_pf_reads last = pf_reads e0.
Proof.
  intros Hent Hall Hr Hp Hn t.
  inversion Hall as [|? ? [H01 H02] Hes]; subst.
  simpl in Hr, Hp.
  assert (0 <= sum_of reads es) as S1.
  { apply sum_of_nonneg. eapply Forall_impl; [exact Hes|]. intros ? [? ?]; assumption. }
  assert (0 <= sum_of pf_reads es) as S2.
  { apply sum_of_nonneg. eapply Forall_impl; [exact Hes|]. intros ? [? ?]; assumption. }
  pose proof (max_of_nonneg reads es) as M1.
  pose proof (max_of_nonneg pf_reads es) as M2.
  destruct (count_things_loop es
              {| total_reads := reads e0; total_pf_reads := pf_reads e0;
                 total_pf_reads_assigned := 0; max_reads := 0; max_pf_reads := 0;
                 nReads := 0 |} Hes) as (T1 & T2 & T3 & T4 & T5 & T6);
    simpl; try lia.
  fold (count_things e0 es) in T1, T2, T3, T4, T5, T6. fold t in T1, T2, T3, T4, T5, T6.
  simpl in T1, T2, T3, T4, T5, T6.
  repeat (split; [simpl; lia|]).
  unfold writeMetrics. rewrite Hent. cbn [negb].
  eexists _, _, _. split; [reflexivity|]. cbn [mf_lines]. fold t.
  split; [reflexivity|].
  split.
  { rewrite removelast_last. apply Forall_map, Forall_true. intros bcd.
    apply writeMetricsLine_guarded. }
  split; [apply writeMetricsLine_guarded|].
  split; reflexivity || (split; reflexivity).
Qed.

Lemma writeMetrics_report_witness :
  Forall reads_nonneg (entries five_unmatched)
  /\ total_reads (count_things
                    (set_counters (new_details (cstr "NNNN") (cstr "0") [] [] []) 5 5 5 5 0 0)
                    (drop 1 (entries five_unmatched))) = 5
  /\ max_reads (count_things
                  (set_counters (new_details (cstr "NNNN") (cstr "0") [] [] []) 5 5 5 5 0 0)
                  (drop 1 (entries five_unmatched))) = 0.
Proof.
  assert (Forall reads_nonneg (entries five_unmatched)) as Hnn.
  { repeat constructor; simpl; lia. }
  split; [exact Hnn|].
  destruct (writeMetrics_report five_unmatched default_opts _ _ eq_refl Hnn)
    as (H1 & _ & _ & H4 & _).
  - vm_compute. discriminate.
  - vm_compute. discriminate.
  - vm_compute. discriminate.
  - split; [exact H1 | exact H4].
Defined.

(** ** The tokeniser *)

Lemma skip_delims_head d s c s' :
  skip_delims d s = c :: s' -> is_delim d c = false.
Proof.
  induction s as [|x s IH]; simpl; [discriminate|].
  destruct (is_delim d x) eqn:Hx; [exact IH|].
  intros [= -> _]. exact Hx.
Qed.

Lemma skip_delims_length d s : (length (skip_delims d s) <= length s)%nat.
Proof.
  induction s as [|x s IH]; simpl; [lia|].
  destruct (is_delim d x); simpl; lia.
Qed.

Lemma split_token_length d s t r :
  split_token d s = (t, r) -> (length t + length r <= length s)%nat.
Proof.
  revert t r. induction s as [|x s IH]; intros t r; simpl.
  - intros [= <- <-]. simpl. lia.
  - destruct (is_delim d x).
    + intros [= <- <-]. simpl. lia.
    + destruct (split_token d s) as [t' r'] eqn:Hs. intros [= <- <-].
      specialize (IH t' r' eq_refl). simpl. lia.
Qed.

(** A token is never empty, and the save pointer moves on by more than
    the token. *)
Lemma strtok_r_Some s d t r :
  strtok_r s d = (Some t, r) -> t <> [] /\ (length t + length r <= length s)%nat.
Proof.
  unfold strtok_r. pose proof (skip_delims_length d s) as Hlen.
  destruct (skip_delims d s) as [|c s'] eqn:Hskip; [discriminate|].
  pose proof (skip_delims_head _ _ _ _ Hskip) as Hc.
  destruct (split_token d (c :: s')) as [t' r'] eqn:Hsplit.
  intros [= <- <-]. pose proof (split_token_length _ _ _ _ Hsplit) as Hl.
  simpl in Hsplit. rewrite Hc in Hsplit.
  destruct (split_token d s') as [t'' r'']. injection Hsplit as <- <-.
  split; [discriminate | simpl in *; lia].
Qed.

Lemma split_token_field d f rest :
  no_delim d f -> at_delim d rest -> split_token d (f ++ rest) = (f, tail rest).
Proof.
  intros Hf Hrest. induction Hf as [|c f Hc Hf IH]; cbn [app split_token].
  - destruct rest as [|c rest]; [reflexivity|]. cbn [split_token at_delim] in *.
    rewrite Hrest. reflexivity.
  - rewrite Hc, IH. reflexivity.
Qed.

(** [strtok_r] on a string that starts with a field returns the field and
    leaves the save pointer behind the delimiter that ends it. *)
Lemma strtok_r_field d f rest :
  f <> [] -> no_delim d f -> at_delim d rest ->
  strtok_r (f ++ rest) d = (Some f, tail rest).
Proof.
  intros Hne Hf Hrest. unfold strtok_r.
  destruct f as [|c f]; [contradiction|].
  inversion Hf as [|? ? Hc Hf']; subst.
  change ((c :: f) ++ rest) with (c :: (f ++ rest)).
  cbn [skip_delims]. rewrite Hc.
  change (c :: (f ++ rest)) with ((c :: f) ++ rest).
  rewrite split_token_field by assumption. reflexivity.
Qed.

(** ** Loading the barcode file *)

(** A row of five non-empty fields, with whatever follows a further tab,
    is parsed to an entry of the five. *)
Lemma parse_row_fields f1 f2 f3 f4 f5 rest :
  Forall (fun f => f <> [] /\ no_delim [TAB] f) [f1; f2; f3; f4; f5] ->
  at_delim [TAB] rest ->
  parse_row (f1 ++ TAB :: f2 ++ TAB :: f3 ++ TAB :: f4 ++ TAB :: f5 ++ rest)
  = Some (new_details f1 f2 f3 f4 f5).
Proof.
  intros Hall Hrest.
  repeat match goal with
         | H : Forall _ (_ :: _) |- _ => inversion H as [|? ? [? ?] ?]; subst; clear H
         end.
  unfold parse_row.
  repeat (rewrite strtok_r_field by (assumption || reflexivity); cbn [tail mbind option_bind]).
  reflexivity.
Qed.

Lemma parse_row_seq buf bcd : parse_row buf = Some bcd -> seq bcd <> [].
Proof.
  unfold parse_row.
  destruct (strtok_r buf [TAB]) as [[s1|] p1] eqn:H1; [|discriminate].
  destruct (strtok_r p1 [TAB]) as [[s2|] p2]; [|discriminate].
  destruct (strtok_r p2 [TAB]) as [[s3|] p3]; [|discriminate].
  destruct (strtok_r p3 [TAB]) as [[s4|] p4]; [|discriminate].
  destruct (strtok_r p4 [TAB]) as [[s5|] p5]; [|discriminate].
  simpl. intros [= <-]. simpl. eapply strtok_r_Some; eauto.
Qed.

Lemma load_rows_next rows : forall bcds arr L,
  rows_parse rows bcds ->
  0 < L <= INT_MAX ->
  load_rows rows arr L =
  if forallb (fun bcd => strlen (seq bcd) =? L) bcds
  then inr (set_entries arr (entries arr ++ bcds), L)
  else inl LoadError.
Proof.
  induction rows as [|row rows IH]; intros bcds arr L Hp HL;
    inversion Hp as [|? bcd ? bcds' Hrow Hrows]; subst; simpl.
  - rewrite app_nil_r. destruct arr; reflexivity.
  - rewrite Hrow. destruct (Z.eqb_spec L 0) as [|_]; [lia|].
    rewrite Z.mod_small by (unfold INT_MAX in HL; lia).
    destruct (Z.eqb_spec (strlen (seq bcd)) L) as [Heq|Hne]; simpl.
    + rewrite bool_decide_eq_false_2 by lia.
      rewrite (IH bcds') by assumption. simpl.
      rewrite <- app_assoc. reflexivity.
    + rewrite bool_decide_eq_true_2 by lia. reflexivity.
Qed.

(** C7, as the code has it. For a definition text whose data rows each
    yield their five fields (what follows a fifth field is ignored) and
    whose sequences fit an [int], loading returns an error if the length
    of any row's sequence differs from that of the first row's, and
    otherwise returns the table of the rows in order behind entry 0, with
    the tag length of the first sequence and with the sequence of entry 0
    set to that many ['N']. *)
Theorem loadBarcodeFile_rows (text header : cstring) (rows : list cstring)
    (bcds : list bc_details_t) :
  file_lines text = header :: rows ->
  rows_parse rows bcds ->
  Forall (fun bcd => strlen (seq bcd) <= INT_MAX) bcds ->
  loadBarcodeFile (Some text) =
  if same_length_as_first bcds then Loaded (loaded_table bcds) else LoadError.
Proof.
  intros Hlines Hp Hmax. unfold loadBarcodeFile. rewrite Hlines.
  destruct Hp as [|row bcd rows' bcds' Hrow Hrows]; [reflexivity|].
  cbn [load_rows]. rewrite Hrow. cbn [Z.eqb].
  inversion Hmax as [|? ? Hb Hbs]; subst.
  assert (0 < strlen (seq bcd)) as Hpos.
  { pose proof (parse_row_seq _ _ Hrow). unfold strlen.
    destruct (seq bcd); [contradiction | simpl; lia]. }
  rewrite int_wrap_small by (unfold in_int, INT_MIN; lia).
  rewrite (load_rows_next rows' bcds') by (assumption || lia).
  unfold same_length_as_first. cbn [forallb]. rewrite Z.eqb_refl. cbn [andb].
  destruct (forallb _ bcds'); reflexivity.
Qed.

Lemma loadBarcodeFile_rows_witness :
  file_lines two_barcodes_text
  = [tsv_line ["seq"; "name"; "lib"; "sample"; "desc"]%string;
     tsv_line ["AAAA"; "1"; "libA"; "sampleA"; "descA"]%string;
     tsv_line ["CCCC"; "2"; "libC"; "sampleC"; "descC"]%string]
  /\ loadBarcodeFile (Some two_barcodes_text) = Loaded two_barcodes.
Proof.
  split; [reflexivity|].
  refine (loadBarcodeFile_rows two_barcodes_text _ _
            (drop 1 (entries two_barcodes)) eq_refl _ _).
  - repeat constructor.
  - repeat constructor; vm_compute; discriminate.
Defined.

(** A row of six fields does not make the load fail: the sixth field is
    ignored. *)
Lemma loadBarcodeFile_six_fields : ~ load_rejects_field_count.
Proof.
  intros H.
  specialize (H six_fields_text _ _ eq_refl).
  assert (loadBarcodeFile (Some six_fields_text) <> LoadError) as Hne
    by (vm_compute; discriminate).
  apply Hne, H. constructor. vm_compute. discriminate.
Qed.

(** ** Record processing *)

Lemma findBarcodeName_Some barcode arr opts isPf nm arr' :
  findBarcodeName barcode arr opts isPf = Some (nm, arr') ->
  exists b i bcd,
    barcode = Some b
    /\ findBestMatch (Some b) arr opts = Some i
    /\ entries arr !! i = Some bcd
    /\ updateMetrics_at arr i (Some b) isPf = Some arr'
    /\ nm = name bcd.
Proof.
  unfold findBarcodeName. intros H.
  destruct barcode as [b|]; [|discriminate].
  destruct (findBestMatch (Some b) arr opts) as [i|] eqn:Hi; [|discriminate].
  cbn [mbind option_bind] in H.
  destruct (updateMetrics_at arr i (Some b) isPf) as [arr1|] eqn:Hu; [|discriminate].
  cbn [mbind option_bind] in H.
  pose proof Hu as Hu'. unfold updateMetrics_at in Hu'.
  destruct (entries arr !! i) as [bcd|] eqn:Hbcd; [|discriminate].
  cbn [mbind option_bind] in Hu'.
  destruct (updateMetrics bcd (Some b) isPf) as [bcd'|] eqn:Hm; [|discriminate].
  cbn [mbind option_bind] in Hu'. injection Hu' as <-.
  cbn [entries set_entries] in H.
  rewrite list_lookup_insert_eq in H by (eapply lookup_lt_Some; eauto).
  cbn [mbind option_bind] in H. injection H as <- <-.
  exists b, i, bcd. repeat split; try assumption.
  apply (updateMetrics_fields _ _ _ _ Hm).
Qed.

Lemma makeNewTag_eq rec nm :
  makeNewTag rec (cstr "RG") nm = default [] (bam_aux_get rec (cstr "RG")) ++ "#"%char :: nm.
Proof. reflexivity. Qed.

(** The block for the first read: one match, one update of the table,
    and the record tagged with the name of the matched entry. *)
Lemma tag_record_Some opts file_read sq arr fr nm arr' :
  tag_record opts file_read sq arr = Some (fr, nm, arr') ->
  fr = tagged opts file_read nm
  /\ exists newseq i bcd,
       findBestMatch (Some newseq) arr opts = Some i
       /\ entries arr !! i = Some bcd
       /\ nm = name bcd
       /\ updateMetrics_at arr i (Some newseq) (is_pass_filter file_read) = Some arr'.
Proof.
  unfold tag_record. intros H.
  destruct (if tag_len arr mod 2 ^ 64 <? strlen sq then _ else _) as [newseq|];
    [|discriminate].
  cbn [mbind option_bind] in H.
  destruct (findBarcodeName newseq arr opts _) as [[nm1 arr1]|] eqn:Hf; [|discriminate].
  cbn [mbind option_bind] in H.
  destruct (findBarcodeName_Some _ _ _ _ _ _ Hf) as (b & i & bcd & -> & Hi & Hb & Hu & ->).
  assert (fr = tagged opts file_read (name bcd) /\ nm = name bcd /\ arr' = arr1) as (-> & -> & ->).
  { unfold tagged, with_suffix. rewrite makeNewTag_eq in H.
    destruct (change_read_name opts); cbn in H; injection H as <- <- <-; auto. }
  split; [reflexivity|]. exists b, i, bcd. auto.
Qed.

Lemma find_filter_other (tag : cstring) (l : list (cstring * cstring)) :
  List.find (fun kv => bool_decide (kv.1 = tag))
            (List.filter (fun kv => negb (bool_decide (kv.1 = tag))) l) = None.
Proof.
  induction l as [|kv l IH]; simpl; [reflexivity|].
  destruct (bool_decide (kv.1 = tag)) eqn:Hk; simpl; [exact IH|].
  rewrite Hk. exact IH.
Qed.

Lemma find_app_None {A} (f : A -> bool) l1 l2 :
  List.find f l1 = None -> List.find f (l1 ++ l2) = List.find f l2.
Proof.
  induction l1 as [|x l1 IH]; simpl; [reflexivity|].
  destruct (f x); [discriminate | exact IH].
Qed.

Lemma bam_aux_get_update b tag v :
  bam_aux_get (bam_aux_update_str b tag v) tag = Some v.
Proof.
  unfold bam_aux_get, bam_aux_update_str. cbn [aux].
  rewrite find_app_None by apply find_filter_other.
  simpl. rewrite bool_decide_eq_true_2 by reflexivity. reflexivity.
Qed.

Lemma bam_aux_get_update_ne b tag tag' v :
  tag' <> tag -> bam_aux_get (bam_aux_update_str b tag v) tag' = bam_aux_get b tag'.
Proof.
  intros Hne. unfold bam_aux_get, bam_aux_update_str. cbn [aux]. f_equal.
  induction (aux b) as [|kv l IH]; simpl.
  - rewrite bool_decide_eq_false_2 by (simpl; congruence). reflexivity.
  - destruct (bool_decide (kv.1 = tag)) eqn:Hk; simpl.
    + apply bool_decide_eq_true_1 in Hk.
      rewrite bool_decide_eq_false_2 by congruence. exact IH.
    + destruct (bool_decide (kv.1 = tag')); [reflexivity | exact IH].
Qed.

Lemma flag_tagged opts rec nm : flag (tagged opts rec nm) = flag rec.
Proof. unfold tagged, with_suffix. destruct (change_read_name opts); reflexivity. Qed.

Lemma aux_tagged opts rec nm tag :
  bam_aux_get (tagged opts rec nm) tag =
  bam_aux_get (bam_aux_update_str rec (cstr "RG")
                 (default [] (bam_aux_get rec (cstr "RG")) ++ "#"%char :: nm)) tag.
Proof. unfold tagged, with_suffix. destruct (change_read_name opts); reflexivity. Qed.

Lemma qname_tagged opts rec nm :
  qname (tagged opts rec nm) =
  if change_read_name opts then qname rec ++ "#"%char :: nm else qname rec.
Proof. unfold tagged, with_suffix. destruct (change_read_name opts); reflexivity. Qed.

Lemma tag_mate_tagged opts nm paired_read :
  tag_mate opts true (Some nm) paired_read = Some (tagged opts paired_read nm).
Proof.
  unfold tag_mate, tagged, with_suffix. cbn [mbind option_bind].
  rewrite makeNewTag_eq. destruct (change_read_name opts); reflexivity.
Qed.

(** C8. A record that carries the barcode attribute and has its paired
    flag set: exactly one more record, the mate, is taken from the input
    and written behind the record; it receives the read-group suffix
    [#<name>] of the entry matched for the first read (the same value
    when both had the same read group) and, when name-suffixing is
    configured, the same name suffix. The table is the one left by the
    single match and update made for the first read, whatever the mate
    holds. *)
Theorem processRecord_pair (opts : opts_t) (st : state_t) (file_read mate : bam1_t)
    (rest : list bam1_t) (sq : cstring) (fr : bam1_t) (nm : cstring) (arr' : bc_array_t) :
  input_file st = file_read :: mate :: rest ->
  writable (output_file st) = true ->
  bam_aux_get file_read (barcode_tag_name opts) = Some sq ->
  is_paired file_read ->
  tag_record opts file_read sq (barcodeArray st) = Some (fr, nm, arr') ->
  processRecord opts st =
    Some (0, {| input_file := rest;
                output_file := {| written := written (output_file st)
                                             ++ [fr; tagged opts mate nm];
                                  writable := true |};
                barcodeArray := arr' |})
  /\ fr = tagged opts file_read nm
  /\ bam_aux_get fr (cstr "RG")
     = Some (default [] (bam_aux_get file_read (cstr "RG")) ++ "#"%char :: nm)
  /\ bam_aux_get (tagged opts mate nm) (cstr "RG")
     = Some (default [] (bam_aux_get mate (cstr "RG")) ++ "#"%char :: nm)
  /\ (bam_aux_get mate (cstr "RG") = bam_aux_get file_read (cstr "RG") ->
      bam_aux_get (tagged opts mate nm) (cstr "RG") = bam_aux_get fr (cstr "RG"))
  /\ qname fr = (if change_read_name opts then qname file_read ++ "#"%char :: nm
                 else qname file_read)
  /\ qname (tagged opts mate nm)
     = (if change_read_name opts then qname mate ++ "#"%char :: nm else qname mate)
  /\ exists newseq i bcd,
       findBestMatch (Some newseq) (barcodeArray st) opts = Some i
       /\ entries (barcodeArray st) !! i = Some bcd
       /\ nm = name bcd
       /\ updateMetrics_at (barcodeArray st) i (Some newseq) (is_pass_filter file_read)
          = Some arr'.
Proof.
  intros Hin Hw Hp Hpaired Htag.
  destruct (tag_record_Some _ _ _ _ _ _ _ Htag) as (-> & Hmatch).
  assert (forall rec, bam_aux_get (tagged opts rec nm) (cstr "RG")
            = Some (default [] (bam_aux_get rec (cstr "RG")) ++ "#"%char :: nm)) as Hrg.
  { intros rec. rewrite aux_tagged. apply bam_aux_get_update. }
  split.
  - unfold processRecord. rewrite Hin, Hp. cbn [mbind option_bind].
    rewrite Htag. cbn [mbind option_bind].
    unfold sam_write1 at 1. rewrite Hw. cbn [Z.ltb Z.compare].
    rewrite flag_tagged.
    destruct (Z.eqb_spec (Z.land (flag file_read) BAM_FPAIRED) 0) as [He|_];
      [contradiction|]. cbn [negb].
    rewrite bool_decide_eq_true_2 by eauto.
    rewrite tag_mate_tagged. cbn [mbind option_bind].
    unfold sam_write1. cbn [writable written Z.ltb Z.compare].
    rewrite <- app_assoc. reflexivity.
  - split; [reflexivity|]. split; [apply Hrg|]. split; [apply Hrg|].
    split; [intros Heq; rewrite !Hrg, Heq; reflexivity|].
    split; [apply qname_tagged|]. split; [apply qname_tagged | exact Hmatch].
Qed.

Lemma processRecord_pair_witness :
  is_paired read1
  /\ processRecord suffix_opts (start_state [read1; read2])
     = Some (0, {| input_file := [];
                   output_file :=
                     {| written := [tagged suffix_opts read1 (cstr "1");
                                    tagged suffix_opts read2 (cstr "1")];
                        writable := true |};
                   barcodeArray :=
                     set_entries two_barcodes
                       (<[1%nat := set_counters
                                     (new_details (cstr "AAAA") (cstr "1") (cstr "libA")
                                        (cstr "sampleA") (cstr "descA"))
                                     1 1 0 0 1 1]> (entries two_barcodes)) |}).
Proof.
  assert (is_paired read1) as Hp by (vm_compute; discriminate).
  split; [exact Hp|].
  exact (proj1 (processRecord_pair suffix_opts (start_state [read1; read2])
                  read1 read2 [] (cstr "AAAC") _ _ _ eq_refl eq_refl eq_refl Hp eq_refl)).
Defined.

(** A call of [processRecord] leaves the table as it is or makes one
    update of one entry. *)
Lemma processRecord_table opts st r st' :
  processRecord opts st = Some (r, st') ->
  barcodeArray st' = barcodeArray st
  \/ exists newseq i isPf,
       updateMetrics_at (barcodeArray st) i (Some newseq) isPf = Some (barcodeArray st').
Proof.
  unfold processRecord. intros H.
  destruct (input_file st) as [|file_read input]; [injection H as <- <-; auto|].
  assert (forall fr (nm : option cstring) arr1,
            (let '(r0, output) := sam_write1 (output_file st) fr in
             if r0 <? 0
             then Some (-1, {| input_file := input; output_file := output;
                               barcodeArray := arr1 |})
             else if negb (Z.land (flag fr) BAM_FPAIRED =? 0)
                  then match input with
                       | [] => None
                       | paired_read :: input0 =>
                           paired_read0 ← tag_mate opts
                             (bool_decide (is_Some (bam_aux_get file_read (barcode_tag_name opts))))
                             nm paired_read;
                           let '(r1, output0) := sam_write1 output paired_read0 in
                           Some (if r1 <? 0 then -1 else 0,
                                 {| input_file := input0; output_file := output0;
                                    barcodeArray := arr1 |})
                       end
                  else Some (0, {| input_file := input; output_file := output;
                                   barcodeArray := arr1 |})) = Some (r, st') ->
            barcodeArray st' = arr1) as Hrest.
  { intros fr nm arr1 Hw.
    destruct (sam_write1 (output_file st) fr) as [r0 output].
    destruct (r0 <? 0); [injection Hw as <- <-; reflexivity|].
    destruct (negb _); [|injection Hw as <- <-; reflexivity].
    destruct input as [|paired_read input0]; [discriminate|].
    destruct (tag_mate _ _ _ _) as [pr|]; [|discriminate].
    cbn [mbind option_bind] in Hw.
    destruct (sam_write1 output pr) as [r1 output0].
    injection Hw as <- <-. reflexivity. }
  destruct (bam_aux_get file_read (barcode_tag_name opts)) as [sq|] eqn:Hp.
  - destruct (tag_record opts file_read sq (barcodeArray st)) as [[[fr nm] arr1]|] eqn:Ht;
      [|discriminate].
    cbn [mbind option_bind] in H. apply Hrest in H. subst arr1.
    destruct (tag_record_Some _ _ _ _ _ _ _ Ht) as (_ & newseq & i & bcd & _ & _ & _ & Hu).
    right. eauto.
  - cbn [mbind option_bind] in H. apply Hrest in H. auto.
Qed.

Lemma countMismatches_loop_nocalls t : forall b n,
  Forall (fun c => isNoCall c = true) t -> countMismatches_loop t b n = Some n.
Proof.
  induction t as [|c t IH]; intros b n Hall; simpl; [reflexivity|].
  inversion Hall as [|? ? Hc Ht]; subst. rewrite Hc. apply IH. exact Ht.
Qed.

Lemma updateMetrics_tag0 e0 sq isPf :
  Forall (fun c => isNoCall c = true) (seq e0) ->
  perfect e0 = reads e0 -> pf_perfect e0 = pf_reads e0 ->
  exists e0', updateMetrics e0 (Some sq) isPf = Some e0'
    /\ seq e0' = seq e0 /\ perfect e0' = reads e0' /\ pf_perfect e0' = pf_reads e0'.
Proof.
  intros Hseq Hp Hpp. unfold updateMetrics, countMismatches.
  rewrite countMismatches_loop_nocalls by assumption. cbn [mbind option_bind Z.eqb andb].
  eexists. split; [reflexivity|]. cbn. rewrite Hp, Hpp.
  destruct isPf; auto.
Qed.

Lemma updateMetrics_at_invariant arr i sq isPf arr' :
  tag0_invariant arr ->
  updateMetrics_at arr i (Some sq) isPf = Some arr' ->
  tag0_invariant arr'.
Proof.
  intros (e0 & H0 & Hseq & Hp & Hpp) Hu. unfold updateMetrics_at in Hu.
  destruct (entries arr !! i) as [bcd|] eqn:Hi; [|discriminate].
  cbn [mbind option_bind] in Hu.
  destruct (updateMetrics bcd (Some sq) isPf) as [bcd'|] eqn:Hm; [|discriminate].
  cbn [mbind option_bind] in Hu. injection Hu as <-.
  unfold tag0_invariant. cbn [entries set_entries].
  destruct (decide (i = 0%nat)) as [->|Hne].
  - rewrite H0 in Hi. injection Hi as <-.
    destruct (updateMetrics_tag0 e0 sq isPf Hseq Hp Hpp) as (e0' & He & Hs & Hp' & Hpp').
    rewrite He in Hm. injection Hm as <-.
    exists e0'. rewrite list_lookup_insert_eq by (eapply lookup_lt_Some; eauto).
    rewrite Hs. auto.
  - exists e0. rewrite list_lookup_insert_ne by congruence. auto.
Qed.

Lemma loaded_table_invariant bcds : tag0_invariant (loaded_table bcds).
Proof.
  unfold tag0_invariant, loaded_table. cbn. eexists. split; [reflexivity|]. cbn.
  split; [|auto]. apply Forall_replicate. reflexivity.
Qed.

(** C9. While the invariant of entry 0 holds (its sequence is no-calls
    only, [perfect] equals [reads] and [pf_perfect] equals [pf_reads]):
    the mismatch count of entry 0 against any observed string is 0; the
    update of entry 0 is defined and, like the update of any other entry
    and like a whole call of [processRecord], keeps the invariant; and
    the report forces the two perfect-match counters of entry 0 to 0,
    whatever its [reads]. *)
Theorem tag0_invariant_kept (arr : bc_array_t) :
  tag0_invariant arr ->
  (exists e0, entries arr !! 0%nat = Some e0
     /\ forall observed, countMismatches (seq e0) observed = Some 0)
  /\ (forall sq isPf, exists arr',
        updateMetrics_at arr 0 (Some sq) isPf = Some arr' /\ tag0_invariant arr')
  /\ (forall i sq isPf arr',
        updateMetrics_at arr i (Some sq) isPf = Some arr' -> tag0_invariant arr')
  /\ (forall opts st r st',
        barcodeArray st = arr -> processRecord opts st = Some (r, st') ->
        tag0_invariant (barcodeArray st'))
  /\ (forall opts, exists mf arr' e0 e0',
        writeMetrics arr opts true = Some (0, Some mf, arr')
        /\ entries arr !! 0%nat = Some e0
        /\ entries arr' !! 0%nat = Some e0'
        /\ perfect e0' = 0 /\ pf_perfect e0' = 0
        /\ reads e0' = reads e0 /\ pf_reads e0' = pf_reads e0).
Proof.
  intros Hinv. pose proof Hinv as (e0 & H0 & Hseq & Hp & Hpp).
  split; [|split; [|split; [|split]]].
  - exists e0. split; [exact H0|]. intros observed.
    apply countMismatches_loop_nocalls. exact Hseq.
  - intros sq isPf.
    destruct (updateMetrics_tag0 e0 sq isPf Hseq Hp Hpp) as (e0' & He & _).
    eexists. split.
    + unfold updateMetrics_at. rewrite H0. cbn [mbind option_bind].
      rewrite He. reflexivity.
    + eapply updateMetrics_at_invariant; [exact Hinv|].
      unfold updateMetrics_at. rewrite H0. cbn [mbind option_bind].
      rewrite He. reflexivity.
  - intros i sq isPf arr' Hu. eapply updateMetrics_at_invariant; eauto.
  - intros opts st r st' <- Hproc.
    destruct (processRecord_table _ _ _ _ Hproc) as [->|(newseq & i & isPf & Hu)];
      [exact Hinv|].
    eapply updateMetrics_at_invariant; eauto.
  - intros opts. unfold writeMetrics.
    destruct (entries arr) as [|e es] eqn:He; [discriminate|].
    injection H0 as ->. cbn [negb].
    eexists _, _, e0, _. split; [reflexivity|]. cbn. auto 10.
Qed.

Lemma tag0_invariant_kept_witness :
  tag0_invariant two_barcodes
  /\ exists arr', updateMetrics_at two_barcodes 0 (Some (cstr "GGGG")) true = Some arr'
       /\ tag0_invariant arr'.
Proof.
  assert (tag0_invariant two_barcodes) as H.
  { exists (new_details (cstr "NNNN") (cstr "0") [] [] []).
    split; [reflexivity|]. split; [repeat constructor | split; reflexivity]. }
  split; [exact H|].
  exact (proj1 (proj2 (tag0_invariant_kept two_barcodes H)) (cstr "GGGG") true).
Defined.

(** C10 on the code. A record without barcode attribute whose paired
    flag is set, followed by its mate: without name-suffixing both are
    written through unchanged and the table stays as it is; with
    name-suffixing configured the suffix for the mate is the NULL name,
    which [add_suffix] hands to [strlen]. *)
Theorem processRecord_no_barcode_pair (opts : opts_t) (st : state_t)
    (file_read mate : bam1_t) (rest : list bam1_t) :
  input_file st = file_read :: mate :: rest ->
  writable (output_file st) = true ->
  bam_aux_get file_read (barcode_tag_name opts) = None ->
  is_paired file_read ->
  processRecord opts st =
    if change_read_name opts then None
    else Some (0, {| input_file := rest;
                     output_file := {| written := written (output_file st)
                                                  ++ [file_read; mate];
                                       writable := true |};
                     barcodeArray := barcodeArray st |}).
Proof.
  intros Hin Hw Hp Hpaired.
  unfold processRecord. rewrite Hin, Hp. cbn [mbind option_bind].
  unfold sam_write1 at 1. rewrite Hw. cbn [Z.ltb Z.compare].
  destruct (Z.eqb_spec (Z.land (flag file_read) BAM_FPAIRED) 0) as [He|_];
    [contradiction|]. cbn [negb].
  rewrite bool_decide_eq_false_2 by (intros [? ?]; discriminate).
  unfold tag_mate. cbn [mbind option_bind].
  destruct (change_read_name opts); [reflexivity|].
  cbn [mbind option_bind]. unfold sam_write1. cbn [writable written Z.ltb Z.compare].
  rewrite <- app_assoc. reflexivity.
Qed.

Lemma processRecord_no_barcode_pair_witness :
  is_paired plain1
  /\ bam_aux_get plain1 (barcode_tag_name suffix_opts) = None
  /\ processRecord suffix_opts (start_state [plain1; plain2]) = None.
Proof.
  assert (is_paired plain1) as Hp by (vm_compute; discriminate).
  split; [exact Hp|]. split; [reflexivity|].
  exact (processRecord_no_barcode_pair suffix_opts (start_state [plain1; plain2])
           plain1 plain2 [] eq_refl eq_refl eq_refl Hp).
Defined.

(** ** Header rewriting *)

Ltac closed_strings_differ :=
  match goal with
  | H : cstr _ = cstr _ |- _ => vm_compute in H; discriminate H
  end.

Section OneBarcode.

(** The barcode a call of [addNewRG] is made for. *)
Variables (bcname : cstring) (lib sample desc : option cstring).

Lemma loop_value_new_value t v :
  loop_value bcname lib sample desc t v = new_value bcname lib sample desc t v.
Proof.
  unfold loop_value, new_value.
  repeat case_bool_decide; subst; try reflexivity; closed_strings_differ.
Qed.

Lemma update_tag_fresh k v tags :
  Forall (fun str => take 2 str <> take 2 k) tags ->
  update_tag k v tags = tags ++ [take 2 k ++ ":"%char :: v].
Proof.
  intros H. induction H as [|str tags Hstr Htags IH]; simpl; [reflexivity|].
  unfold tag_has_key. rewrite bool_decide_eq_false_2 by assumption.
  rewrite IH. reflexivity.
Qed.

Lemma find_last_RG_snoc id l : forall x n found,
  rg_name x = id -> find_last_RG id (l ++ [x]) n found = Some (n + length l)%nat.
Proof.
  induction l as [|y l IH]; intros x n found Hx; simpl.
  - rewrite bool_decide_eq_true_2 by assumption. f_equal. lia.
  - rewrite IH by assumption. f_equal. lia.
Qed.

Lemma sam_hdr_update_last pre line p k v :
  sam_hdr_update {| rg := pre ++ [line]; pg := p |} (length pre) k v
  = {| rg := pre ++ [ {| rg_name := rg_name line;
                         rg_tag := update_tag k v (rg_tag line) |} ];
       pg := p |}.
Proof.
  unfold sam_hdr_update. cbn [rg pg]. f_equal.
  replace (length pre) with (length pre + 0)%nat at 1 by lia.
  rewrite alter_app_r. reflexivity.
Qed.

Lemma tail_tab_concat strs :
  tail (concat (map (fun s => TAB :: s) strs)) = join_tags strs.
Proof. destruct strs; reflexivity. Qed.

Lemma at_delim_tab_concat strs :
  at_delim [TAB] (concat (map (fun s => TAB :: s) strs)).
Proof. destruct strs; simpl; [exact I | reflexivity]. Qed.

Lemma tag_ok_key str : tag_ok str -> take 2 (tag_key str) = tag_key str.
Proof.
  intros (_ & Hlen & _). apply take_ge. lia.
Qed.

Lemma take2_key_colon k v : length k = 2%nat -> take 2 (k ++ ":"%char :: v) = k.
Proof.
  intros Hlen. rewrite take_app_le by lia. apply take_ge. lia.
Qed.

(** The rounds of the loop of [addNewRG] append the substituted tags to
    the line the loop works on. *)
Lemma addNewRG_loop_tags pre id p strs : forall fuel tags0,
  Forall tag_ok strs ->
  NoDup (map tag_key strs) ->
  Forall (fun str => Forall (fun s0 => take 2 s0 <> tag_key str) tags0) strs ->
  (length strs < fuel)%nat ->
  addNewRG_loop fuel (join_tags strs)
    {| rg := pre ++ [ {| rg_name := id; rg_tag := tags0 |} ]; pg := p |}
    (length pre) bcname lib sample desc
  = Some {| rg := pre ++ [ {| rg_name := id;
                              rg_tag := tags0 ++ map (new_tag bcname lib sample desc) strs |} ];
            pg := p |}.
Proof.
  induction strs as [|str strs IH]; intros fuel tags0 Hok Hnd Hfresh Hfuel;
    (destruct fuel as [|fuel]; [simpl in Hfuel; lia|]).
  - simpl. rewrite app_nil_r. reflexivity.
  - inversion Hok as [|? ? Hstr Hoks]; subst.
    inversion Hfresh as [|? ? Hf Hfs]; subst.
    apply NoDup_cons in Hnd as [Hnin Hnd].
    pose proof Hstr as (Heq & Hlen & Hkc & Hkt & Hvne & Hvt).
    set (k := tag_key str) in *. set (v := tag_value str) in *.
    cbn [addNewRG_loop join_tags].
    rewrite Heq at 1. rewrite <- app_assoc. cbn [app].
    rewrite strtok_r_field;
      [| intros ->; discriminate | exact Hkc | reflexivity].
    cbn [tail].
    rewrite strtok_r_field; [| exact Hvne | exact Hvt | apply at_delim_tab_concat].
    rewrite tail_tab_concat.
    change (addNewRG_loop fuel (join_tags strs)
              (sam_hdr_update {| rg := pre ++ [ {| rg_name := id; rg_tag := tags0 |} ];
                                 pg := p |}
                 (length pre) k (loop_value bcname lib sample desc k v))
              (length pre) bcname lib sample desc = 
            Some {| rg := pre ++ [ {| rg_name := id;
                      rg_tag := tags0 ++ map (new_tag bcname lib sample desc) (str :: strs) |} ];
                    pg := p |}).
    rewrite loop_value_new_value, sam_hdr_update_last. cbn [rg_name rg_tag].
    rewrite update_tag_fresh.
    2:{ eapply Forall_impl; [exact Hf|]. intros s0 Hs0. cbn beta in Hs0.
        fold k in Hs0. rewrite (take_ge k) by lia. exact Hs0. }
    rewrite (take_ge k) by lia.
    rewrite IH; [| assumption | assumption | | simpl in Hfuel; lia].
    + rewrite <- app_assoc. reflexivity.
    + apply Forall_forall. intros str' Hin.
      apply Forall_app. split.
      * rewrite Forall_forall in Hfs. apply Hfs. exact Hin.
      * constructor; [|constructor].
        rewrite take2_key_colon by assumption.
        intros Hk. apply Hnin. fold k. rewrite Hk.
        apply list_elem_of_fmap. exists str'. split; [reflexivity | exact Hin].
Qed.

Lemma join_tags_length strs :
  Forall (fun s => s <> []) strs -> (length strs <= length (join_tags strs))%nat.
Proof.
  intros H. destruct H as [|str strs Hstr Hstrs]; simpl; [lia|].
  rewrite length_app.
  assert (length strs <= length (concat (map (fun s => TAB :: s) strs)))%nat.
  { clear Hstr. induction Hstrs as [|s l Hs Hl IH]; simpl; [lia|].
    rewrite length_app. lia. }
  destruct str; [contradiction | simpl; lia].
Qed.

Lemma tag_ok_nonempty str : tag_ok str -> str <> [].
Proof. intros (Heq & Hlen & _) ->. simpl in Hlen. discriminate. Qed.

Lemma tag_ok_not_ID str : tag_ok str -> is_ID_tag str = false -> tag_key str <> cstr "ID".
Proof.
  intros (Heq & Hlen & _) Hid Hk. unfold is_ID_tag in Hid.
  apply bool_decide_eq_false_1 in Hid. apply Hid.
  rewrite Heq, Hk. reflexivity.
Qed.

Lemma NoDup_map_filter {A B} (f : A -> B) (p : A -> bool) l :
  NoDup (map f l) -> NoDup (map f (List.filter p l)).
Proof.
  induction l as [|x l IH]; simpl; [auto|].
  intros [Hnin Hnd]%NoDup_cons. destruct (p x); simpl; [|auto].
  apply NoDup_cons. split; [|auto].
  intros Hin. apply Hnin.
  apply list_elem_of_fmap in Hin as (y & -> & Hy).
  apply list_elem_of_fmap. exists y. split; [reflexivity|].
  apply list_elem_of_In. apply list_elem_of_In in Hy.
  apply List.filter_In in Hy. tauto.
Qed.

(** One call of [addNewRG] on the entry stored for a read group appends
    the new declaration for the barcode. *)
Lemma addNewRG_new_rg sh r :
  rg_ok r ->
  addNewRG sh (rg_entry r) bcname lib sample desc
  = Some {| rg := rg sh ++ [new_rg r bcname lib sample desc]; pg := pg sh |}.
Proof.
  intros (Hne & Hnt & Htags & Hnd).
  set (strs := List.filter (fun str => negb (is_ID_tag str)) (rg_tag r)).
  assert (Forall tag_ok strs) as Hok.
  { apply Forall_forall. intros str Hin. rewrite Forall_forall in Htags.
    apply Htags. apply list_elem_of_In. apply list_elem_of_In in Hin.
    apply List.filter_In in Hin. tauto. }
  assert (Forall (fun str => is_ID_tag str = false) strs) as Hnid.
  { apply Forall_forall. intros str Hin. apply list_elem_of_In in Hin.
    apply List.filter_In in Hin. destruct Hin as [_ Hin].
    destruct (is_ID_tag str); [discriminate | reflexivity]. }
  unfold addNewRG, rg_entry. fold strs.
  rewrite strtok_r_field; [| exact Hne | exact Hnt | apply at_delim_tab_concat].
  rewrite tail_tab_concat. cbn [mbind option_bind].
  unfold sam_hdr_find_RG, sam_hdr_add_RG. cbn [rg pg].
  rewrite find_last_RG_snoc by reflexivity. cbn [mbind option_bind Nat.add].
  rewrite addNewRG_loop_tags.
  - reflexivity.
  - exact Hok.
  - apply NoDup_map_filter. exact Hnd.
  - apply Forall_forall. intros str Hin. constructor; [|constructor].
    rewrite Forall_forall in Hok, Hnid.
    intros Hk. apply (tag_ok_not_ID str (Hok _ Hin) (Hnid _ Hin)).
    rewrite <- Hk. reflexivity.
  - apply Nat.lt_succ_r. apply join_tags_length.
    eapply Forall_impl; [exact Hok|]. intros s. apply tag_ok_nonempty.
Qed.

End OneBarcode.

Lemma add_barcode_RGs_new_rgs r es : forall sh,
  rg_ok r ->
  add_barcode_RGs sh (rg_entry r) es
  = Some {| rg := rg sh ++ map (fun e => new_rg r (name e) (Some (lib e))
                                        (Some (sample e)) (Some (desc e))) es;
            pg := pg sh |}.
Proof.
  induction es as [|e es IH]; intros sh Hr; simpl.
  - rewrite app_nil_r. destruct sh; reflexivity.
  - rewrite addNewRG_new_rg by assumption. cbn [mbind option_bind].
    rewrite IH by assumption. cbn [rg pg]. rewrite <- app_assoc. reflexivity.
Qed.

Lemma add_new_RGs_new_rgs es rs : forall sh,
  Forall rg_ok rs ->
  add_new_RGs sh (map rg_entry rs) es
  = Some {| rg := rg sh ++ concat (map (new_rgs es) rs); pg := pg sh |}.
Proof.
  induction rs as [|r rs IH]; intros sh Hrs; simpl.
  - rewrite app_nil_r. destruct sh; reflexivity.
  - inversion Hrs as [|? ? Hr Hrs']; subst.
    rewrite addNewRG_new_rg by assumption. cbn [mbind option_bind].
    rewrite add_barcode_RGs_new_rgs by assumption. cbn [mbind option_bind].
    rewrite IH by assumption. cbn [rg pg]. unfold new_rgs at 2.
    rewrite <- !app_assoc. reflexivity.
Qed.

(** C5. The rewrite loses a tag of a read-group declaration that follows
    a tag with an empty value. For the header with the one declaration
    [@RG ID:1 DS: PL:Illumina] and the table of the two barcodes [1] and
    [2], the claim gives the three declarations [ID:1#0 DS: PL:Illumina],
    [ID:1#1 DS:descA PL:Illumina] and [ID:1#2 DS:descC PL:Illumina].
    [changeHeader] gives three declarations with the IDs of the claim,
    but none has the tag [PL]: after the key [DS] the second [strtok_r] of
    [addNewRG] skips the tab behind the empty value and takes the whole
    next tag for the value, so that the declaration for the unmatched
    reads has [DS:PL:Illumina]. *)
Theorem changeHeader_empty_value :
  changeHeader two_barcodes empty_value_header (cstr "0.9") (cstr "bambi decode")
  = Some {| rg := [ {| rg_name := cstr "1#0";
                       rg_tag := [cstr "ID:1#0"; cstr "DS:PL:Illumina"] |};
                    {| rg_name := cstr "1#1";
                       rg_tag := [cstr "ID:1#1"; cstr "DS:descA"] |};
                    {| rg_name := cstr "1#2";
                       rg_tag := [cstr "ID:1#2"; cstr "DS:descC"] |} ];
            pg := [[cstr "ID:bambi"; cstr "PN:bambi"; cstr "VN:0.9";
                    cstr "CL:bambi decode"]] |}
  /\ concat (map (stated_rgs (drop 1 (entries two_barcodes))) (rg empty_value_header))
     = [ {| rg_name := cstr "1#0";
            rg_tag := [cstr "ID:1#0"; cstr "DS:"; cstr "PL:Illumina"] |};
         {| rg_name := cstr "1#1";
            rg_tag := [cstr "ID:1#1"; cstr "DS:descA"; cstr "PL:Illumina"] |};
         {| rg_name := cstr "1#2";
            rg_tag := [cstr "ID:1#2"; cstr "DS:descC"; cstr "PL:Illumina"] |} ]
  /\ forall sh',
       changeHeader two_barcodes empty_value_header (cstr "0.9") (cstr "bambi decode")
       = Some sh' ->
       Forall (fun r => Forall (fun str => tag_key str <> cstr "PL") (rg_tag r)) (rg sh')
       /\ rg sh' <> concat (map (stated_rgs (drop 1 (entries two_barcodes)))
                              (rg empty_value_header)).
Proof.
  assert (changeHeader two_barcodes empty_value_header (cstr "0.9") (cstr "bambi decode")
          = Some {| rg := [ {| rg_name := cstr "1#0";
                               rg_tag := [cstr "ID:1#0"; cstr "DS:PL:Illumina"] |};
                            {| rg_name := cstr "1#1";
                               rg_tag := [cstr "ID:1#1"; cstr "DS:descA"] |};
                            {| rg_name := cstr "1#2";
                               rg_tag := [cstr "ID:1#2"; cstr "DS:descC"] |} ];
                    pg := [[cstr "ID:bambi"; cstr "PN:bambi"; cstr "VN:0.9";
                            cstr "CL:bambi decode"]] |}) as Hch
    by (vm_compute; reflexivity).
  split; [exact Hch|]. split; [vm_compute; reflexivity|].
  intros sh' H. rewrite Hch in H. injection H as <-. cbn [rg]. split.
  - repeat (constructor; [repeat (constructor; [discriminate|]); constructor|]).
    constructor.
  - vm_compute. discriminate.
Qed.

(** The substitution rule, case by case. *)
Lemma new_value_rule bcname lib sample desc v :
  new_value bcname lib sample desc (cstr "PU") v = v ++ "#"%char :: bcname
  /\ new_value bcname lib sample desc (cstr "LB") v = default v lib
  /\ new_value bcname lib sample desc (cstr "SM") v = default v sample
  /\ new_value bcname lib sample desc (cstr "DS") v = default v desc
  /\ forall k, k <> cstr "PU" -> k <> cstr "LB" -> k <> cstr "SM" -> k <> cstr "DS" ->
       new_value bcname lib sample desc k v = v.
Proof.
  repeat split; try reflexivity.
  intros k H1 H2 H3 H4. unfold new_value.
  rewrite !bool_decide_eq_false_2 by assumption. reflexivity.
Qed.

Lemma one_read_group_ok : Forall rg_ok (rg one_read_group).
Proof.
  constructor; [|constructor].
  unfold rg_ok. cbn [rg_name rg_tag one_read_group].
  split; [discriminate|]. split; [repeat constructor|]. split.
  - repeat constructor; try discriminate.
  - vm_compute. repeat (constructor; [rewrite ?elem_of_cons, elem_of_nil; intuition discriminate|]).
    constructor.
Qed.

(** ** The examples of the specification *)

Example count_mismatches_self :
  countMismatches (cstr "ACNT") (cstr "ACNT") = Some 0.
Proof. reflexivity. Qed.

Example find_best_match_exact :
  findBestMatch (Some (cstr "AAAA")) two_barcodes default_opts = Some 1%nat.
Proof. reflexivity. Qed.

Example find_best_match_one_mismatch :
  findBestMatch (Some (cstr "AAAC")) two_barcodes default_opts = Some 1%nat.
Proof. reflexivity. Qed.

Example find_best_match_two_mismatches :
  findBestMatch (Some (cstr "AACC")) two_barcodes default_opts = Some 0%nat.
Proof. reflexivity. Qed.

Example find_best_match_no_delta :
  findBestMatch (Some (cstr "AACC")) two_barcodes
    {| barcode_tag_name := cstr "BC"; quality_tag_name := cstr "QT";
       max_low_quality_to_convert := 15; convert_low_quality := false;
       max_no_calls := 2; max_mismatches := 2; min_mismatch_delta := 1;
       change_read_name := false |} = Some 0%nat.
Proof. reflexivity. Qed.

Example find_best_match_short_observed :
  findBestMatch (Some (cstr "AA")) two_barcodes default_opts = None.
Proof. reflexivity. Qed.

Example convert_low_quality_all :
  checkBarcodeQuality (cstr "ACGT") (Some (cstr "!!!!")) 15 = Some (cstr "NNNN").
Proof. reflexivity. Qed.

Example convert_low_quality_none :
  checkBarcodeQuality (cstr "ACGT") (Some (cstr "IIII")) 15 = Some (cstr "ACGT").
Proof. reflexivity. Qed.

Example load_row_with_four_fields :
  loadBarcodeFile
    (Some (tsv_line ["seq"; "name"; "lib"; "sample"; "desc"]%string
           ++ tsv_line ["AAAA"; "1"; "libA"; "sampleA"]%string)) = LoadUndefined.
Proof. reflexivity. Qed.

Example load_rows_of_different_length :
  loadBarcodeFile
    (Some (two_barcodes_text
           ++ tsv_line ["GGG"; "3"; "libG"; "sampleG"; "descG"]%string)) = LoadError.
Proof. reflexivity. Qed.

Example pair_without_barcode_written_through :
  processRecord default_opts (start_state [plain1; plain2])
  = Some (0, {| input_file := [];
                output_file := {| written := [plain1; plain2]; writable := true |};
                barcodeArray := two_barcodes |}).
Proof. reflexivity. Qed.

(** * Further properties *)

(** ** The matcher's counts *)

Lemma spec_count_sym a : forall b,
  count_mismatches_spec a b = count_mismatches_spec b a.
Proof.
  induction a as [|x a IH]; intros [|y b]; try reflexivity.
  rewrite !spec_count_cons, IH. f_equal.
  unfold mismatch_at. cbn [fst snd]. rewrite (Ascii.eqb_sym x y).
  destruct (isNoCall x), (isNoCall y); reflexivity.
Qed.

Lemma countMismatches_loop_self s : forall n,
  countMismatches_loop s (Some s) n = Some n.
Proof.
  induction s as [|c s IH]; intros n; cbn [countMismatches_loop advance deref];
    [reflexivity|].
  destruct (isNoCall c) eqn:Hc; [apply IH|].
  cbn [mbind option_bind]. rewrite Hc, Ascii.eqb_refl. apply IH.
Qed.

(** [countMismatches] does not depend on which of two equal-length
    strings is the tag: the count is symmetric; it is 0 for a string
    against itself, no-calls or not; and it is never more than the
    length. *)
Theorem countMismatches_symmetric (a b : cstring) :
  length a = length b -> strlen a <= INT_MAX ->
  countMismatches a b = countMismatches b a
  /\ countMismatches a a = Some 0
  /\ exists n, countMismatches a b = Some n /\ 0 <= n <= strlen a.
Proof.
  intros Hlen Hmax. split; [|split].
  - rewrite !countMismatches_spec by (unfold strlen in *; lia || congruence).
    rewrite spec_count_sym. reflexivity.
  - apply countMismatches_loop_self.
  - eexists. split; [apply countMismatches_spec; assumption|].
    pose proof (spec_count_le a b). unfold strlen. lia.
Qed.

Lemma countMismatches_symmetric_witness :
  length (cstr "ACNT") = length (cstr "AGGT")
  /\ strlen (cstr "ACNT") <= INT_MAX
  /\ countMismatches (cstr "ACNT") (cstr "AGGT")
     = countMismatches (cstr "AGGT") (cstr "ACNT").
Proof.
  assert (strlen (cstr "ACNT") <= INT_MAX) as H by (vm_compute; discriminate).
  split; [reflexivity | split; [exact H|]].
  exact (proj1 (countMismatches_symmetric (cstr "ACNT") (cstr "AGGT") eq_refl H)).
Defined.

Lemma countMismatches_loop_prefix t : forall b extra n,
  (length t <= length b)%nat ->
  countMismatches_loop t (Some (b ++ extra)) n = countMismatches_loop t (Some b) n.
Proof.
  induction t as [|tc t IH]; intros b extra n Hlen; [reflexivity|].
  destruct b as [|bc b]; [simpl in Hlen; lia|].
  cbn [countMismatches_loop advance deref app].
  simpl in Hlen. destruct (isNoCall tc); [apply IH; lia|].
  cbn [mbind option_bind]. apply IH. lia.
Qed.

Lemma countMismatches_loop_past t : forall n,
  t <> [] -> no_nocall t -> countMismatches_loop t None n = None.
Proof.
  intros n Hne Hnc. destruct t as [|tc t]; [contradiction|].
  inversion Hnc as [|? ? Hc _]; subst.
  cbn [countMismatches_loop]. rewrite Hc. reflexivity.
Qed.

(** What [countMismatches] reads of the observed string. Characters
    behind the length of the tag are never looked at; and when the tag
    has no no-call and is at least two characters longer than the
    observed string, the loop reads behind the terminator of the observed
    string. *)
Theorem countMismatches_reads (tag barcode : cstring) :
  (forall extra, (length tag <= length barcode)%nat ->
     countMismatches tag (barcode ++ extra) = countMismatches tag barcode)
  /\ (no_nocall tag -> (length barcode + 2 <= length tag)%nat ->
      countMismatches tag barcode = None).
Proof.
  split.
  - intros extra Hlen. apply countMismatches_loop_prefix. exact Hlen.
  - unfold countMismatches. revert barcode. generalize 0.
    induction tag as [|tc tag IH]; intros n barcode Hnc Hlen; [simpl in Hlen; lia|].
    inversion Hnc as [|? ? Hc Hnc']; subst.
    cbn [countMismatches_loop]. rewrite Hc.
    destruct barcode as [|bc barcode].
    + cbn [deref advance mbind option_bind].
      apply countMismatches_loop_past; [|exact Hnc'].
      destruct tag; [simpl in Hlen; lia | discriminate].
    + cbn [deref advance mbind option_bind]. apply IH; [exact Hnc'|].
      simpl in Hlen. lia.
Qed.

Lemma countMismatches_reads_witness :
  (length (cstr "AAAA") <= length (cstr "AAAC"))%nat
  /\ countMismatches (cstr "AAAA") (cstr "AAAC" ++ cstr "GGGG") = Some 1
  /\ no_nocall (cstr "AAAA")
  /\ countMismatches (cstr "AAAA") (cstr "AA") = None.
Proof.
  assert (length (cstr "AAAA") <= length (cstr "AAAC"))%nat as H1 by (vm_compute; lia).
  assert (no_nocall (cstr "AAAA")) as H2 by (repeat constructor).
  split; [exact H1|]. split.
  - exact (proj1 (countMismatches_reads (cstr "AAAA") (cstr "AAAC")) (cstr "GGGG") H1).
  - split; [exact H2|].
    apply (proj2 (countMismatches_reads (cstr "AAAA") (cstr "AA")) H2).
    vm_compute. lia.
Defined.

Lemma count_no_calls_zero s : count_no_calls_spec s = 0%nat <-> no_nocall s.
Proof.
  unfold count_no_calls_spec, no_nocall. induction s as [|c s IH]; simpl.
  - split; [constructor | reflexivity].
  - destruct (isNoCall c) eqn:Hc; simpl.
    + split; [discriminate|]. intros H. inversion H; congruence.
    + rewrite IH. split; [intros H; constructor; assumption|].
      intros H. inversion H; assumption.
Qed.

(** [noCalls] is the number of characters of the string that are in the
    no-call set; it lies between 0 and the length, and is 0 exactly for a
    string without no-call. *)
Theorem noCalls_counts (s : cstring) :
  strlen s <= INT_MAX ->
  noCalls s = Z.of_nat (count_no_calls_spec s)
  /\ 0 <= noCalls s <= strlen s
  /\ (noCalls s = 0 <-> no_nocall s).
Proof.
  intros Hmax. rewrite noCalls_spec by assumption.
  pose proof (List.filter_length_le isNoCall s) as Hle.
  fold (count_no_calls_spec s) in Hle. unfold strlen.
  split; [reflexivity|]. split; [lia|].
  rewrite <- count_no_calls_zero. lia.
Qed.

Lemma noCalls_counts_witness :
  strlen (cstr "AN.n") <= INT_MAX /\ noCalls (cstr "AN.n") = 3.
Proof.
  assert (strlen (cstr "AN.n") <= INT_MAX) as H by (vm_compute; discriminate).
  split; [exact H|]. exact (proj1 (noCalls_counts (cstr "AN.n") H)).
Defined.

(** ** Quality conversion and the counts *)

Lemma checkBarcodeQuality_Some barcode quality threshold out :
  checkBarcodeQuality barcode (Some quality) threshold = Some out ->
  length barcode = length quality
  /\ out = checkBarcodeQuality_loop barcode quality (effective_threshold threshold).
Proof.
  unfold checkBarcodeQuality, strlen, effective_threshold.
  case_bool_decide as Hlen; [discriminate|].
  intros [= <-]. split; [lia | reflexivity].
Qed.

Lemma convert_mismatches quality : forall barcode tag mlq,
  (count_mismatches_spec tag (checkBarcodeQuality_loop barcode quality mlq)
   <= count_mismatches_spec tag barcode)%nat.
Proof.
  induction quality as [|q quality IH]; intros [|b barcode] tag mlq;
    cbn [checkBarcodeQuality_loop]; try lia.
  destruct tag as [|t tag]; [unfold count_mismatches_spec; simpl; lia|].
  rewrite !spec_count_cons. specialize (IH barcode tag mlq).
  destruct (char_val q - 33 <=? mlq); [|lia].
  replace (mismatch_at (t, "N"%char)) with false
    by (unfold mismatch_at; cbn [fst snd]; destruct (isNoCall t); reflexivity).
  destruct (mismatch_at (t, b)); lia.
Qed.

Lemma convert_no_calls quality : forall barcode mlq,
  (count_no_calls_spec barcode
   <= count_no_calls_spec (checkBarcodeQuality_loop barcode quality mlq))%nat.
Proof.
  unfold count_no_calls_spec.
  induction quality as [|q quality IH]; intros [|b barcode] mlq;
    cbn [checkBarcodeQuality_loop]; try lia.
  specialize (IH barcode mlq). cbn [List.filter].
  destruct (char_val q - 33 <=? mlq).
  - change (isNoCall "N"%char) with true. destruct (isNoCall b); simpl; lia.
  - destruct (isNoCall b); simpl; lia.
Qed.

(** The quality conversion only masks bases. Against any tag of the
    barcode's length the converted barcode has at most as many mismatches
    as the original one, and it has at least as many no-calls. *)
Theorem checkBarcodeQuality_masks (barcode quality out tag : cstring) (threshold : Z) :
  checkBarcodeQuality barcode (Some quality) threshold = Some out ->
  length tag = length barcode -> strlen barcode <= INT_MAX ->
  (exists n n', countMismatches tag barcode = Some n
                /\ countMismatches tag out = Some n' /\ n' <= n)
  /\ noCalls barcode <= noCalls out.
Proof.
  intros Hout Htag Hmax.
  destruct (checkBarcodeQuality_Some _ _ _ _ Hout) as [Hlen ->].
  pose proof (checkBarcodeQuality_loop_length quality barcode
                (effective_threshold threshold)) as Hl.
  unfold strlen in *. split.
  - do 2 eexists. split; [apply countMismatches_spec; unfold strlen; lia|].
    split; [apply countMismatches_spec; unfold strlen; lia|].
    pose proof (convert_mismatches quality barcode tag (effective_threshold threshold)).
    lia.
  - rewrite !noCalls_spec by (unfold strlen; lia).
    pose proof (convert_no_calls quality barcode (effective_threshold threshold)). lia.
Qed.

Lemma checkBarcodeQuality_masks_witness :
  checkBarcodeQuality (cstr "ACGT") (Some (cstr "I!II")) 15 = Some (cstr "ANGT")
  /\ (exists n n', countMismatches (cstr "AAAA") (cstr "ACGT") = Some n
                   /\ countMismatches (cstr "AAAA") (cstr "ANGT") = Some n' /\ n' <= n).
Proof.
  split; [reflexivity|].
  refine (proj1 (checkBarcodeQuality_masks (cstr "ACGT") (cstr "I!II") (cstr "ANGT")
                   (cstr "AAAA") 15 eq_refl eq_refl _)).
  vm_compute. discriminate.
Defined.

Lemma checkBarcodeQuality_loop_take k : forall quality barcode mlq,
  take k (checkBarcodeQuality_loop barcode quality mlq)
  = checkBarcodeQuality_loop (take k barcode) (take k quality) mlq.
Proof.
  induction k as [|k IH]; intros quality barcode mlq.
  - cbn [take]. destruct quality; reflexivity.
  - destruct quality as [|q quality], barcode as [|b barcode]; try reflexivity.
    cbn [take checkBarcodeQuality_loop]. rewrite IH. reflexivity.
Qed.

(** Conversion and truncation commute: cutting the converted barcode to
    [k] characters, as [processRecord] does for the tag length, gives
    the conversion of the barcode and the quality string both cut to [k]
    characters. *)
Theorem checkBarcodeQuality_truncated (k : nat) (barcode quality : cstring) (threshold : Z) :
  length barcode = length quality ->
  checkBarcodeQuality (take k barcode) (Some (take k quality)) threshold
  = take k <$> checkBarcodeQuality barcode (Some quality) threshold.
Proof.
  intros Hlen. unfold checkBarcodeQuality, strlen.
  rewrite !bool_decide_eq_false_2 by (rewrite ?length_take; lia).
  cbn [fmap option_fmap option_map]. rewrite checkBarcodeQuality_loop_take. reflexivity.
Qed.

Lemma checkBarcodeQuality_truncated_witness :
  length (cstr "ACGTAC") = length (cstr "I!II!I")
  /\ checkBarcodeQuality (cstr "ACGT") (Some (cstr "I!II")) 15
     = Some (take 4 (cstr "ANGTNC")).
Proof.
  split; [reflexivity|].
  exact (checkBarcodeQuality_truncated 4 (cstr "ACGTAC") (cstr "I!II!I") 15 eq_refl).
Defined.

(** ** What [findBestMatch] returns *)

Lemma scan_step_index st n c k :
  best_match (scan_step st n c) = Some k -> best_match st = Some k \/ k = n.
Proof.
  unfold scan_step. destruct (c <? nmBest st); cbn [best_match].
  - intros [= <-]. right. reflexivity.
  - auto.
Qed.

Lemma findBestMatch_loop_index barcode es : forall n st st' k,
  findBestMatch_loop barcode es n st = Some st' ->
  best_match st' = Some k ->
  best_match st = Some k \/ (n <= k < n + length es)%nat.
Proof.
  induction es as [|e es IH]; intros n st st' k Hloop Hk; cbn [findBestMatch_loop] in Hloop.
  - injection Hloop as <-. auto.
  - destruct (countMismatches (seq e) barcode) as [c|]; [|discriminate].
    cbn [mbind option_bind] in Hloop.
    destruct (IH _ _ _ _ Hloop Hk) as [Hs|Hr].
    + destruct (scan_step_index _ _ _ _ Hs) as [?| ->]; [auto|].
      right. simpl. lia.
    + right. simpl. lia.
Qed.

(** The entry [findBestMatch] returns is an entry of the table: the index
    is below the number of entries, so that the update of its metrics
    finds it. *)
Theorem findBestMatch_in_table (barcode : option cstring) (arr : bc_array_t)
    (opts : opts_t) (i : nat) :
  entries arr <> [] ->
  findBestMatch barcode arr opts = Some i ->
  (i < length (entries arr))%nat /\ is_Some (entries arr !! i).
Proof.
  intros Hne Hfind.
  assert (i < length (entries arr))%nat as Hlt.
  { unfold findBestMatch in Hfind.
    destruct barcode as [b|]; [|discriminate]. cbn [mbind option_bind] in Hfind.
    destruct (findBestMatch_loop b (drop 1 (entries arr)) 1 _) as [st|] eqn:Hloop;
      [|discriminate].
    cbn [mbind option_bind] in Hfind.
    destruct (matched st (noCalls b) opts).
    - destruct (findBestMatch_loop_index _ _ _ _ _ _ Hloop Hfind) as [Hk|Hk];
        [discriminate|].
      rewrite length_drop in Hk. lia.
    - injection Hfind as <-. destruct (entries arr); [contradiction | simpl; lia]. }
  split; [exact Hlt | apply lookup_lt_is_Some_2; exact Hlt].
Qed.

Lemma findBestMatch_in_table_witness :
  entries two_barcodes <> []
  /\ findBestMatch (Some (cstr "CCCA")) two_barcodes default_opts = Some 2%nat
  /\ (2 < length (entries two_barcodes))%nat.
Proof.
  assert (entries two_barcodes <> []) as H by discriminate.
  split; [exact H|]. split; [reflexivity|].
  exact (proj1 (findBestMatch_in_table (Some (cstr "CCCA")) two_barcodes default_opts 2
                  H eq_refl)).
Defined.

Lemma findBestMatch_scan observed arr opts :
  table_ok arr -> strlen observed = tag_len arr ->
  findBestMatch (Some observed) arr opts =
  let st := scan_summary (tag_len arr) 1 (mismatch_counts observed arr) in
  if matched st (noCalls observed) opts then best_match st else Some 0%nat.
Proof.
  intros (HL & _ & Hall) Hlen.
  unfold findBestMatch. cbn [mbind option_bind].
  rewrite findBestMatch_loop_counts;
    [| eapply Forall_impl; [exact Hall | simpl; intros; congruence] | lia].
  cbn [mbind option_bind]. rewrite scan_counts_summary. reflexivity.
Qed.

Lemma list_min_le_lookup d l : forall j x, l !! j = Some x -> list_min d l <= x.
Proof.
  induction l as [|y l IH]; intros [|j] x Hj; simpl in *; try discriminate.
  - injection Hj as ->. lia.
  - specialize (IH j x Hj). lia.
Qed.

Lemma list_min_delete_lookup d l k j x :
  j <> k -> l !! j = Some x -> list_min d (delete k l) <= x.
Proof.
  intros Hne Hj. destruct (decide (j < k)%nat) as [Hlt|Hge].
  - apply (list_min_le_lookup d (delete k l) j). rewrite list_lookup_delete_lt by lia. exact Hj.
  - destruct j as [|j]; [lia|].
    apply (list_min_le_lookup d (delete k l) j). rewrite list_lookup_delete_ge by lia. exact Hj.
Qed.

Lemma mismatch_counts_lookup observed arr j e :
  entries arr !! S j = Some e ->
  mismatch_counts observed arr !! j
  = Some (Z.of_nat (count_mismatches_spec (seq e) observed)).
Proof.
  intros He. unfold mismatch_counts.
  rewrite list_lookup_fmap, lookup_drop. cbn [Nat.add]. rewrite He. reflexivity.
Qed.

(** A match is sound. When [findBestMatch] returns an entry other than
    entry 0 for an observed string of the tag length, that entry has at
    most [max_mismatches] mismatches and fewer than the tag length, the
    observed string has at most [max_no_calls] no-calls, every other
    barcode has at least [min_mismatch_delta] mismatches more, and every
    barcode before it in the table has strictly more. *)
Theorem findBestMatch_sound (observed : cstring) (arr : bc_array_t)
    (opts : opts_t) (i : nat) :
  table_ok arr -> strlen observed = tag_len arr ->
  findBestMatch (Some observed) arr opts = Some i -> i <> 0%nat ->
  exists e n,
    entries arr !! i = Some e
    /\ countMismatches (seq e) observed = Some n
    /\ n <= max_mismatches opts
    /\ n < tag_len arr
    /\ noCalls observed <= max_no_calls opts
    /\ (forall j e', j <> 0%nat -> j <> i -> entries arr !! j = Some e' ->
          exists n', countMismatches (seq e') observed = Some n'
                     /\ n + min_mismatch_delta opts <= n')
    /\ (forall j e', (0 < j < i)%nat -> entries arr !! j = Some e' ->
          exists n', countMismatches (seq e') observed = Some n' /\ n < n').
Proof.
  intros Hok Hlen Hfind Hi0. pose proof Hok as (HL & _ & Hall).
  rewrite findBestMatch_scan in Hfind by assumption. cbn zeta in Hfind.
  set (L := tag_len arr) in *. set (cs := mismatch_counts observed arr) in *.
  destruct (matched (scan_summary L 1 cs) (noCalls observed) opts) eqn:Hm;
    [|injection Hfind as <-; contradiction].
  unfold matched, scan_summary in Hm, Hfind. cbn [best_match nmBest nm2Best] in Hm, Hfind.
  destruct (Z.ltb_spec (best L cs) L) as [HbL|]; [|discriminate].
  destruct (first_index_of (best L cs) cs) as [k|] eqn:Hk; [|discriminate].
  cbn in Hfind. injection Hfind as <-.
  apply andb_prop in Hm as [Hm Hd]. apply andb_prop in Hm as [Hm Hmm].
  apply andb_prop in Hm as [_ Hnc].
  apply Z.leb_le in Hd, Hmm, Hnc.
  pose proof (second_best_ge L cs) as Hsb.
  assert (0 <= best L cs) as Hb0.
  { apply list_min_nonneg; [lia | apply mismatch_counts_nonneg]. }
  rewrite int_sub_small in Hd by (unfold in_int, INT_MIN; lia).
  pose proof Hk as Hfi. apply first_index_of_lookup in Hk as [Hk Hbefore].
  assert (forall j e', entries arr !! S j = Some e' ->
            countMismatches (seq e') observed
            = Some (Z.of_nat (count_mismatches_spec (seq e') observed))
            /\ cs !! j = Some (Z.of_nat (count_mismatches_spec (seq e') observed)))
    as Hcount.
  { intros j e' He'. split; [|apply mismatch_counts_lookup; exact He'].
    apply countMismatches_spec.
    - rewrite Forall_forall in Hall.
      assert (e' ∈ drop 1 (entries arr)) as Hin.
      { apply list_elem_of_lookup. exists j. rewrite lookup_drop. exact He'. }
      specialize (Hall _ Hin). unfold strlen in *. lia.
    - rewrite Forall_forall in Hall.
      assert (e' ∈ drop 1 (entries arr)) as Hin.
      { apply list_elem_of_lookup. exists j. rewrite lookup_drop. exact He'. }
      specialize (Hall _ Hin). cbn beta in Hall. lia. }
  assert (is_Some (entries arr !! S k)) as [e He].
  { apply lookup_lt_is_Some. apply lookup_lt_Some in Hk.
    unfold cs, mismatch_counts in Hk. rewrite length_map, length_drop in Hk. lia. }
  destruct (Hcount k e He) as [Hce Hck].
  assert (Z.of_nat (count_mismatches_spec (seq e) observed) = best L cs) as Hn
    by congruence.
  exists e, (best L cs). rewrite <- Hn at 1.
  split; [exact He|]. split; [rewrite Hn in Hce; rewrite Hn; exact Hce|].
  split; [exact Hmm|]. split; [exact HbL|].
  split; [exact Hnc|]. split.
  - intros [|j] e' Hj0 Hji He'; [contradiction|].
    destruct (Hcount j e' He') as [Hc' Hcj]. eexists. split; [exact Hc'|].
    assert (second_best L cs <= Z.of_nat (count_mismatches_spec (seq e') observed)).
    { unfold second_best. rewrite Hfi.
      eapply list_min_delete_lookup; [|exact Hcj]. congruence. }
    lia.
  - intros [|j] e' Hj He'; [lia|].
    destruct (Hcount j e' He') as [Hc' Hcj]. eexists. split; [exact Hc'|].
    pose proof (list_min_le_lookup L cs j _ Hcj) as Hmin. fold (best L cs) in Hmin.
    assert (cs !! j <> Some (best L cs)) as Hne by (apply Hbefore; lia).
    rewrite Hcj in Hne.
    destruct (Z.eq_dec (Z.of_nat (count_mismatches_spec (seq e') observed)) (best L cs));
      [congruence | lia].
Qed.

Lemma findBestMatch_sound_witness :
  table_ok two_barcodes
  /\ findBestMatch (Some (cstr "AAAC")) two_barcodes default_opts = Some 1%nat
  /\ exists e n, entries two_barcodes !! 1%nat = Some e
                 /\ countMismatches (seq e) (cstr "AAAC") = Some n
                 /\ n <= max_mismatches default_opts.
Proof.
  split; [exact two_barcodes_ok|]. split; [reflexivity|].
  destruct (findBestMatch_sound (cstr "AAAC") two_barcodes default_opts 1
              two_barcodes_ok eq_refl eq_refl) as (e & n & H1 & H2 & H3 & _).
  - discriminate.
  - exists e, n. auto.
Defined.

Lemma findBestMatch_loop_seq barcode es : forall es' n st,
  map seq es = map seq es' ->
  findBestMatch_loop barcode es n st = findBestMatch_loop barcode es' n st.
Proof.
  induction es as [|e es IH]; intros [|e' es'] n st Heq; try discriminate; [reflexivity|].
  injection Heq as He Hes. cbn [findBestMatch_loop]. rewrite He.
  destruct (countMismatches (seq e') barcode); [|reflexivity].
  cbn [mbind option_bind]. apply IH. exact Hes.
Qed.

Lemma updateMetrics_at_seq arr i sq isPf arr' :
  updateMetrics_at arr i sq isPf = Some arr' ->
  tag_len arr' = tag_len arr
  /\ map seq (entries arr') = map seq (entries arr)
  /\ map name (entries arr') = map name (entries arr).
Proof.
  unfold updateMetrics_at. intros H.
  destruct (entries arr !! i) as [bcd|] eqn:Hi; [|discriminate].
  cbn [mbind option_bind] in H.
  destruct (updateMetrics bcd sq isPf) as [bcd'|] eqn:Hm; [|discriminate].
  cbn [mbind option_bind] in H. injection H as <-.
  destruct (updateMetrics_fields _ _ _ _ Hm) as (Hs & Hn & _).
  cbn [tag_len entries set_entries]. split; [reflexivity|].
  change map with (@fmap list _) in *.
  rewrite !list_fmap_insert, Hs, Hn.
  split; apply list_insert_id; rewrite list_lookup_fmap, Hi; reflexivity.
Qed.

(** Matching reads the sequences of the table only: after any update of
    the metrics [findBestMatch] returns what it returned before, for
    every observed string. *)
Theorem findBestMatch_after_update (arr arr' : bc_array_t) (i : nat)
    (sq : option cstring) (isPf : bool) (barcode : option cstring) (opts : opts_t) :
  updateMetrics_at arr i sq isPf = Some arr' ->
  findBestMatch barcode arr' opts = findBestMatch barcode arr opts.
Proof.
  intros Hu. destruct (updateMetrics_at_seq _ _ _ _ _ Hu) as (Ht & Hs & _).
  unfold findBestMatch. destruct barcode as [b|]; [|reflexivity].
  cbn [mbind option_bind]. rewrite Ht.
  rewrite (findBestMatch_loop_seq b (drop 1 (entries arr')) (drop 1 (entries arr))).
  - reflexivity.
  - change map with (@fmap list _) in *. rewrite !fmap_drop. f_equal. exact Hs.
Qed.

Lemma findBestMatch_after_update_witness :
  exists arr',
    updateMetrics_at two_barcodes 1 (Some (cstr "AAAC")) true = Some arr'
    /\ findBestMatch (Some (cstr "CCCC")) arr' default_opts
       = findBestMatch (Some (cstr "CCCC")) two_barcodes default_opts.
Proof.
  eexists. split; [reflexivity|].
  exact (findBestMatch_after_update two_barcodes _ 1 (Some (cstr "AAAC")) true
           (Some (cstr "CCCC")) default_opts eq_refl).
Defined.

(** ** The counters *)

Lemma counters_zero_consistent e : counters_zero e -> counters_consistent e.
Proof.
  unfold counters_zero, counters_consistent. lia.
Qed.

Lemma updateMetrics_consistent bcd sq isPf bcd' :
  counters_consistent bcd -> counters_below_max bcd ->
  updateMetrics bcd sq isPf = Some bcd' ->
  counters_consistent bcd'.
Proof.
  intros (H1 & H2 & H3 & H4 & H5) (Hr & Hpr & Hp & Hpp & Ho & Hpo).
  unfold updateMetrics.
  destruct (match sq with Some s => _ | None => _ end) as [n|]; [|discriminate].
  cbn [mbind option_bind]. intros [= <-].
  unfold counters_consistent. cbn.
  rewrite !int_incr by assumption.
  destruct (Z.eqb_spec n 0) as [->|Hn0]; cbn [andb Z.eqb].
  - destruct isPf; lia.
  - destruct (Z.eqb_spec n 1); destruct isPf; cbn [andb]; rewrite ?int_incr by assumption; lia.
Qed.

(** The updates keep the counters of every entry consistent: while no
    counter of the updated entry has reached [INT_MAX], each pass-filter
    counter stays at most its counter, and the perfect and one-mismatch
    matches together stay at most the reads; the counters of a freshly
    loaded entry, all 0, are consistent. *)
Theorem updateMetrics_keeps_consistent (arr arr' : bc_array_t) (i : nat)
    (sq : option cstring) (isPf : bool) :
  Forall counters_consistent (entries arr) ->
  Forall counters_below_max (entries arr) ->
  updateMetrics_at arr i sq isPf = Some arr' ->
  Forall counters_consistent (entries arr').
Proof.
  intros Hc Hb Hu. unfold updateMetrics_at in Hu.
  destruct (entries arr !! i) as [bcd|] eqn:Hi; [|discriminate].
  cbn [mbind option_bind] in Hu.
  destruct (updateMetrics bcd sq isPf) as [bcd'|] eqn:Hm; [|discriminate].
  cbn [mbind option_bind] in Hu. injection Hu as <-. cbn [entries set_entries].
  apply Forall_insert; [exact Hc|].
  rewrite Forall_forall in Hc, Hb.
  assert (bcd ∈ entries arr) as Hin by (apply list_elem_of_lookup; eauto).
  eapply updateMetrics_consistent; eauto.
Qed.

Lemma updateMetrics_keeps_consistent_witness :
  Forall counters_consistent (entries two_barcodes)
  /\ exists arr', updateMetrics_at two_barcodes 1 (Some (cstr "AAAC")) true = Some arr'
                  /\ Forall counters_consistent (entries arr').
Proof.
  assert (Forall counters_consistent (entries two_barcodes)) as Hc.
  { repeat constructor; apply counters_zero_consistent; repeat split. }
  assert (Forall counters_below_max (entries two_barcodes)) as Hb.
  { repeat constructor; unfold counters_below_max, INT_MAX; simpl; lia. }
  split; [exact Hc|]. eexists. split; [reflexivity|].
  exact (updateMetrics_keeps_consistent two_barcodes _ 1 (Some (cstr "AAAC")) true
           Hc Hb eq_refl).
Defined.

(** ** The outcomes of [processRecord] *)

Lemma tagged_passed_through opts rec nm : passed_through rec (tagged opts rec nm).
Proof.
  unfold passed_through. split; [apply flag_tagged|]. split.
  - intros tag Htag. rewrite aux_tagged. apply bam_aux_get_update_ne. exact Htag.
  - right. exists nm. split.
    + rewrite aux_tagged. apply bam_aux_get_update.
    + rewrite qname_tagged. destruct (change_read_name opts); auto.
Qed.

Lemma passed_through_refl rec : passed_through rec rec.
Proof. unfold passed_through. auto. Qed.

Lemma tag_mate_Some opts p nm mate mate' :
  tag_mate opts p nm mate = Some mate' ->
  (p = true /\ exists n, nm = Some n /\ mate' = tagged opts mate n)
  \/ (p = false /\ change_read_name opts = false /\ mate' = mate)
  \/ (p = false /\ exists n, nm = Some n /\ mate' = with_suffix opts mate n).
Proof.
  destruct p.
  - destruct nm as [n|]; [|discriminate].
    rewrite tag_mate_tagged. intros [= <-]. left. eauto.
  - unfold tag_mate. cbn [mbind option_bind]. unfold with_suffix, add_suffix.
    destruct (change_read_name opts).
    + destruct nm as [n|]; [|discriminate]. cbn [mbind option_bind].
      intros [= <-]. right. right. split; [reflexivity|]. eauto.
    + intros [= <-]. right. left. auto.
Qed.


Lemma sum_of_insert f l : forall i x y,
  l !! i = Some x -> sum_of f (<[i:=y]> l) = sum_of f l - f x + f y.
Proof.
  induction l as [|z l IH]; intros [|i] x y Hi; simpl in *; try discriminate.
  - injection Hi as ->. lia.
  - rewrite (IH i x y Hi). lia.
Qed.

Lemma updateMetrics_at_sums arr i sq isPf arr' :
  Forall counters_below_max (entries arr) ->
  updateMetrics_at arr i sq isPf = Some arr' ->
  sum_of reads (entries arr') = sum_of reads (entries arr) + 1
  /\ sum_of pf_reads (entries arr') = sum_of pf_reads (entries arr) + b2z isPf.
Proof.
  intros Hb Hu. unfold updateMetrics_at in Hu.
  destruct (entries arr !! i) as [bcd|] eqn:Hi; [|discriminate].
  cbn [mbind option_bind] in Hu.
  destruct (updateMetrics bcd sq isPf) as [bcd'|] eqn:Hm; [|discriminate].
  cbn [mbind option_bind] in Hu. injection Hu as <-. cbn [entries set_entries].
  rewrite !(sum_of_insert _ _ _ _ _ Hi).
  rewrite Forall_forall in Hb.
  assert (bcd ∈ entries arr) as Hin by (apply list_elem_of_lookup; eauto).
  destruct (Hb _ Hin) as (Hr & Hpr & _).
  unfold updateMetrics in Hm.
  destruct (match sq with Some s => _ | None => _ end) as [n|]; [|discriminate].
  cbn [mbind option_bind] in Hm. injection Hm as <-. cbn.
  rewrite int_incr by assumption.
  destruct isPf; cbn [b2z]; rewrite ?int_incr by assumption; lia.
Qed.



(** ** Streams that can fail *)

(** On a stream that takes every record, a defined call of
    [processRecord] with a mate to read is the same call on the stream
    that can fail. *)
Lemma processRecord_on_stream opts st r st' :
  writable (output_file st) = true ->
  processRecord opts st = Some (r, st') ->
  Stream.processRecord opts (on_stream st) = Some (r, on_stream st').
Proof.
  intros Hw H. unfold processRecord in H. unfold Stream.processRecord.
  unfold on_stream. cbn [Stream.input_file Stream.output_file Stream.barcodeArray].
  destruct (input_file st) as [|rec rest] eqn:Hin.
  - injection H as <- <-. cbn. rewrite Hin. reflexivity.
  - cbn [Stream.sam_read1 Z.ltb Z.compare].
    destruct (match bam_aux_get rec (barcode_tag_name opts) with
              | Some sq =>
                  '(file_read, name, arr) ← tag_record opts rec sq (barcodeArray st);
                  Some (file_read, Some name, arr)
              | None => Some (rec, None, barcodeArray st)
              end) as [[[fr nm] arr1]|]; [|discriminate].
    cbn [mbind option_bind] in *.
    unfold sam_write1 in H at 1. rewrite Hw in H.
    unfold Stream.sam_write1 at 1. cbn [Stream.results Stream.written Z.ltb Z.compare] in *.
    destruct (negb (Z.land (flag fr) BAM_FPAIRED =? 0)).
    + destruct rest as [|mate rest']; [discriminate|].
      cbn [Stream.sam_read1 Z.ltb Z.compare andb].
      destruct (tag_mate _ _ _ _) as [mate'|]; [|discriminate].
      cbn [mbind option_bind] in *.
      unfold sam_write1 in H. cbn [writable written Z.ltb Z.compare] in H.
      unfold Stream.sam_write1. cbn [Stream.results Stream.written Z.ltb Z.compare].
      injection H as <- <-. cbn. reflexivity.
    + injection H as <- <-. cbn. reflexivity.
Qed.

Lemma write_ok_sam_write1 f b :
  Stream.sam_write1 f b
  = if write_ok f 0
    then (0, {| Stream.written := Stream.written f ++ [b];
                Stream.results := drop 1 (Stream.results f) |})
    else (-1, {| Stream.written := Stream.written f;
                 Stream.results := drop 1 (Stream.results f) |}).
Proof.
  unfold Stream.sam_write1, write_ok.
  destruct (Stream.results f) as [|[|] rs]; reflexivity.
Qed.

Lemma write_ok_drop f f' n k :
  Stream.results f' = drop n (Stream.results f) -> write_ok f' k = write_ok f (n + k).
Proof. intros H. unfold write_ok. rewrite H, lookup_drop. reflexivity. Qed.

(** The shape of every defined call of [Stream.processRecord]. *)
Lemma stream_processRecord_shape opts st r st' :
  Stream.processRecord opts st = Some (r, st') ->
  (r = 1 /\ Stream.input_file st = [] /\ st' = st)
  \/ exists rec rest fr,
       Stream.input_file st = rec :: rest
       /\ passed_through rec fr
       /\ ((r = -1 /\ write_ok (Stream.output_file st) 0 = false
            /\ Stream.input_file st' = rest
            /\ Stream.written (Stream.output_file st')
               = Stream.written (Stream.output_file st)
            /\ Stream.results (Stream.output_file st')
               = drop 1 (Stream.results (Stream.output_file st)))
           \/ (r = 0 /\ ~ is_paired rec
               /\ write_ok (Stream.output_file st) 0 = true
               /\ Stream.input_file st' = rest
               /\ Stream.written (Stream.output_file st')
                  = Stream.written (Stream.output_file st) ++ [fr]
               /\ Stream.results (Stream.output_file st')
                  = drop 1 (Stream.results (Stream.output_file st)))
           \/ (is_paired rec
               /\ write_ok (Stream.output_file st) 0 = true
               /\ Stream.input_file st' = drop 1 rest
               /\ Stream.results (Stream.output_file st')
                  = drop 2 (Stream.results (Stream.output_file st))
               /\ (rest = [] -> change_read_name opts = false)
               /\ exists fm,
                    passed_through (default Stream.bam_init1 (head rest)) fm
                    /\ ((r = -1 /\ write_ok (Stream.output_file st) 1 = false
                         /\ Stream.written (Stream.output_file st')
                            = Stream.written (Stream.output_file st) ++ [fr])
                        \/ (r = 0 /\ write_ok (Stream.output_file st) 1 = true
                            /\ Stream.written (Stream.output_file st')
                               = Stream.written (Stream.output_file st) ++ [fr; fm])))).
Proof.
  unfold Stream.processRecord. intros H.
  destruct (Stream.input_file st) as [|rec rest] eqn:Hin;
    cbn [Stream.sam_read1 Z.ltb Z.compare] in H.
  { injection H as <- <-. left. auto. }
  right.
  destruct (match bam_aux_get rec (barcode_tag_name opts) with
            | Some sq =>
                '(file_read, name, arr) ← tag_record opts rec sq (Stream.barcodeArray st);
                Some (file_read, Some name, arr)
            | None => Some (rec, None, Stream.barcodeArray st)
            end) as [[[fr nm] arr1]|] eqn:Htag; [|discriminate].
  cbn [mbind option_bind] in H.
  assert (flag fr = flag rec /\ passed_through rec fr
          /\ (bool_decide (is_Some (bam_aux_get rec (barcode_tag_name opts))) = false
              -> nm = None)) as (Hflag & Hfr & Hnm).
  { destruct (bam_aux_get rec (barcode_tag_name opts)) as [sq|] eqn:Hp.
    - destruct (tag_record opts rec sq (Stream.barcodeArray st)) as [[[fr0 n] arr0]|] eqn:Ht;
        [|discriminate].
      cbn [mbind option_bind] in Htag. injection Htag as <- <- <-.
      destruct (tag_record_Some _ _ _ _ _ _ _ Ht) as (-> & _).
      split; [apply flag_tagged|]. split; [apply tagged_passed_through|].
      rewrite bool_decide_eq_true_2 by eauto. discriminate.
    - injection Htag as <- <- <-.
      split; [reflexivity|]. split; [apply passed_through_refl | reflexivity]. }
  clear Htag. exists rec, rest, fr. split; [reflexivity|]. split; [exact Hfr|].
  rewrite write_ok_sam_write1 in H. unfold is_paired. rewrite Hflag in H.
  destruct (write_ok (Stream.output_file st) 0) eqn:Hw0; cbn [Z.ltb Z.compare] in H.
  2:{ injection H as <- <-. left. cbn. auto. }
  right.
  destruct (Z.eqb_spec (Z.land (flag rec) BAM_FPAIRED) 0) as [He|Hne]; cbn [negb] in H.
  { injection H as <- <-. left. cbn. auto 10. }
  right.
  set (out1 := {| Stream.written := Stream.written (Stream.output_file st) ++ [fr];
                  Stream.results := drop 1 (Stream.results (Stream.output_file st)) |}) in H.
  assert (write_ok out1 0 = write_ok (Stream.output_file st) 1) as Hw1
    by (apply (write_ok_drop _ _ 1 0); reflexivity).
  assert (forall mate input0 (short : bool),
            (short = true -> mate = Stream.bam_init1) ->
            (paired_read ← (if short && change_read_name opts then None
                            else tag_mate opts
                                   (bool_decide (is_Some (bam_aux_get rec (barcode_tag_name opts))))
                                   nm mate);
             let '(r1, output) := Stream.sam_write1 out1 paired_read in
             Some (if r1 <? 0 then -1 else 0,
                   {| Stream.input_file := input0; Stream.output_file := output;
                      Stream.barcodeArray := arr1 |})) = Some (r, st') ->
            Stream.input_file st' = input0
            /\ Stream.results (Stream.output_file st')
               = drop 2 (Stream.results (Stream.output_file st))
            /\ (short = true -> change_read_name opts = false)
            /\ exists fm,
                 passed_through mate fm
                 /\ ((r = -1 /\ write_ok (Stream.output_file st) 1 = false
                      /\ Stream.written (Stream.output_file st')
                         = Stream.written (Stream.output_file st) ++ [fr])
                     \/ (r = 0 /\ write_ok (Stream.output_file st) 1 = true
                         /\ Stream.written (Stream.output_file st')
                            = Stream.written (Stream.output_file st) ++ [fr; fm]))) as Hmate.
  { intros mate input0 short Hshort Hm.
    destruct (short && change_read_name opts) eqn:Hsc; [discriminate|].
    destruct (tag_mate _ _ _ _) as [fm|] eqn:Htm; [|discriminate].
    cbn [mbind option_bind] in Hm. rewrite write_ok_sam_write1, Hw1 in Hm.
    assert (passed_through mate fm) as Hpm.
    { destruct (tag_mate_Some _ _ _ _ _ Htm)
        as [(_ & n & _ & ->)|[(_ & _ & ->)|(Hpf & n & Hn & _)]].
      - apply tagged_passed_through.
      - apply passed_through_refl.
      - rewrite (Hnm Hpf) in Hn. discriminate. }
    assert (short = true -> change_read_name opts = false) as Hcr.
    { intros ->. exact Hsc. }
    destruct (write_ok (Stream.output_file st) 1); cbn [Z.ltb Z.compare] in Hm;
      injection Hm as <- <-; cbn [Stream.input_file Stream.output_file Stream.results
                                   Stream.written out1];
      (split; [reflexivity|]); (split; [rewrite drop_drop; reflexivity|]);
      (split; [exact Hcr|]); exists fm; (split; [exact Hpm|]).
    - right. rewrite <- app_assoc. auto.
    - left. auto. }
  destruct rest as [|mate rest']; cbn [Stream.sam_read1 Z.ltb Z.compare] in H.
  - destruct (Hmate Stream.bam_init1 [] true (fun _ => eq_refl) H) as (H1 & H2 & H3 & H4).
    split; [exact Hne|]. split; [reflexivity|]. split; [exact H1|]. split; [exact H2|].
    split; [intros _; apply H3; reflexivity|]. exact H4.
  - destruct (Hmate mate rest' false (fun Hf => False_ind _ (Bool.diff_false_true Hf)) H)
      as (H1 & H2 & _ & H4).
    split; [exact Hne|]. split; [reflexivity|]. split; [exact H1|]. split; [exact H2|].
    split; [discriminate|]. exact H4.
Qed.

(** A call of [Stream.processRecord] that is not defined. *)
Lemma stream_processRecord_None opts st :
  Stream.processRecord opts st = None ->
  exists rec rest,
    Stream.input_file st = rec :: rest
    /\ ((exists sq, bam_aux_get rec (barcode_tag_name opts) = Some sq
                    /\ tag_record opts rec sq (Stream.barcodeArray st) = None)
        \/ (write_ok (Stream.output_file st) 0 = true /\ is_paired rec
            /\ change_read_name opts = true
            /\ (rest = [] \/ bam_aux_get rec (barcode_tag_name opts) = None))).
Proof.
  unfold Stream.processRecord. intros H.
  destruct (Stream.input_file st) as [|rec rest] eqn:Hin;
    cbn [Stream.sam_read1 Z.ltb Z.compare] in H; [discriminate|].
  exists rec, rest. split; [reflexivity|].
  destruct (bam_aux_get rec (barcode_tag_name opts)) as [sq|] eqn:Hp.
  - destruct (tag_record opts rec sq (Stream.barcodeArray st)) as [[[fr n] arr1]|] eqn:Ht;
      [|left; eauto].
    right. cbn [mbind option_bind] in H.
    destruct (tag_record_Some _ _ _ _ _ _ _ Ht) as (-> & _).
    rewrite write_ok_sam_write1, flag_tagged in H. unfold is_paired.
    destruct (write_ok (Stream.output_file st) 0); cbn [Z.ltb Z.compare] in H;
      [|discriminate].
    destruct (Z.eqb_spec (Z.land (flag rec) BAM_FPAIRED) 0) as [He|Hne]; cbn [negb] in H;
      [discriminate|].
    rewrite bool_decide_eq_true_2 in H by eauto.
    destruct rest as [|mate rest']; cbn [Stream.sam_read1 Z.ltb Z.compare andb] in H.
    + destruct (change_read_name opts) eqn:Hcr; [auto 10|].
      rewrite tag_mate_tagged in H. cbn [mbind option_bind] in H.
      destruct (Stream.sam_write1 _ _); discriminate.
    + rewrite tag_mate_tagged in H. cbn [mbind option_bind] in H.
      destruct (Stream.sam_write1 _ _); discriminate.
  - right. cbn [mbind option_bind] in H.
    rewrite write_ok_sam_write1 in H. unfold is_paired.
    destruct (write_ok (Stream.output_file st) 0); cbn [Z.ltb Z.compare] in H;
      [|discriminate].
    destruct (Z.eqb_spec (Z.land (flag rec) BAM_FPAIRED) 0) as [He|Hne]; cbn [negb] in H;
      [discriminate|].
    rewrite bool_decide_eq_false_2 in H by (intros [? ?]; discriminate).
    destruct (change_read_name opts) eqn:Hcr; [auto 10|].
    exfalso. unfold tag_mate in H. rewrite Hcr in H.
    destruct rest as [|mate rest']; cbn [Stream.sam_read1 Z.ltb Z.compare andb] in H;
      cbn [mbind option_bind] in H; destruct (Stream.sam_write1 _ _); discriminate.
Qed.

(** A call of [processRecord] on a stream that can fail. It is not
    defined only when the conversion or the matching of the barcode of
    the record is not (undefined behaviour), or when the record is
    written, has its paired flag set, names are suffixed, and there is no
    mate at all or no barcode attribute: [add_suffix] then gets the
    record of [bam_init1], which has no name, or no name to append. A
    defined call ends in one of five ways. It returns 1 at the end of
    the input and changes nothing. Otherwise it takes the next record and
    writes it with the same flags and attributes but for the read group
    and, at most, a suffix on the name. When that write fails it returns
    -1 and nothing is written. When it succeeds and the record does not
    have its paired flag set it returns 0. When it succeeds and the
    record has its paired flag set, the next record is taken as the mate,
    or, at the end of the input, the record of [bam_init1], and is
    written in the same way: the call returns -1 with the first record
    written when this second write fails, and 0 with both written when it
    succeeds. A call uses up the result of one write, and of a second one
    when it gets to the mate. *)
Theorem processRecord_outcomes (opts : opts_t) (st : Stream.state_t) :
  match Stream.processRecord opts st with
  | None =>
      exists rec rest,
        Stream.input_file st = rec :: rest
        /\ ((exists sq, bam_aux_get rec (barcode_tag_name opts) = Some sq
                        /\ tag_record opts rec sq (Stream.barcodeArray st) = None)
            \/ (write_ok (Stream.output_file st) 0 = true /\ is_paired rec
                /\ change_read_name opts = true
                /\ (rest = [] \/ bam_aux_get rec (barcode_tag_name opts) = None)))
  | Some (r, st') =>
      (r = 1 /\ Stream.input_file st = [] /\ st' = st)
      \/ exists rec rest fr,
           Stream.input_file st = rec :: rest
           /\ passed_through rec fr
           /\ ((r = -1 /\ write_ok (Stream.output_file st) 0 = false
                /\ Stream.input_file st' = rest
                /\ Stream.written (Stream.output_file st')
                   = Stream.written (Stream.output_file st)
                /\ Stream.results (Stream.output_file st')
                   = drop 1 (Stream.results (Stream.output_file st)))
               \/ (r = 0 /\ ~ is_paired rec
                   /\ write_ok (Stream.output_file st) 0 = true
                   /\ Stream.input_file st' = rest
                   /\ Stream.written (Stream.output_file st')
                      = Stream.written (Stream.output_file st) ++ [fr]
                   /\ Stream.results (Stream.output_file st')
                      = drop 1 (Stream.results (Stream.output_file st)))
               \/ (is_paired rec
                   /\ write_ok (Stream.output_file st) 0 = true
                   /\ Stream.input_file st' = drop 1 rest
                   /\ Stream.results (Stream.output_file st')
                      = drop 2 (Stream.results (Stream.output_file st))
                   /\ (rest = [] -> change_read_name opts = false)
                   /\ exists fm,
                        passed_through (default Stream.bam_init1 (head rest)) fm
                        /\ ((r = -1 /\ write_ok (Stream.output_file st) 1 = false
                             /\ Stream.written (Stream.output_file st')
                                = Stream.written (Stream.output_file st) ++ [fr])
                            \/ (r = 0 /\ write_ok (Stream.output_file st) 1 = true
                                /\ Stream.written (Stream.output_file st')
                                   = Stream.written (Stream.output_file st) ++ [fr; fm]))))
  end.
Proof.
  destruct (Stream.processRecord opts st) as [[r st']|] eqn:Hproc.
  - apply (stream_processRecord_shape _ _ _ _ Hproc).
  - apply (stream_processRecord_None _ _ Hproc).
Qed.

Lemma processRecord_outcomes_witness :
  (exists st' fr,
     Stream.processRecord suffix_opts (Stream.start_state [read1; read2] [true; false])
     = Some (-1, st')
     /\ Stream.input_file st' = []
     /\ Stream.written (Stream.output_file st') = [fr]
     /\ passed_through read1 fr)
  /\ (exists st' fr fm,
        Stream.processRecord default_opts (Stream.start_state [read1] []) = Some (0, st')
        /\ Stream.written (Stream.output_file st') = [fr; fm]
        /\ passed_through read1 fr
        /\ passed_through Stream.bam_init1 fm)
  /\ Stream.processRecord suffix_opts (Stream.start_state [read1] []) = None.
Proof.
  split; [|split].
  - pose proof (processRecord_outcomes suffix_opts
                  (Stream.start_state [read1; read2] [true; false])) as H.
    destruct (Stream.processRecord suffix_opts
                (Stream.start_state [read1; read2] [true; false]))
      as [[r st']|] eqn:Hrun; [|discriminate Hrun].
    injection Hrun as <- <-.
    destruct H as [(H & _)|(rec & rest & fr & Hin & Hfr & Hcases)]; [discriminate H|].
    injection Hin as <- <-.
    destruct Hcases as [(_ & H & _)|[(H & _)|(_ & _ & Hrest & _ & _ & fm & _ & Hw)]];
      [discriminate H | discriminate H |].
    destruct Hw as [(_ & _ & Hw)|(H & _)]; [|discriminate H].
    eexists _, fr. split; [reflexivity|]. split; [exact Hrest|].
    split; [exact Hw | exact Hfr].
  - pose proof (processRecord_outcomes default_opts (Stream.start_state [read1] [])) as H.
    destruct (Stream.processRecord default_opts (Stream.start_state [read1] []))
      as [[r st']|] eqn:Hrun; [|discriminate Hrun].
    injection Hrun as <- <-.
    destruct H as [(H & _)|(rec & rest & fr & Hin & Hfr & Hcases)]; [discriminate H|].
    injection Hin as <- <-.
    destruct Hcases as [(H & _)|[(_ & H & _)|(_ & _ & _ & _ & _ & fm & Hfm & Hw)]];
      [discriminate H | exfalso; apply H; discriminate |].
    destruct Hw as [(H & _)|(_ & _ & Hw)]; [discriminate H|].
    eexists _, fr, fm. split; [reflexivity|]. split; [exact Hw|].
    split; [exact Hfr | exact Hfm].
  - pose proof (processRecord_outcomes suffix_opts (Stream.start_state [read1] [])) as H.
    destruct (Stream.processRecord suffix_opts (Stream.start_state [read1] []))
      as [[r st']|] eqn:Hrun; [|reflexivity].
    discriminate Hrun.
Defined.

(** The table a defined call of [Stream.processRecord] leaves behind. *)
Lemma stream_processRecord_table opts st r st' rec rest :
  Stream.processRecord opts st = Some (r, st') ->
  Stream.input_file st = rec :: rest ->
  match bam_aux_get rec (barcode_tag_name opts) with
  | Some sq =>
      exists fr n,
        tag_record opts rec sq (Stream.barcodeArray st)
        = Some (fr, n, Stream.barcodeArray st')
  | None => Stream.barcodeArray st' = Stream.barcodeArray st
  end.
Proof.
  unfold Stream.processRecord. intros H Hin. rewrite Hin in H.
  cbn [Stream.sam_read1 Z.ltb Z.compare] in H.
  assert (forall fr (nm : option cstring) arr1,
            (let '(r0, output) := Stream.sam_write1 (Stream.output_file st) fr in
             if r0 <? 0
             then Some (-1, {| Stream.input_file := rest; Stream.output_file := output;
                               Stream.barcodeArray := arr1 |})
             else if negb (Z.land (flag fr) BAM_FPAIRED =? 0)
                  then let '(r1, paired_read, input0) :=
                         Stream.sam_read1 rest Stream.bam_init1 in
                       paired_read0 ←
                         (if (r1 <? 0) && change_read_name opts then None
                          else tag_mate opts
                                 (bool_decide
                                    (is_Some (bam_aux_get rec (barcode_tag_name opts))))
                                 nm paired_read);
                       let '(r2, output0) := Stream.sam_write1 output paired_read0 in
                       Some (if r2 <? 0 then -1 else 0,
                             {| Stream.input_file := input0;
                                Stream.output_file := output0;
                                Stream.barcodeArray := arr1 |})
                  else Some (0, {| Stream.input_file := rest;
                                   Stream.output_file := output;
                                   Stream.barcodeArray := arr1 |})) = Some (r, st') ->
            Stream.barcodeArray st' = arr1) as Hrest.
  { intros fr nm arr1 Hw.
    destruct (Stream.sam_write1 (Stream.output_file st) fr) as [r0 output].
    destruct (r0 <? 0); [injection Hw as <- <-; reflexivity|].
    destruct (negb _); [|injection Hw as <- <-; reflexivity].
    destruct (Stream.sam_read1 rest Stream.bam_init1) as [[r1 pr] input0].
    destruct (if (r1 <? 0) && change_read_name opts then None else _) as [pr0|];
      [|discriminate].
    cbn [mbind option_bind] in Hw.
    destruct (Stream.sam_write1 output pr0) as [r2 output0].
    injection Hw as <- <-. reflexivity. }
  destruct (bam_aux_get rec (barcode_tag_name opts)) as [sq|] eqn:Hp.
  - destruct (tag_record opts rec sq (Stream.barcodeArray st)) as [[[fr n] arr1]|] eqn:Ht;
      [|discriminate].
    cbn [mbind option_bind] in H. apply Hrest in H. rewrite H. eauto.
  - cbn [mbind option_bind] in H. apply Hrest in H. exact H.
Qed.

(** On a stream that can fail, too, every defined call of
    [processRecord] counts exactly one read when the record it reads
    carries the barcode attribute, and none otherwise: over the whole
    table [reads] grows by 1 ([pf_reads] by 1 for a pass-filter read),
    whether a write fails or not, and whether the mate is read, missing
    or not asked for. *)
Theorem processRecord_counts_on_stream (opts : opts_t) (st st' : Stream.state_t) (r : Z)
    (rec : bam1_t) (rest : list bam1_t) :
  Stream.processRecord opts st = Some (r, st') ->
  Stream.input_file st = rec :: rest ->
  Forall counters_below_max (entries (Stream.barcodeArray st)) ->
  let counted := bool_decide (is_Some (bam_aux_get rec (barcode_tag_name opts))) in
  sum_of reads (entries (Stream.barcodeArray st'))
  = sum_of reads (entries (Stream.barcodeArray st)) + b2z counted
  /\ sum_of pf_reads (entries (Stream.barcodeArray st'))
     = sum_of pf_reads (entries (Stream.barcodeArray st))
       + b2z (counted && is_pass_filter rec).
Proof.
  intros Hproc Hin Hb counted. subst counted.
  pose proof (stream_processRecord_table _ _ _ _ _ _ Hproc Hin) as Htab.
  destruct (bam_aux_get rec (barcode_tag_name opts)) as [sq|] eqn:Hp.
  - destruct Htab as (fr & n & Ht).
    rewrite bool_decide_eq_true_2 by eauto. cbn [b2z andb].
    destruct (tag_record_Some _ _ _ _ _ _ _ Ht) as (_ & newseq & i & bcd & _ & _ & _ & Hu).
    apply (updateMetrics_at_sums _ _ _ _ _ Hb Hu).
  - rewrite Htab. rewrite bool_decide_eq_false_2 by (intros [? ?]; discriminate).
    cbn [b2z andb]. lia.
Qed.

Lemma processRecord_counts_on_stream_witness :
  exists st',
    Stream.processRecord default_opts (Stream.start_state [read1] [true; false])
    = Some (-1, st')
    /\ sum_of reads (entries (Stream.barcodeArray st'))
       = sum_of reads (entries two_barcodes) + 1.
Proof.
  eexists. split; [reflexivity|].
  refine (proj1 (processRecord_counts_on_stream default_opts
                   (Stream.start_state [read1] [true; false]) _ (-1)
                   read1 [] eq_refl eq_refl _)).
  repeat constructor; unfold counters_below_max, INT_MAX; simpl; lia.
Defined.

(** ** The record loop *)

Lemma stream_process_records_nil fuel opts st :
  Stream.input_file st = [] ->
  Stream.process_records (S fuel) opts st = Stream.Finished 1 st.
Proof.
  intros H. cbn [Stream.process_records]. unfold Stream.processRecord.
  rewrite H. reflexivity.
Qed.

(** A round that took the records [taken] and wrote them as [outs],
    followed by a run that ends with [res]. *)
Lemma run_ends_continue opts st st1 taken outs res :
  Stream.step opts st st1 ->
  Stream.input_file st = taken ++ Stream.input_file st1 ->
  Stream.written (Stream.output_file st1)
  = Stream.written (Stream.output_file st) ++ outs ->
  Stream.results (Stream.output_file st1)
  = drop (length outs) (Stream.results (Stream.output_file st)) ->
  (forall k, (k < length outs)%nat -> write_ok (Stream.output_file st) k = true) ->
  Forall2 passed_through taken outs ->
  run_ends opts st1 res -> run_ends opts st res.
Proof.
  intros Hstep Hin Hwr Hres Hok Hf Hends.
  pose proof (Forall2_length _ _ _ Hf) as Hlen.
  destruct res as [r st'| |]; cbn [run_ends] in *; [| |exact Hends].
  - destruct Hends as (outs' & Hwr' & Hok' & Hcases).
    exists (outs ++ outs'). rewrite Hwr', Hwr, app_assoc. split; [reflexivity|].
    rewrite length_app. split.
    { intros k Hk. destruct (decide (k < length outs)%nat) as [Hlt|Hge]; [auto|].
      replace k with (length outs + (k - length outs))%nat by lia.
      rewrite <- (write_ok_drop _ _ _ _ Hres). apply Hok'. lia. }
    destruct Hcases as [(-> & Hnil & Hres' & extra & Hextra & Hf')
                       |(-> & Hfail & Hin' & Hres' & Hle & Hf')].
    + left. split; [reflexivity|]. split; [exact Hnil|].
      split; [rewrite Hres', Hres, drop_drop; reflexivity|].
      exists extra. split.
      * destruct Hextra as [->|(-> & Hcr & rec & Hlast & Hp)]; [left; reflexivity|].
        right. split; [reflexivity|]. split; [exact Hcr|]. exists rec.
        split; [|exact Hp]. rewrite Hin, last_app, Hlast. reflexivity.
      * rewrite Hin, <- app_assoc. apply Forall2_app; assumption.
    + right. split; [reflexivity|].
      split; [rewrite <- (write_ok_drop _ _ _ _ Hres); exact Hfail|].
      split; [rewrite Hin', Hin, <- Hlen, <- Nat.add_succ_r, <- drop_drop, drop_app_length;
              reflexivity|].
      split; [rewrite Hres', Hres, drop_drop, Nat.add_succ_r; reflexivity|].
      split; [rewrite Hin, length_app; lia|].
      rewrite Hin, <- Hlen, take_app_add'. 2: reflexivity.
      apply Forall2_app; [exact Hf|]. exact Hf'.
  - destruct Hends as (st2 & Hrtc & Hnone).
    exists st2. split; [|exact Hnone]. eapply rtc_l; [exact Hstep | exact Hrtc].
Qed.

(** The loop of [decode] over the records ends: more rounds than the
    input has records are never needed. A run is undefined only when it
    reaches a call of [processRecord] that is not defined (undefined
    behaviour in the conversion or the matching of a barcode, or
    [add_suffix] with no name to append or on the record of [bam_init1],
    which has no name). Every other run ends with
    the return value 1 or -1, having written the records [outs], each
    write before the last call succeeding. With 1 the input is used up
    and [outs] has one record per input record, in order, each the input
    record but for the read group and, at most, a suffix on the name;
    when the last record has its paired flag set and no mate behind it,
    one more record is written than was read, the record of [bam_init1]
    passed through in the same way. With -1 a write has failed, the first
    one or a later one: [outs] are the records of the input before the
    one whose write failed, which is taken from the input and lost. *)
Theorem process_records_ends (opts : opts_t) (fuel : nat) (st : Stream.state_t) :
  (length (Stream.input_file st) < fuel)%nat ->
  match Stream.process_records fuel opts st with
  | Stream.OutOfFuel => False
  | Stream.RunUndefined =>
      exists st1, rtc (Stream.step opts) st st1 /\ Stream.processRecord opts st1 = None
  | Stream.Finished r st' =>
      exists outs,
        Stream.written (Stream.output_file st')
        = Stream.written (Stream.output_file st) ++ outs
        /\ (forall k, (k < length outs)%nat -> write_ok (Stream.output_file st) k = true)
        /\ ((r = 1 /\ Stream.input_file st' = []
             /\ Stream.results (Stream.output_file st')
                = drop (length outs) (Stream.results (Stream.output_file st))
             /\ exists extra,
                  (extra = []
                   \/ (extra = [Stream.bam_init1] /\ change_read_name opts = false
                       /\ exists rec, last (Stream.input_file st) = Some rec
                                      /\ is_paired rec))
                  /\ Forall2 passed_through (Stream.input_file st ++ extra) outs)
            \/ (r = -1 /\ write_ok (Stream.output_file st) (length outs) = false
                /\ Stream.input_file st'
                   = drop (S (length outs)) (Stream.input_file st)
                /\ Stream.results (Stream.output_file st')
                   = drop (S (length outs)) (Stream.results (Stream.output_file st))
                /\ (length outs <= length (Stream.input_file st))%nat
                /\ Forall2 passed_through
                     (take (length outs) (Stream.input_file st)) outs))
  end.
Proof.
  change ((length (Stream.input_file st) < fuel)%nat ->
          run_ends opts st (Stream.process_records fuel opts st)).
  revert st. induction fuel as [|fuel IH]; intros st Hfuel; [lia|].
  cbn [Stream.process_records].
  destruct (Stream.processRecord opts st) as [[r st1]|] eqn:Hproc.
  2:{ exists st. split; [apply rtc_refl | exact Hproc]. }
  destruct (stream_processRecord_shape _ _ _ _ Hproc)
    as [(-> & Hnil & ->)|(rec & rest & fr & Hin & Hfr & Hcases)].
  { cbn [Z.eqb run_ends]. exists []. rewrite app_nil_r. split; [reflexivity|].
    split; [simpl; lia|]. left. split; [reflexivity|]. split; [exact Hnil|].
    split; [reflexivity|]. exists []. split; [left; reflexivity|].
    rewrite Hnil. constructor. }
  rewrite Hin in Hfuel. cbn [length] in Hfuel.
  destruct Hcases as [(-> & Hw0 & Hrest & Hwr & Hres)
                     |[(-> & Hnp & Hw0 & Hrest & Hwr & Hres)
                      |(Hp & Hw0 & Hrest & Hres & Hcr & fm & Hfm & Hsecond)]].
  - cbn [Z.eqb run_ends]. exists []. rewrite app_nil_r. split; [exact Hwr|].
    split; [simpl; lia|]. right. cbn [length]. rewrite Hin.
    split; [reflexivity|]. split; [exact Hw0|]. split; [exact Hrest|].
    split; [exact Hres|]. split; [simpl; lia | constructor].
  - cbn [Z.eqb]. apply (run_ends_continue opts st st1 [rec] [fr]).
    + exact Hproc.
    + rewrite Hrest. exact Hin.
    + exact Hwr.
    + exact Hres.
    + intros [|k] Hk; [exact Hw0 | simpl in Hk; lia].
    + constructor; [exact Hfr | constructor].
    + apply IH. rewrite Hrest. lia.
  - destruct Hsecond as [(-> & Hw1 & Hwr)|(-> & Hw1 & Hwr)].
    + cbn [Z.eqb run_ends]. exists [fr]. split; [exact Hwr|].
      split; [intros [|k] Hk; [exact Hw0 | simpl in Hk; lia]|].
      right. cbn [length]. rewrite Hin.
      split; [reflexivity|]. split; [exact Hw1|]. split; [exact Hrest|].
      split; [exact Hres|]. split; [simpl; lia|].
      cbn [take]. constructor; [exact Hfr | constructor].
    + cbn [Z.eqb]. destruct rest as [|mate rest'].
      * cbn [drop] in Hrest. destruct fuel as [|fuel]; [lia|].
        rewrite stream_process_records_nil by exact Hrest.
        cbn [run_ends]. exists [fr; fm]. split; [exact Hwr|].
        split; [intros [|[|k]] Hk; [exact Hw0 | exact Hw1 | simpl in Hk; lia]|].
        left. split; [reflexivity|]. split; [exact Hrest|]. split; [exact Hres|].
        exists [Stream.bam_init1]. split.
        -- right. split; [reflexivity|]. split; [apply Hcr; reflexivity|].
           exists rec. rewrite Hin. split; [reflexivity | exact Hp].
        -- rewrite Hin. cbn [app]. constructor; [exact Hfr|].
           constructor; [exact Hfm | constructor].
      * change (drop 1 (mate :: rest')) with rest' in Hrest.
        apply (run_ends_continue opts st st1 [rec; mate] [fr; fm]).
        -- exact Hproc.
        -- rewrite Hrest. exact Hin.
        -- exact Hwr.
        -- exact Hres.
        -- intros [|[|k]] Hk; [exact Hw0 | exact Hw1 | simpl in Hk; lia].
        -- constructor; [exact Hfr|]. constructor; [exact Hfm | constructor].
        -- apply IH. rewrite Hrest. cbn [length] in Hfuel. lia.
Qed.

Lemma process_records_ends_witness :
  (length (Stream.input_file (Stream.start_state [read1] [])) < 3)%nat
  /\ (exists st' outs,
        Stream.process_records 3 default_opts (Stream.start_state [read1] [])
        = Stream.Finished 1 st'
        /\ Stream.written (Stream.output_file st') = outs
        /\ Forall2 passed_through [read1; Stream.bam_init1] outs)
  /\ (exists st' outs,
        Stream.process_records 5 default_opts
          (Stream.start_state [read1; read2; plain1; plain2] [true; true; false])
        = Stream.Finished (-1) st'
        /\ Stream.written (Stream.output_file st') = outs
        /\ Forall2 passed_through [read1; read2] outs
        /\ Stream.input_file st' = [plain2]).
Proof.
  assert (length (Stream.input_file (Stream.start_state [read1] [])) < 3)%nat as H
    by (simpl; lia).
  assert (length (Stream.input_file
                    (Stream.start_state [read1; read2; plain1; plain2] [true; true; false]))
          < 5)%nat as H' by (simpl; lia).
  split; [exact H|]. split.
  - pose proof (process_records_ends default_opts 3 (Stream.start_state [read1] []) H)
      as Hends.
    destruct (Stream.process_records 3 default_opts (Stream.start_state [read1] []))
      as [r st'| |] eqn:Hrun; [|discriminate Hrun|contradiction].
    injection Hrun as <- <-.
    destruct Hends as (outs & Hw & _ & [(_ & _ & _ & extra & Hextra & Hf)|(Hr & _)]);
      [|discriminate Hr].
    eexists _, outs. split; [reflexivity|]. split; [exact Hw|].
    destruct Hextra as [->|(-> & _)]; [|exact Hf].
    apply Forall2_length in Hf. apply (f_equal length) in Hw.
    cbn in Hw, Hf. rewrite <- Hf in Hw. discriminate Hw.
  - pose proof (process_records_ends default_opts 5
                  (Stream.start_state [read1; read2; plain1; plain2] [true; true; false]) H')
      as Hends.
    destruct (Stream.process_records 5 default_opts
                (Stream.start_state [read1; read2; plain1; plain2] [true; true; false]))
      as [r st'| |] eqn:Hrun; [|discriminate Hrun|contradiction].
    injection Hrun as <- <-.
    destruct Hends as (outs & Hw & _ & [(Hr & _)|(_ & _ & Hin & _ & _ & Hf)]);
      [discriminate Hr|].
    eexists _, outs. split; [reflexivity|]. split; [exact Hw|].
    apply (f_equal length) in Hw. cbn in Hw.
    destruct outs as [|o1 [|o2 [|o3 outs]]]; try discriminate Hw.
    split; [exact Hf | exact Hin].
Defined.

(** ** Barcodes longer than the tag *)

(** Bases behind the tag length are never examined. Without quality
    conversion (not configured, or no quality attribute on the record), a
    record whose barcode attribute has further bases behind the tag
    length is matched, counted and tagged exactly as with the barcode cut
    to the tag length. *)
Theorem tag_record_truncates (opts : opts_t) (rec : bam1_t) (sq extra : cstring)
    (arr : bc_array_t) :
  0 <= tag_len arr <= INT_MAX ->
  strlen sq = tag_len arr ->
  convert_low_quality opts = false \/ bam_aux_get rec (quality_tag_name opts) = None ->
  tag_record opts rec (sq ++ extra) arr = tag_record opts rec sq arr.
Proof.
  intros HL Hlen Hq. unfold tag_record.
  assert ((if convert_low_quality opts
           then match bam_aux_get rec (quality_tag_name opts) with
                | Some qual => checkBarcodeQuality (sq ++ extra) (Some qual)
                                 (max_low_quality_to_convert opts)
                | None => Some (sq ++ extra)
                end
           else Some (sq ++ extra)) = Some (sq ++ extra)) as ->.
  { destruct Hq as [-> | ->]; [reflexivity|]. destruct (convert_low_quality opts); reflexivity. }
  assert ((if convert_low_quality opts
           then match bam_aux_get rec (quality_tag_name opts) with
                | Some qual => checkBarcodeQuality sq (Some qual)
                                 (max_low_quality_to_convert opts)
                | None => Some sq
                end
           else Some sq) = Some sq) as ->.
  { destruct Hq as [-> | ->]; [reflexivity|]. destruct (convert_low_quality opts); reflexivity. }
  rewrite Z.mod_small by (unfold INT_MAX in HL; lia).
  destruct (Z.ltb_spec (tag_len arr) (strlen sq)) as [|_]; [lia|].
  unfold strlen in *. rewrite length_app.
  destruct (Z.ltb_spec (tag_len arr) (Z.of_nat (length sq + length extra))) as [Hlt|Hge].
  - cbn [mbind option_bind].
    rewrite take_app_length' by lia. reflexivity.
  - assert (extra = []) as -> by (destruct extra; [reflexivity | simpl in Hge; lia]).
    rewrite app_nil_r. reflexivity.
Qed.

Lemma tag_record_truncates_witness :
  strlen (cstr "AAAC") = tag_len two_barcodes
  /\ tag_record default_opts read1 (cstr "AAAC" ++ cstr "GGTT") two_barcodes
     = tag_record default_opts read1 (cstr "AAAC") two_barcodes.
Proof.
  split; [reflexivity|].
  refine (tag_record_truncates default_opts read1 (cstr "AAAC") (cstr "GGTT")
            two_barcodes _ eq_refl (or_introl eq_refl)).
  unfold INT_MAX. simpl. lia.
Defined.

(** ** The read groups of the rewritten header *)

Lemma changeHeader_result arr sh version argv_list :
  Forall rg_ok (rg sh) ->
  changeHeader arr sh version argv_list
  = Some {| rg := concat (map (new_rgs (drop 1 (entries arr))) (rg sh));
            pg := pg sh ++ [[cstr "ID:bambi"; cstr "PN:bambi";
                             cstr "VN:" ++ version; cstr "CL:" ++ argv_list]] |}.
Proof.
  intros Hok. unfold changeHeader. unfold sam_hdr_add_PG at 1 2. cbn [rg pg].
  rewrite add_new_RGs_new_rgs by assumption. reflexivity.
Qed.

Lemma new_rgs_names es r :
  map rg_name (new_rgs es r)
  = map (fun n => rg_name r ++ "#"%char :: n) (cstr "0" :: map name es).
Proof.
  unfold new_rgs. cbn [map new_rg rg_name]. f_equal.
  rewrite !List.map_map. reflexivity.
Qed.

Lemma hash_suffix_inj a : forall a' n n',
  "#"%char ∉ n -> "#"%char ∉ n' ->
  a ++ "#"%char :: n = a' ++ "#"%char :: n' -> a = a' /\ n = n'.
Proof.
  induction a as [|c a IH]; intros [|c' a'] n n' Hn Hn' Heq; cbn [app] in Heq.
  - injection Heq as ->. auto.
  - injection Heq as <- ->. exfalso. apply Hn.
    apply elem_of_app. right. left.
  - injection Heq as -> <-. exfalso. apply Hn'.
    apply elem_of_app. right. left.
  - injection Heq as <- Heq. destruct (IH _ _ _ Hn Hn' Heq) as [-> ->]. auto.
Qed.

Lemma new_ids_NoDup names rs :
  NoDup names -> Forall (fun n => "#"%char ∉ n) names ->
  NoDup (map rg_name rs) ->
  NoDup (concat (map (fun r => map (fun n => rg_name r ++ "#"%char :: n) names) rs)).
Proof.
  intros Hnames Hhash. rewrite Forall_forall in Hhash.
  induction rs as [|r rs IH]; cbn [map concat]; [constructor|].
  intros [Hr Hrs]%NoDup_cons. apply NoDup_app. split; [|split].
  - change (NoDup ((fun n => rg_name r ++ "#"%char :: n) <$> names)).
    apply NoDup_fmap_2_strong; [|exact Hnames].
    intros x y Hx Hy Heq. apply (hash_suffix_inj _ _ _ _ (Hhash _ Hx) (Hhash _ Hy) Heq).
  - intros x Hx Hin.
    apply list_elem_of_fmap in Hx as (n & -> & Hn).
    apply list_elem_of_In, List.in_concat in Hin as (l & Hl & Hx).
    apply list_elem_of_In, list_elem_of_fmap in Hl as (r' & -> & Hr').
    apply list_elem_of_In, list_elem_of_fmap in Hx as (n' & Heq & Hn').
    destruct (hash_suffix_inj _ _ _ _ (Hhash _ Hn) (Hhash _ Hn') Heq) as [Hname _].
    apply Hr. rewrite Hname. apply list_elem_of_fmap. eauto.
  - apply IH. exact Hrs.
Qed.

(** The rewritten header declares every read group once. When the
    original IDs are distinct and the barcode names are distinct, differ
    from ["0"] and have no [#], all IDs of the rewritten header are
    distinct; and the header has the program lines it had, followed by the
    one of the tool. *)
Theorem changeHeader_ids_distinct (arr : bc_array_t) (sh : SAM_hdr)
    (version argv_list : cstring) :
  Forall rg_ok (rg sh) ->
  NoDup (map rg_name (rg sh)) ->
  NoDup (cstr "0" :: map name (drop 1 (entries arr))) ->
  Forall (fun n => "#"%char ∉ n) (map name (drop 1 (entries arr))) ->
  exists sh',
    changeHeader arr sh version argv_list = Some sh'
    /\ NoDup (map rg_name (rg sh'))
    /\ pg sh' = pg sh ++ [[cstr "ID:bambi"; cstr "PN:bambi";
                           cstr "VN:" ++ version; cstr "CL:" ++ argv_list]].
Proof.
  intros Hok Hids Hnames Hhash.
  rewrite changeHeader_result by assumption.
  eexists. split; [reflexivity|]. cbn [rg pg]. split; [|reflexivity].
  rewrite List.concat_map, List.map_map.
  rewrite (List.map_ext _ _ (new_rgs_names (drop 1 (entries arr)))).
  apply new_ids_NoDup; [exact Hnames | | exact Hids].
  constructor; [|exact Hhash].
  intros Hin. change (cstr "0") with ["0"%char] in Hin.
  apply elem_of_cons in Hin as [Hin|Hin]; [discriminate | inversion Hin].
Qed.

Lemma changeHeader_ids_distinct_witness :
  NoDup (map rg_name (rg one_read_group))
  /\ exists sh',
       changeHeader two_barcodes one_read_group (cstr "0.9") (cstr "bambi decode") = Some sh'
       /\ NoDup (map rg_name (rg sh')).
Proof.
  assert (NoDup (map rg_name (rg one_read_group))) as Hids.
  { cbn. apply NoDup_singleton. }
  split; [exact Hids|].
  destruct (changeHeader_ids_distinct two_barcodes one_read_group (cstr "0.9")
              (cstr "bambi decode") one_read_group_ok Hids) as (sh' & H1 & H2 & _).
  - cbn. repeat (apply NoDup_cons; split;
                 [rewrite ?elem_of_cons, elem_of_nil; vm_compute; intuition discriminate|]).
    constructor.
  - cbn. repeat (constructor;
                 [rewrite ?elem_of_cons, elem_of_nil; vm_compute; intuition discriminate|]).
    constructor.
  - exists sh'. auto.
Defined.

(** The read group written on a record is declared in the rewritten
    header. For a record whose read-group attribute is the ID of an
    original declaration, the attribute [processRecord] writes after the
    match is the ID of one of the new declarations, whichever entry is
    matched; the tables of the header rewrite and of the match have the
    same names, ["0"] for entry 0. *)
Theorem tagged_read_group_declared (opts : opts_t) (rec fr : bam1_t) (sq nm : cstring)
    (arr arr' arr0 : bc_array_t) (sh sh' : SAM_hdr) (version argv_list : cstring)
    (r : rg_t) :
  tag_record opts rec sq arr = Some (fr, nm, arr') ->
  map name (entries arr0) = map name (entries arr) ->
  map name (entries arr) !! 0%nat = Some (cstr "0") ->
  Forall rg_ok (rg sh) ->
  changeHeader arr0 sh version argv_list = Some sh' ->
  r ∈ rg sh ->
  bam_aux_get rec (cstr "RG") = Some (rg_name r) ->
  bam_aux_get fr (cstr "RG") = Some (rg_name r ++ "#"%char :: nm)
  /\ rg_name r ++ "#"%char :: nm ∈ map rg_name (rg sh').
Proof.
  intros Ht Hnames H0 Hok Hch Hr Hrg.
  destruct (tag_record_Some _ _ _ _ _ _ _ Ht) as (-> & _ & i & bcd & _ & Hi & -> & _).
  split.
  - rewrite aux_tagged, bam_aux_get_update, Hrg. reflexivity.
  - rewrite changeHeader_result in Hch by assumption. injection Hch as <-. cbn [rg].
    rewrite List.concat_map, List.map_map.
    apply list_elem_of_In, List.in_concat.
    exists (map rg_name (new_rgs (drop 1 (entries arr0)) r)). split.
    + apply List.in_map_iff. exists r. split; [reflexivity|].
      apply list_elem_of_In. exact Hr.
    + rewrite new_rgs_names.
      apply (List.in_map (fun n => rg_name r ++ "#"%char :: n)). apply list_elem_of_In.
      assert (map name (entries arr) !! i = Some (name bcd)) as Hni.
      { change map with (@fmap list _). rewrite list_lookup_fmap, Hi. reflexivity. }
      destruct i as [|j].
      * rewrite H0 in Hni. injection Hni as <-. left.
      * right. change map with (@fmap list _) in *.
        rewrite fmap_drop, Hnames. apply list_elem_of_lookup. exists j.
        rewrite lookup_drop. exact Hni.
Qed.

Lemma tagged_read_group_declared_witness :
  exists fr arr' sh',
    tag_record default_opts single_read (cstr "CCCC") two_barcodes
    = Some (fr, cstr "2", arr')
    /\ changeHeader two_barcodes one_read_group (cstr "0.9") (cstr "bambi decode") = Some sh'
    /\ bam_aux_get fr (cstr "RG") = Some (cstr "1#2")
    /\ cstr "1#2" ∈ map rg_name (rg sh').
Proof.
  do 3 eexists. split; [reflexivity|]. split; [reflexivity|].
  refine (tagged_read_group_declared default_opts single_read _ (cstr "CCCC") (cstr "2")
            two_barcodes _ two_barcodes one_read_group _ (cstr "0.9") (cstr "bambi decode")
            {| rg_name := cstr "1";
               rg_tag := [cstr "ID:1"; cstr "PL:Illumina"; cstr "PU:run7_1";
                          cstr "LB:pool"; cstr "SM:mix"] |}
            eq_refl eq_refl eq_refl one_read_group_ok eq_refl _ eq_refl).
  left.
Defined.

(** ** Reporting twice *)

(** Writing the metrics a second time gives the same file. The first
    call leaves the table as it was but for entry 0, whose name and
    perfect-match counters it blanks; the file has one line per entry;
    and a call on the table it leaves writes the same file and changes
    nothing more. When the file cannot be opened the call returns 1 and
    the table is as before. *)
Theorem writeMetrics_twice (arr : bc_array_t) (opts : opts_t) :
  entries arr <> [] ->
  writeMetrics arr opts false = Some (1, None, arr)
  /\ exists mf arr',
       writeMetrics arr opts true = Some (0, Some mf, arr')
       /\ length (mf_lines mf) = length (entries arr)
       /\ drop 1 (entries arr') = drop 1 (entries arr)
       /\ tag_len arr' = tag_len arr
       /\ writeMetrics arr' opts true = Some (0, Some mf, arr').
Proof.
  intros Hne. unfold writeMetrics.
  destruct (entries arr) as [|e0 es] eqn:He; [contradiction|]. cbn [negb].
  split; [reflexivity|].
  eexists _, _. split; [reflexivity|]. cbn [mf_lines entries set_entries tag_len].
  split; [rewrite length_app, length_map; simpl; lia|].
  split; [reflexivity|]. split; [reflexivity|]. reflexivity.
Qed.

Lemma writeMetrics_twice_witness :
  entries five_unmatched <> []
  /\ exists mf arr',
       writeMetrics five_unmatched default_opts true = Some (0, Some mf, arr')
       /\ writeMetrics arr' default_opts true = Some (0, Some mf, arr').
Proof.
  assert (entries five_unmatched <> []) as H by discriminate.
  split; [exact H|].
  destruct (writeMetrics_twice five_unmatched default_opts H)
    as (_ & mf & arr' & H1 & _ & _ & _ & H2).
  exists mf, arr'. auto.
Defined.

(** ** Rows and tables of the barcode file *)

Lemma split_token_no_delim d s : forall t r,
  split_token d s = (t, r) -> no_delim d t.
Proof.
  induction s as [|c s IH]; intros t r; cbn [split_token].
  - intros [= <- <-]. constructor.
  - destruct (is_delim d c) eqn:Hc.
    + intros [= <- <-]. constructor.
    + destruct (split_token d s) as [t' r']. intros [= <- <-].
      constructor; [exact Hc | eapply IH; reflexivity].
Qed.

Lemma strtok_r_token s d t r :
  strtok_r s d = (Some t, r) ->
  t <> [] /\ no_delim d t /\ (length t + length r <= length s)%nat.
Proof.
  intros H. destruct (strtok_r_Some _ _ _ _ H) as [Hne Hlen].
  split; [exact Hne|]. split; [|exact Hlen].
  unfold strtok_r in H. destruct (skip_delims d s) as [|c s']; [discriminate|].
  destruct (split_token d (c :: s')) as [t' r'] eqn:Hs.
  injection H as <- <-. eapply split_token_no_delim; eauto.
Qed.

Lemma parse_row_Some buf bcd :
  parse_row buf = Some bcd ->
  field_ok (seq bcd) /\ field_ok (name bcd) /\ field_ok (lib bcd)
  /\ field_ok (sample bcd) /\ field_ok (desc bcd)
  /\ counters_zero bcd
  /\ (length (seq bcd) <= length buf)%nat.
Proof.
  unfold parse_row.
  destruct (strtok_r buf [TAB]) as [[s1|] p1] eqn:H1; [|discriminate].
  destruct (strtok_r p1 [TAB]) as [[s2|] p2] eqn:H2; [|discriminate].
  destruct (strtok_r p2 [TAB]) as [[s3|] p3] eqn:H3; [|discriminate].
  destruct (strtok_r p3 [TAB]) as [[s4|] p4] eqn:H4; [|discriminate].
  destruct (strtok_r p4 [TAB]) as [[s5|] p5] eqn:H5; [|discriminate].
  cbn [mbind option_bind]. intros [= <-]. cbn.
  destruct (strtok_r_token _ _ _ _ H1) as (? & ? & ?).
  destruct (strtok_r_token _ _ _ _ H2) as (? & ? & ?).
  destruct (strtok_r_token _ _ _ _ H3) as (? & ? & ?).
  destruct (strtok_r_token _ _ _ _ H4) as (? & ? & ?).
  destruct (strtok_r_token _ _ _ _ H5) as (? & ? & ?).
  unfold field_ok, counters_zero. cbn. repeat split; try assumption; lia.
Qed.

(** Whatever the row, the entry made of it has five fields that are not
    empty and hold no tab, and counters that are all 0: empty fields
    between tabs are skipped, never stored. *)
Theorem parse_row_clean (buf : cstring) (bcd : bc_details_t) :
  parse_row buf = Some bcd ->
  field_ok (seq bcd) /\ field_ok (name bcd) /\ field_ok (lib bcd)
  /\ field_ok (sample bcd) /\ field_ok (desc bcd)
  /\ counters_zero bcd.
Proof.
  intros H. destruct (parse_row_Some _ _ H) as (? & ? & ? & ? & ? & ? & _). auto 10.
Qed.

Lemma parse_row_clean_witness :
  parse_row gappy_row = Some (new_details (cstr "AAAA") (cstr "1") (cstr "l") (cstr "s") (cstr "d"))
  /\ field_ok (cstr "AAAA").
Proof.
  split; [reflexivity|].
  exact (proj1 (parse_row_clean gappy_row
                  (new_details (cstr "AAAA") (cstr "1") (cstr "l") (cstr "s") (cstr "d"))
                  eq_refl)).
Defined.

Lemma parse_row_fields_witness :
  Forall (fun f => f <> [] /\ no_delim [TAB] f)
    [cstr "AAAA"; cstr "1"; cstr "libA"; cstr "sampleA"; cstr "descA"]
  /\ parse_row (cstr "AAAA" ++ TAB :: cstr "1" ++ TAB :: cstr "libA" ++ TAB
                :: cstr "sampleA" ++ TAB :: cstr "descA" ++ TAB :: cstr "more")
     = Some (new_details (cstr "AAAA") (cstr "1") (cstr "libA") (cstr "sampleA")
               (cstr "descA")).
Proof.
  assert (Forall (fun f => f <> [] /\ no_delim [TAB] f)
            [cstr "AAAA"; cstr "1"; cstr "libA"; cstr "sampleA"; cstr "descA"]) as H.
  { repeat constructor; discriminate. }
  split; [exact H|].
  exact (parse_row_fields (cstr "AAAA") (cstr "1") (cstr "libA") (cstr "sampleA")
           (cstr "descA") (TAB :: cstr "more") H eq_refl).
Defined.

Lemma file_lines_concat text : concat (file_lines text) = text.
Proof.
  induction text as [|c text IH]; cbn [file_lines]; [reflexivity|].
  destruct (c =? LF)%char; [cbn; rewrite IH; reflexivity|].
  destruct (file_lines text) as [|l ls]; cbn in *; rewrite <- IH; reflexivity.
Qed.

Lemma file_lines_line_length text l :
  l ∈ file_lines text -> (length l <= length text)%nat.
Proof.
  rewrite <- (file_lines_concat text) at 2. generalize (file_lines text).
  intros ls Hin. induction ls as [|l0 ls IH]; [inversion Hin|].
  cbn [concat]. rewrite length_app.
  apply elem_of_cons in Hin as [->|Hin]; [lia|]. specialize (IH Hin). lia.
Qed.

Lemma chomp_length buf : (length (chomp buf) <= length buf)%nat.
Proof.
  unfold chomp. destruct (last buf) as [c|]; [|lia].
  destruct (c =? LF)%char; [|lia].
  rewrite List.removelast_firstn_len, length_take. lia.
Qed.

Lemma load_rows_parse rows : forall arr L res,
  load_rows rows arr L = inr res -> exists bcds, rows_parse rows bcds.
Proof.
  induction rows as [|row rows IH]; intros arr L res H; cbn [load_rows] in H.
  - exists []. constructor.
  - destruct (parse_row (chomp row)) as [bcd|] eqn:Hrow; [|discriminate].
    assert (exists bcds, rows_parse rows bcds) as [bcds Hb].
    { destruct (L =? 0); [eapply IH; exact H|].
      destruct (bool_decide _); [discriminate | eapply IH; exact H]. }
    exists (bcd :: bcds). constructor; assumption.
Qed.

Lemma rows_parse_bound text header rows bcds :
  file_lines text = header :: rows -> rows_parse rows bcds ->
  strlen text <= INT_MAX ->
  Forall (fun bcd => strlen (seq bcd) <= INT_MAX) bcds.
Proof.
  intros Hlines Hp Hmax.
  assert (Forall (fun row => (length row <= length text)%nat) rows) as Hrows.
  { apply Forall_forall. intros row Hin. apply file_lines_line_length.
    rewrite Hlines. right. exact Hin. }
  clear Hlines.
  induction Hp as [|row bcd rows' bcds' Hrow Hrows' IH]; [constructor|].
  inversion Hrows as [|? ? Hr Hrs]; subst. constructor.
  - destruct (parse_row_Some _ _ Hrow) as (_ & _ & _ & _ & _ & _ & Hlen).
    pose proof (chomp_length row). unfold strlen in *. lia.
  - apply IH. exact Hrs.
Qed.

Lemma loadBarcodeFile_parsed text header rows bcds :
  file_lines text = header :: rows ->
  rows_parse rows bcds ->
  Forall (fun bcd => strlen (seq bcd) <= INT_MAX) bcds ->
  loadBarcodeFile (Some text) =
  if same_length_as_first bcds then Loaded (loaded_table bcds) else LoadError.
Proof.
  intros Hlines Hp Hmax. unfold loadBarcodeFile. rewrite Hlines.
  destruct Hp as [|row bcd rows' bcds' Hrow Hrows]; [reflexivity|].
  cbn [load_rows]. rewrite Hrow. cbn [Z.eqb].
  inversion Hmax as [|? ? Hb Hbs]; subst.
  destruct (parse_row_Some _ _ Hrow) as ([Hne _] & _).
  assert (0 < strlen (seq bcd)) as Hpos.
  { unfold strlen. destruct (seq bcd); [contradiction | simpl; lia]. }
  rewrite int_wrap_small by (unfold in_int, INT_MIN; lia).
  rewrite (load_rows_next rows' bcds') by (assumption || lia).
  unfold same_length_as_first. cbn [forallb]. rewrite Z.eqb_refl. cbn [andb].
  destruct (forallb _ bcds'); reflexivity.
Qed.

Lemma loadBarcodeFile_Loaded text arr :
  strlen text <= INT_MAX ->
  loadBarcodeFile (Some text) = Loaded arr ->
  exists header rows bcds,
    file_lines text = header :: rows
    /\ rows_parse rows bcds
    /\ same_length_as_first bcds = true
    /\ arr = loaded_table bcds.
Proof.
  intros Hmax Hload. pose proof Hload as Hload'. unfold loadBarcodeFile in Hload'.
  destruct (file_lines text) as [|header rows] eqn:Hlines; [discriminate|].
  destruct (load_rows rows bc_init 0) as [res|res] eqn:Hrows.
  - exfalso. clear Hload. revert Hload'. destruct res; try discriminate.
    intros _.
    assert (forall rows arr L a, load_rows rows arr L <> inl (Loaded a)) as Hno.
    { clear. induction rows as [|row rows IH]; intros arr L a; cbn [load_rows];
        [discriminate|].
      destruct (parse_row (chomp row)); [|discriminate].
      destruct (L =? 0); [apply IH|].
      destruct (bool_decide _); [discriminate | apply IH]. }
    eapply Hno. exact Hrows.
  - destruct (load_rows_parse _ _ _ _ Hrows) as [bcds Hp].
    pose proof (rows_parse_bound _ _ _ _ Hlines Hp Hmax) as Hb.
    rewrite (loadBarcodeFile_parsed _ _ _ _ Hlines Hp Hb) in Hload.
    destruct (same_length_as_first bcds) eqn:Hs; [|discriminate].
    injection Hload as <-. exists header, rows, bcds. auto.
Qed.

(** A table that [loadBarcodeFile] returns is fit for matching. For a
    text that fits an [int], the table has entry 0 with the name ["0"]
    and a sequence of [tag_len] ['N']s, one entry per data row behind it,
    each with a sequence of the length [tag_len] and five non-empty
    fields, and all counters are 0; it satisfies the conditions under
    which [findBestMatch] and the counters were described. *)
Theorem loadBarcodeFile_table (text : cstring) (arr : bc_array_t) :
  strlen text <= INT_MAX ->
  loadBarcodeFile (Some text) = Loaded arr ->
  table_ok arr
  /\ tag0_invariant arr
  /\ Forall counters_zero (entries arr)
  /\ length (entries arr) = length (file_lines text)
  /\ (exists e0, entries arr !! 0%nat = Some e0 /\ name e0 = cstr "0"
                 /\ seq e0 = replicate (Z.to_nat (tag_len arr)) "N"%char)
  /\ Forall (fun e => field_ok (seq e) /\ field_ok (name e))
            (drop 1 (entries arr)).
Proof.
  intros Hmax Hload.
  destruct (loadBarcodeFile_Loaded _ _ Hmax Hload)
    as (header & rows & bcds & Hlines & Hp & Hsame & ->).
  pose proof (rows_parse_bound _ _ _ _ Hlines Hp Hmax) as Hb.
  assert (Forall (fun e => field_ok (seq e) /\ field_ok (name e) /\ counters_zero e) bcds)
    as Hclean.
  { clear -Hp. induction Hp as [|row bcd rows' bcds' Hrow _ IH]; constructor; [|exact IH].
    destruct (parse_row_Some _ _ Hrow) as (? & ? & _ & _ & _ & ? & _). auto. }
  split; [|split; [|split; [|split; [|split]]]].
  - unfold table_ok, loaded_table. cbn [tag_len entries drop].
    destruct bcds as [|b0 bcds'].
    + unfold INT_MAX. split; [lia|]. split; [discriminate | constructor].
    + inversion Hb as [|? ? Hb0 _]; subst.
      split; [unfold strlen in *; lia|]. split; [discriminate|].
      cbn [same_length_as_first] in Hsame.
      apply Forall_forall. intros e He.
      rewrite forallb_forall in Hsame.
      apply Z.eqb_eq, Hsame, list_elem_of_In, He.
  - apply loaded_table_invariant.
  - unfold loaded_table. cbn [entries]. constructor; [repeat split|].
    eapply Forall_impl; [exact Hclean|]. intros e (_ & _ & Hz). exact Hz.
  - unfold loaded_table. cbn [entries length]. rewrite Hlines. cbn [length].
    f_equal. symmetry. eapply Forall2_length. exact Hp.
  - unfold loaded_table. cbn [entries tag_len]. eexists. split; [reflexivity|].
    split; reflexivity.
  - unfold loaded_table. cbn [entries drop].
    eapply Forall_impl; [exact Hclean|]. intros e (? & ? & _). auto.
Qed.

Lemma loadBarcodeFile_table_witness :
  strlen two_barcodes_text <= INT_MAX
  /\ loadBarcodeFile (Some two_barcodes_text) = Loaded two_barcodes
  /\ table_ok two_barcodes.
Proof.
  assert (strlen two_barcodes_text <= INT_MAX) as H by (vm_compute; discriminate).
  split; [exact H|]. split; [reflexivity|].
  exact (proj1 (loadBarcodeFile_table two_barcodes_text two_barcodes H eq_refl)).
Defined.

Lemma chomp_snoc_LF l : chomp (l ++ [LF]) = l.
Proof.
  unfold chomp. rewrite last_snoc. cbn. apply List.removelast_last.
Qed.

Lemma chomp_no_LF l : last l <> Some LF -> chomp l = l.
Proof.
  unfold chomp. intros H. destruct (last l) as [c|]; [|reflexivity].
  destruct (Ascii.eqb_spec c LF) as [->|_]; [contradiction | reflexivity].
Qed.

Lemma file_lines_cons c text :
  file_lines (c :: text) =
  if (c =? LF)%char then [c] :: file_lines text
  else match file_lines text with
       | [] => [[c]]
       | l :: ls => (c :: l) :: ls
       end.
Proof. reflexivity. Qed.

Lemma file_lines_snoc_LF text :
  text <> [] -> last text <> Some LF ->
  exists ls l,
    file_lines text = ls ++ [l]
    /\ file_lines (text ++ [LF]) = ls ++ [l ++ [LF]]
    /\ last l <> Some LF.
Proof.
  induction text as [|c text IH]; intros Hne Hlast; [contradiction|].
  destruct text as [|c' text'].
  - cbn in Hlast. cbn [file_lines app].
    destruct (Ascii.eqb_spec c LF) as [->|Hc]; [contradiction|].
    exists [], [c]. cbn. split; [reflexivity|]. split; [reflexivity|]. congruence.
  - destruct IH as (ls & l & H1 & H2 & H3); [discriminate | exact Hlast|].
    change ((c :: c' :: text') ++ [LF]) with (c :: ((c' :: text') ++ [LF])).
    rewrite (file_lines_cons c (c' :: text')), (file_lines_cons c ((c' :: text') ++ [LF])).
    rewrite H1, H2.
    destruct (Ascii.eqb_spec c LF) as [->|Hc].
    + exists ([LF] :: ls), l. auto.
    + destruct ls as [|l0 ls0]; cbn [app].
      * exists [], (c :: l). cbn [app]. split; [reflexivity|]. split; [reflexivity|].
        destruct l; [cbn; congruence | exact H3].
      * exists ((c :: l0) :: ls0), l. auto.
Qed.

Lemma load_rows_chomp rows : forall rows' arr L,
  map chomp rows = map chomp rows' ->
  load_rows rows arr L = load_rows rows' arr L.
Proof.
  induction rows as [|row rows IH]; intros [|row' rows'] arr L Heq; try discriminate;
    [reflexivity|].
  injection Heq as Hrow Hrows. cbn [load_rows]. rewrite Hrow.
  destruct (parse_row (chomp row')) as [bcd|]; [|reflexivity].
  destruct (L =? 0); [apply IH; exact Hrows|].
  destruct (bool_decide _); [reflexivity | apply IH; exact Hrows].
Qed.

(** The newline behind the last row does not matter: a definition text
    whose last line has no newline is loaded exactly as the same text
    with the newline added. *)
Theorem loadBarcodeFile_final_newline (text : cstring) :
  text <> [] -> last text <> Some LF ->
  loadBarcodeFile (Some (text ++ [LF])) = loadBarcodeFile (Some text).
Proof.
  intros Hne Hlast.
  destruct (file_lines_snoc_LF text Hne Hlast) as (ls & l & H1 & H2 & H3).
  unfold loadBarcodeFile. rewrite H1, H2.
  destruct ls as [|header rows]; cbn [app]; [reflexivity|].
  rewrite (load_rows_chomp (rows ++ [l ++ [LF]]) (rows ++ [l])); [reflexivity|].
  rewrite !List.map_app. cbn [map]. rewrite chomp_snoc_LF, chomp_no_LF by exact H3.
  reflexivity.
Qed.

Lemma loadBarcodeFile_final_newline_witness :
  removelast two_barcodes_text <> []
  /\ last (removelast two_barcodes_text) <> Some LF
  /\ loadBarcodeFile (Some (removelast two_barcodes_text)) = Loaded two_barcodes.
Proof.
  assert (removelast two_barcodes_text <> []) as H1 by (vm_compute; discriminate).
  assert (last (removelast two_barcodes_text) <> Some LF) as H2 by (vm_compute; discriminate).
  split; [exact H1|]. split; [exact H2|].
  rewrite <- (loadBarcodeFile_final_newline (removelast two_barcodes_text) H1 H2).
  reflexivity.
Defined.

(** ** Read groups of any shape *)

Lemma addNewRG_loop_defined bcname lib sample desc pre p : forall fuel saveptr line,
  (length saveptr < fuel)%nat ->
  exists tags',
    addNewRG_loop fuel saveptr {| rg := pre ++ [line]; pg := p |} (length pre)
      bcname lib sample desc
    = Some {| rg := pre ++ [ {| rg_name := rg_name line; rg_tag := tags' |} ]; pg := p |}.
Proof.
  induction fuel as [|fuel IH]; intros saveptr line Hfuel; [lia|].
  cbn [addNewRG_loop].
  destruct (strtok_r saveptr [":"%char]) as [[t|] s1] eqn:H1.
  2:{ exists (rg_tag line). destruct line; reflexivity. }
  destruct (strtok_r s1 [TAB]) as [[v|] s2] eqn:H2.
  2:{ exists (rg_tag line). destruct line; reflexivity. }
  destruct (strtok_r_token _ _ _ _ H1) as (Ht & _ & Hl1).
  destruct (strtok_r_token _ _ _ _ H2) as (_ & _ & Hl2).
  rewrite sam_hdr_update_last.
  assert (length s2 < fuel)%nat as Hfuel2.
  { destruct t; [contradiction|]. simpl in Hl1. lia. }
  match goal with
  | |- context [addNewRG_loop fuel s2 {| rg := pre ++ [?line']; pg := p |}] =>
      destruct (IH s2 line' Hfuel2) as [tags' Htags]
  end.
  exists tags'. exact Htags.
Qed.

Lemma addNewRG_one_line sh entry bcname lib sample desc :
  match strtok_r entry [TAB] with
  | (None, _) => addNewRG sh entry bcname lib sample desc = None
  | (Some p, _) =>
      exists line,
        addNewRG sh entry bcname lib sample desc
        = Some {| rg := rg sh ++ [line]; pg := pg sh |}
        /\ rg_name line = p ++ "#"%char :: bcname
  end.
Proof.
  unfold addNewRG. destruct (strtok_r entry [TAB]) as [[p|] saveptr]; [|reflexivity].
  cbn [mbind option_bind]. unfold sam_hdr_find_RG, sam_hdr_add_RG. cbn [rg pg].
  rewrite find_last_RG_snoc by reflexivity. cbn [mbind option_bind Nat.add].
  destruct (addNewRG_loop_defined bcname lib sample desc (rg sh) (pg sh)
              (S (length saveptr)) saveptr
              {| rg_name := p ++ "#"%char :: bcname;
                 rg_tag := [cstr "ID:" ++ p ++ "#"%char :: bcname] |})
    as [tags' Htags]; [lia|].
  eexists. split; [exact Htags | reflexivity].
Qed.

Lemma add_barcode_RGs_count entry es : forall sh sh',
  add_barcode_RGs sh entry es = Some sh' ->
  exists lines, rg sh' = rg sh ++ lines /\ length lines = length es /\ pg sh' = pg sh.
Proof.
  induction es as [|e es IH]; intros sh sh' H; cbn [add_barcode_RGs] in H.
  - injection H as <-. exists []. rewrite app_nil_r. auto.
  - pose proof (addNewRG_one_line sh entry (name e) (Some (lib e)) (Some (sample e))
                  (Some (desc e))) as Hone.
    destruct (strtok_r entry [TAB]) as [[p|] ?].
    + destruct Hone as (line & Hadd & _). rewrite Hadd in H. cbn [mbind option_bind] in H.
      destruct (IH _ _ H) as (lines & Hrg & Hlen & Hpg). cbn [rg pg] in Hrg, Hpg.
      exists (line :: lines). rewrite Hrg, <- app_assoc. cbn. auto.
    + rewrite Hone in H. discriminate.
Qed.

Lemma add_new_RGs_count es rgArray : forall sh sh',
  add_new_RGs sh rgArray es = Some sh' ->
  exists lines,
    rg sh' = rg sh ++ lines
    /\ length lines = (length rgArray * (1 + length es))%nat
    /\ pg sh' = pg sh.
Proof.
  induction rgArray as [|entry rgArray IH]; intros sh sh' H; cbn [add_new_RGs] in H.
  - injection H as <-. exists []. rewrite app_nil_r. auto.
  - pose proof (addNewRG_one_line sh entry (cstr "0") None None None) as Hone.
    destruct (strtok_r entry [TAB]) as [[p|] ?].
    + destruct Hone as (line & Hadd & _). rewrite Hadd in H. cbn [mbind option_bind] in H.
      destruct (add_barcode_RGs _ entry es) as [sh1|] eqn:Hb; [|discriminate].
      cbn [mbind option_bind] in H.
      destruct (add_barcode_RGs_count _ _ _ _ Hb) as (l1 & Hrg1 & Hlen1 & Hpg1).
      destruct (IH _ _ H) as (l2 & Hrg2 & Hlen2 & Hpg2). cbn [rg pg] in *.
      exists (line :: l1 ++ l2). rewrite Hrg2, Hrg1, <- !app_assoc. cbn [app].
      split; [reflexivity|]. split; [|congruence].
      cbn [length]. rewrite length_app. lia.
    + rewrite Hone in H. discriminate.
Qed.

(** One call of [addNewRG], for an entry of any shape: when the entry
    has no first token (it is empty or tabs only) the call is undefined,
    and otherwise it adds exactly one read-group line, whose ID is the
    first token followed by [#] and the barcode name, behind the lines the
    header has, which it leaves as they are; the loop over the tags always
    ends. *)
Theorem addNewRG_adds_one_line (sh : SAM_hdr) (entry bcname : cstring)
    (lib sample desc : option cstring) :
  match strtok_r entry [TAB] with
  | (None, _) => addNewRG sh entry bcname lib sample desc = None
  | (Some p, _) =>
      exists line,
        addNewRG sh entry bcname lib sample desc
        = Some {| rg := rg sh ++ [line]; pg := pg sh |}
        /\ rg_name line = p ++ "#"%char :: bcname
  end.
Proof. apply addNewRG_one_line. Qed.

(** Whatever the header, when the rewrite is defined the rewritten
    header has exactly [1 + N] read-group lines for each original one,
    [N] the number of barcodes, and one program line more. *)
Theorem changeHeader_line_count (arr : bc_array_t) (sh sh' : SAM_hdr)
    (version argv_list : cstring) :
  changeHeader arr sh version argv_list = Some sh' ->
  length (rg sh') = (length (rg sh) * (1 + length (drop 1 (entries arr))))%nat
  /\ length (pg sh') = S (length (pg sh)).
Proof.
  unfold changeHeader. intros H.
  destruct (add_new_RGs_count _ _ _ _ H) as (lines & Hrg & Hlen & Hpg).
  cbn [rg pg sam_hdr_del_RG sam_hdr_add_PG app] in Hrg, Hpg.
  rewrite length_map in Hlen. cbn [rg sam_hdr_add_PG] in Hlen.
  split; [rewrite Hrg; exact Hlen|].
  rewrite Hpg, length_app. cbn [length]. lia.
Qed.

Lemma changeHeader_line_count_witness :
  exists sh',
    changeHeader two_barcodes one_read_group (cstr "0.9") (cstr "bambi decode") = Some sh'
    /\ length (rg sh') = 3%nat.
Proof.
  eexists. split; [reflexivity|].
  exact (proj1 (changeHeader_line_count two_barcodes one_read_group _ (cstr "0.9")
                  (cstr "bambi decode") eq_refl)).
Defined.

(** ** The rewritten declarations of a well-formed header *)

(** On a well-formed tag the test of [changeHeader] for the [ID] tag is
    the test of the key. *)
Lemma is_ID_tag_key str :
  tag_ok str -> is_ID_tag str = bool_decide (tag_key str = cstr "ID").
Proof.
  intros (Hstr & Hlen & _). unfold is_ID_tag.
  destruct (tag_key str) as [|c1 [|c2 [|c3 k]]] eqn:Hk; try discriminate Hlen.
  rewrite Hstr. cbn [take app].
  apply bool_decide_ext. split; intros H.
  - injection H as -> ->. reflexivity.
  - injection H as -> ->. reflexivity.
Qed.

Lemma new_rg_stated r bcname lib sample desc :
  rg_ok r -> new_rg r bcname lib sample desc = stated_rg r bcname lib sample desc.
Proof.
  intros (_ & _ & Htags & _). unfold new_rg, stated_rg, other_tags.
  do 3 f_equal. apply List.filter_ext_in. intros str Hin.
  rewrite is_ID_tag_key; [reflexivity|].
  rewrite Forall_forall in Htags. apply Htags, list_elem_of_In, Hin.
Qed.

Lemma new_rgs_stated es r : rg_ok r -> new_rgs es r = stated_rgs es r.
Proof.
  intros Hr. unfold new_rgs, stated_rgs.
  rewrite new_rg_stated by assumption. f_equal.
  apply map_ext. intros e. apply new_rg_stated, Hr.
Qed.

Lemma full_read_group_ok : Forall rg_ok (rg full_read_group).
Proof.
  constructor; [|constructor].
  unfold rg_ok. cbn [rg_name rg_tag full_read_group].
  split; [discriminate|]. split; [repeat constructor|]. split.
  - repeat constructor; try discriminate.
  - vm_compute. repeat (constructor; [rewrite ?elem_of_cons, elem_of_nil; intuition discriminate|]).
    constructor.
Qed.

(** For a header whose read-group declarations are well formed (an [ID]
    that is not empty, tags with a key of two characters and a value that
    is not empty, no key twice in a declaration) and a table with [N]
    barcodes behind entry 0, the rewritten header has, for each original
    declaration in order, exactly [1 + N] declarations: one with the ID
    [<original ID>#0] that keeps the original LB, SM and DS values, and
    one per barcode with the ID [<original ID>#<entry name>] and LB, SM
    and DS replaced by the entry's library, sample and description; in
    each of them PU, when present, is suffixed with [#] and the barcode
    name, and every other tag whose key is not [ID] is copied unchanged.
    No other read-group declaration is in the rewritten header: every ID
    in it is an original ID followed by [#] and a barcode name. *)
Theorem changeHeader_well_formed (arr : bc_array_t) (sh : SAM_hdr)
    (version argv_list : cstring) :
  Forall rg_ok (rg sh) ->
  exists sh',
    changeHeader arr sh version argv_list = Some sh'
    /\ rg sh' = concat (map (stated_rgs (drop 1 (entries arr))) (rg sh))
    /\ length (rg sh') = (length (rg sh) * (1 + length (drop 1 (entries arr))))%nat
    /\ Forall (fun r' => exists r bcname,
                 r ∈ rg sh /\ rg_name r' = rg_name r ++ "#"%char :: bcname)
              (rg sh').
Proof.
  intros Hok. rewrite changeHeader_result by assumption.
  eexists. split; [reflexivity|]. cbn [rg].
  assert (map (new_rgs (drop 1 (entries arr))) (rg sh)
          = map (stated_rgs (drop 1 (entries arr))) (rg sh)) as ->.
  { apply map_ext_in. intros r Hr. apply new_rgs_stated.
    rewrite Forall_forall in Hok. apply Hok, list_elem_of_In, Hr. }
  split; [reflexivity|]. split.
  - clear Hok. induction (rg sh) as [|r rs IH]; [reflexivity|].
    cbn [map concat length]. rewrite length_app, IH.
    unfold stated_rgs. cbn [length]. rewrite length_map. lia.
  - apply Forall_forall. intros r' Hin.
    apply list_elem_of_In, List.in_concat in Hin as (l & Hl & Hr').
    apply list_elem_of_In in Hl, Hr'.
    apply list_elem_of_fmap in Hl as (r & -> & Hr).
    unfold stated_rgs in Hr'. apply elem_of_cons in Hr' as [->|Hr'].
    + exists r, (cstr "0"). split; [exact Hr | reflexivity].
    + apply list_elem_of_fmap in Hr' as (e & -> & _).
      exists r, (name e). split; [exact Hr | reflexivity].
Qed.

Lemma changeHeader_well_formed_witness :
  Forall rg_ok (rg full_read_group)
  /\ exists sh',
       changeHeader two_barcodes full_read_group (cstr "0.9") (cstr "bambi decode") = Some sh'
       /\ rg sh'
          = [ {| rg_name := cstr "1#0";
                 rg_tag := [cstr "ID:1#0"; cstr "PL:Illumina"; cstr "PU:run7_1#0";
                            cstr "LB:pool"; cstr "DS:all"; cstr "SM:mix"; cstr "CN:SC"] |};
              {| rg_name := cstr "1#1";
                 rg_tag := [cstr "ID:1#1"; cstr "PL:Illumina"; cstr "PU:run7_1#1";
                            cstr "LB:libA"; cstr "DS:descA"; cstr "SM:sampleA";
                            cstr "CN:SC"] |};
              {| rg_name := cstr "1#2";
                 rg_tag := [cstr "ID:1#2"; cstr "PL:Illumina"; cstr "PU:run7_1#2";
                            cstr "LB:libC"; cstr "DS:descC"; cstr "SM:sampleC";
                            cstr "CN:SC"] |} ].
Proof.
  split; [exact full_read_group_ok|].
  destruct (changeHeader_well_formed two_barcodes full_read_group (cstr "0.9")
              (cstr "bambi decode") full_read_group_ok) as (sh' & H1 & H2 & _).
  exists sh'. split; [exact H1|]. rewrite H2. reflexivity.
Defined.
